(** * Terraguard: consensus extraction, risk scoring and facility matching

    A shallow embedding of [src/lib/risk.ts], of
    [src/app/api/extract/ensemble/route.ts], of the single-call route
    [src/app/api/extract/route.ts] and of the reducers and the annotation
    thunk of [src/slices/reportsSlice.ts], and the properties of the
    specification checked against it, followed by further properties of the
    code.

    Conventions of the embedding.
    - A JavaScript string is a [string]; each [ascii] stands for one UTF-16
      code unit below 256, so the development covers Latin-1 text exactly.
    - A JavaScript number that is a count or an index is a [Z]; a number that
      goes through a division or a multiplication by a decimal constant is an
      IEEE 754 binary64 value, [spec_float] at precision 53.
    - [Map] and [Set] iterate in insertion order: they are lists in that
      order.
    - What the code reads from its environment (the clock, [Date.parse],
      [localeCompare], the identifiers drawn for merged reports, the replies
      of the generation service) is an explicit argument. *)

From Stdlib Require Import ZArith List Bool Ascii String Lia.
From Stdlib Require Import Sorting.Sorted Sorting.Permutation.
From Stdlib Require Import Numbers.DecimalString SpecFloat.
Import ListNotations.

Set Warnings "-register-all".

Open Scope string_scope.
Open Scope Z_scope.

(* ================================================================== *)
(** * JavaScript strings *)
(* ================================================================== *)

Module JsString.

Definition code (c : ascii) : Z := Z.of_N (N_of_ascii c).

(** WhiteSpace and LineTerminator code units below 256: TAB, LF, VT, FF,
    CR, SP and NBSP.  [\s] and [trim] use this set. *)
Definition isWs (c : ascii) : bool :=
  let n := code c in
  (n =? 9) || (n =? 10) || (n =? 11) || (n =? 12) || (n =? 13)
  || (n =? 32) || (n =? 160).

(** Lower-casing of one code unit: A-Z, and the Latin-1 capitals
    U+00C0..U+00DE except the multiplication sign U+00D7. *)
Definition lowerChar (c : ascii) : ascii :=
  let n := code c in
  if ((65 <=? n) && (n <=? 90))
     || ((192 <=? n) && (n <=? 222) && negb (n =? 215))
  then ascii_of_N (Z.to_N (n + 32))
  else c.

Fixpoint toLowerCase (s : string) : string :=
  match s with
  | EmptyString => EmptyString
  | String c r => String (lowerChar c) (toLowerCase r)
  end.

Fixpoint trimStart (s : string) : string :=
  match s with
  | EmptyString => EmptyString
  | String c r => if isWs c then trimStart r else s
  end.

Fixpoint trimEnd (s : string) : string :=
  match s with
  | EmptyString => EmptyString
  | String c r =>
      match trimEnd r with
      | EmptyString => if isWs c then EmptyString else String c EmptyString
      | r' => String c r'
      end
  end.

Definition trim (s : string) : string := trimEnd (trimStart s).

(** [startsWith p s]: [p] is a prefix of [s]. *)
Fixpoint startsWith (p s : string) : bool :=
  match p, s with
  | EmptyString, _ => true
  | String a p', String b s' => Ascii.eqb a b && startsWith p' s'
  | String _ _, EmptyString => false
  end.

(** [includes p s]: [p] occurs in [s]; what [/(p)/.test(s)] decides for a
    pattern without metacharacters. *)
Fixpoint includes (p s : string) : bool :=
  startsWith p s
  || match s with
     | EmptyString => false
     | String _ r => includes p r
     end.

(** [test ps s]: the alternation [/(p1|p2|...)/.test(s)]. *)
Definition test (ps : list string) (s : string) : bool :=
  existsb (fun p => includes p s) ps.

(** [indexOfFrom p s k]: [s.indexOf(p, k)] for [0 <= k], [None] for -1. *)
Fixpoint indexOfFrom (p s : string) (k : nat) : option nat :=
  match k with
  | O =>
      if startsWith p s then Some O
      else match s with
           | EmptyString => None
           | String _ r => option_map S (indexOfFrom p r O)
           end
  | S k' =>
      match s with
      | EmptyString => if startsWith p EmptyString then Some O else None
      | String _ r => option_map S (indexOfFrom p r k')
      end
  end.

Definition indexOf (p s : string) : option nat := indexOfFrom p s O.

(** [slice s i j] for [0 <= i], [0 <= j]: code units [i] to [j - 1]. *)
Definition slice (s : string) (i j : nat) : string :=
  substring i (j - i) s.

Fixpoint drop (n : nat) (s : string) : string :=
  match n, s with
  | O, _ => s
  | S n', String _ r => drop n' r
  | S _, EmptyString => EmptyString
  end.

(** Decimal rendering of an integer, as a template literal renders it. *)
Definition ofZ (z : Z) : string := NilEmpty.string_of_int (Z.to_int z).

Definition isEmpty (s : string) : bool :=
  match s with EmptyString => true | _ => false end.

(** The comparison of the default [sort()]: by code units. *)
Definition byCodeUnits (a b : string) : Z :=
  match String.compare a b with
  | Lt => -1
  | Eq => 0
  | Gt => 1
  end.

Fixpoint join (sep : string) (l : list string) : string :=
  match l with
  | [] => EmptyString
  | [x] => x
  | x :: r => x ++ sep ++ join sep r
  end.

End JsString.

(* ================================================================== *)
(** * JavaScript numbers *)
(* ================================================================== *)

Module JsNumber.

Definition prec : Z := 53.
Definition emax : Z := 1024.

Definition number := spec_float.

Definition NaN : number := S754_nan.

Definition ofZ (z : Z) : number := binary_normalize prec emax z 0 false.

Definition add : number -> number -> number := SFadd prec emax.
Definition mul : number -> number -> number := SFmul prec emax.
Definition div : number -> number -> number := SFdiv prec emax.

(** The literal [n/10]: the binary64 value nearest to it. *)
Definition tenths (n : Z) : number := div (ofZ n) (ofZ 10).

Definition isNaN (x : number) : bool :=
  match x with S754_nan => true | _ => false end.

Definition isNegZero (x : number) : bool :=
  match x with S754_zero true => true | _ => false end.

(** [Math.min] and [Math.max] of two numbers: NaN is contagious, and -0
    is below +0. *)
Definition Math_min (a b : number) : number :=
  match SFcompare a b with
  | None => NaN
  | Some Lt => a
  | Some Gt => b
  | Some Eq => if isNegZero a then a else b
  end.

Definition Math_max (a b : number) : number :=
  match SFcompare a b with
  | None => NaN
  | Some Lt => b
  | Some Gt => a
  | Some Eq => if isNegZero a then b else a
  end.

(** [Math.round]: the nearest integer, a tie going towards +infinity. *)
Definition Math_round (x : number) : number :=
  match x with
  | S754_finite s m e =>
      if 0 <=? e then x
      else
        let d := 2 ^ (- e) in
        let n := (2 * cond_Zopp s (Zpos m) + d) / (2 * d) in
        if n =? 0 then S754_zero s else ofZ n
  | _ => x
  end.

(** [Number(x.toFixed(3))]: the magnitude of [x] is rounded to the nearest
    multiple of 1/1000 (the larger on a tie, on the exact value of [x]),
    the sign is put back and the decimal is read as a number.  Exact while
    [1000 * |x|] is below 2^53. *)
Definition toFixed3 (x : number) : number :=
  match x with
  | S754_finite s m e =>
      let n :=
        if 0 <=? e then 1000 * Zpos m * 2 ^ e
        else (2 * 1000 * Zpos m + 2 ^ (- e)) / (2 * 2 ^ (- e)) in
      let r := div (ofZ n) (ofZ 1000) in
      if s then SFopp r else r
  | S754_zero _ => S754_zero false
  | _ => x
  end.

End JsNumber.

(* ================================================================== *)
(** * Ordered containers *)
(* ================================================================== *)

Module JsSet.

(** A [Set<string>] in insertion order. *)
Definition has (x : string) (s : list string) : bool :=
  existsb (String.eqb x) s.

Definition add (s : list string) (x : string) : list string :=
  if has x s then s else s ++ [x].

(** [Array.from(new Set(l))]. *)
Definition ofList (l : list string) : list string := fold_left add l [].

End JsSet.

(** [type Severity] without its [null]. *)
Inductive Severity := low | moderate | high | critical.

(** A call either returns a value or throws. *)
Inductive Completion (A : Type) :=
| Returns (a : A)
| Throws.
Arguments Returns {A} a.
Arguments Throws {A}.

Module JsArray.

(** [Array.prototype.sort] with a comparator: the stable insertion sort,
    which is what every stable sort computes when the comparator is
    consistent. *)
Section Sort.
Context {A : Type} (cmp : A -> A -> Z).

Fixpoint insert (x : A) (l : list A) : list A :=
  match l with
  | [] => [x]
  | y :: r => if cmp x y <=? 0 then x :: l else y :: insert x r
  end.

Definition sort (l : list A) : list A := fold_right insert [] l.
End Sort.

(** [a.slice(0, end)] for an integer [end]. *)
Definition slice0 {A : Type} (l : list A) (e : Z) : list A :=
  let len := Z.of_nat (List.length l) in
  let stop := if e <? 0 then Z.max (len + e) 0 else Z.min e len in
  firstn (Z.to_nat stop) l.

End JsArray.

Module JsMap.

(** A [Map<string, V>] in insertion order. *)
Section Map.
Context {V : Type}.

Fixpoint get (k : string) (m : list (string * V)) : option V :=
  match m with
  | [] => None
  | (k', v) :: r => if (k =? k')%string then Some v else get k r
  end.

(** [m.set(k, v)]: a known key keeps its place. *)
Fixpoint set (k : string) (v : V) (m : list (string * V))
    : list (string * V) :=
  match m with
  | [] => [(k, v)]
  | (k', v') :: r =>
      if (k =? k')%string then (k', v) :: r else (k', v') :: set k v r
  end.
End Map.

(** [m.get(k) || 0] on a map of counts. *)
Definition count (k : string) (m : list (string * Z)) : Z :=
  match get k m with
  | Some c => c
  | None => 0
  end.

End JsMap.

(* ================================================================== *)
(** * src/lib/risk.ts *)
(* ================================================================== *)

Module Risk.
Import JsString JsArray.

Definition SEVERITY_WEIGHT (s : Severity) : Z :=
  match s with
  | low => 10
  | moderate => 35
  | high => 60
  | critical => 80
  end.

(** The chain of tests of [normalizeNeeds], on a lower-cased, trimmed,
    non-empty phrase. *)
Definition canonical (n : string) : string :=
  if test ["emt"; "medic"; "injur"; "medical"; "first aid"] n then "medical"
  else if test ["rescue"; "trapped"; "us&r"; "usar"] n then "rescue"
  else if test ["evac"; "shelter"; "displace"] n then "evacuation"
  else if test ["fire"; "smoke"; "gas"] n then "fire"
  else if test ["utility"; "electric"; "power"; "lines"; "gas"; "water main"] n
  then "utility"
  else if test ["public works"; "debris"; "sandbag"; "pump"; "road"] n
  then "public-works"
  else if test ["security"; "crowd"; "police"] n then "security"
  else if test ["water"] n then "water"
  else if test ["food"] n then "food"
  else n.

(** One turn of the loop of [normalizeNeeds]. *)
Definition pushCanon (canon : list string) (raw : string) : list string :=
  let n := trim (toLowerCase raw) in
  if isEmpty n then canon else canon ++ [canonical n].

Definition normalizeNeeds (needs : list string) : list string :=
  let canon := fold_left pushCanon needs [] in
  JsSet.ofList canon.

(** A property read off an object literal used as a table.  The literal
    inherits from [Object.prototype], so the two lower-case member names of
    the prototype, [constructor] and [__proto__], are found although the
    table does not list them. *)
Inductive Member (A : Type) :=
| Own (a : A)
| Inherited
| Absent.
Arguments Own {A} a.
Arguments Inherited {A}.
Arguments Absent {A}.

Definition prototypeKey (n : string) : bool :=
  (n =? "constructor")%string || (n =? "__proto__")%string.

Definition NEED_WEIGHT (n : string) : Member Z :=
  if (n =? "medical")%string then Own 25
  else if (n =? "rescue")%string then Own 20
  else if (n =? "evacuation")%string then Own 15
  else if (n =? "fire")%string then Own 20
  else if (n =? "utility")%string then Own 12
  else if (n =? "public-works")%string then Own 12
  else if (n =? "security")%string then Own 10
  else if (n =? "water")%string then Own 8
  else if (n =? "food")%string then Own 8
  else if prototypeKey n then Inherited
  else Absent.

(** [NEED_WEIGHT[n] || 0]: a number, or the inherited object. *)
Inductive Weight := WNum (w : Z) | WObject.

Definition weightOf (n : string) : Weight :=
  match NEED_WEIGHT n with
  | Own w => WNum w
  | Inherited => WObject
  | Absent => WNum 0
  end.

(** The comparator [(a, b) => b - a]; a NaN result counts as 0.  With the
    inherited object among the weights the comparator is not consistent
    and the order is the engine's choice: [sort] fixes one, which need not
    be the engine's.  The properties of the score below are about needs
    without such a name, or hold whatever the order. *)
Definition byWeightDesc (a b : Weight) : Z :=
  match a, b with
  | WNum x, WNum y => y - x
  | _, _ => 0
  end.

(** [score += w]: adding the inherited object turns the sum into a string
    that no longer reads as a number, [None] here. *)
Definition addWeight (score : option Z) (w : Weight) : option Z :=
  match score, w with
  | Some s, WNum x => Some (s + x)
  | _, _ => None
  end.

Definition msPerHour : Z := 1000 * 60 * 60.

Section Clock.
(** [Date.parse]: milliseconds since the epoch, [None] for NaN. *)
Variable Date_parse : string -> option Z.
(** [Date.now()]. *)
Variable now : Z.

(** The factor of the time decay; [None] when the score is left as it
    is.  [ageH > h] is decided on the integer difference, which the
    division by [msPerHour] preserves. *)
Definition decay (time_iso : option string) : option JsNumber.number :=
  match time_iso with
  | Some t =>
      if isEmpty t then Some (JsNumber.tenths 9)
      else
        match Date_parse t with
        | Some ms =>
            let age := now - ms in
            if 12 * msPerHour <? age then Some (JsNumber.tenths 7)
            else if 6 * msPerHour <? age then Some (JsNumber.tenths 8)
            else if 2 * msPerHour <? age then Some (JsNumber.tenths 9)
            else None
        | None => None
        end
  | None => Some (JsNumber.tenths 9)
  end.

Definition computeRiskScore (severity : option Severity)
    (needs : list string) (time_iso : option string) : JsNumber.number :=
  let score0 :=
    match severity with
    | Some s => SEVERITY_WEIGHT s
    | None => 0
    end in
  let norm := normalizeNeeds needs in
  let weights := firstn 2 (sort byWeightDesc (map weightOf norm)) in
  let score := fold_left addWeight weights (Some score0) in
  let scaled :=
    match score with
    | Some s =>
        match decay time_iso with
        | Some f => JsNumber.mul (JsNumber.ofZ s) f
        | None => JsNumber.ofZ s
        end
    | None => JsNumber.NaN
    end in
  JsNumber.Math_max (JsNumber.ofZ 0)
    (JsNumber.Math_min (JsNumber.ofZ 100) (JsNumber.Math_round scaled)).
End Clock.

(** From [src/slices/knowledgeSlice.ts]. *)
Inductive FacilityType :=
| hospital | shelter | fire | police | public_works | utility.

Definition FacilityType_eqb (a b : FacilityType) : bool :=
  match a, b with
  | hospital, hospital | shelter, shelter | fire, fire
  | police, police | public_works, public_works | utility, utility => true
  | _, _ => false
  end.

Record Facility := {
  id : string;
  type : FacilityType;
  name : string;
  address : option string;
  phone : option string;
  notes : option string;
  capabilities : option (list string)
}.

Definition NEED_TO_FACILITY (n : string) : Member (list FacilityType) :=
  if (n =? "medical")%string then Own [hospital]
  else if (n =? "rescue")%string then Own [fire]
  else if (n =? "fire")%string then Own [fire]
  else if (n =? "evacuation")%string then Own [shelter]
  else if (n =? "public-works")%string then Own [public_works]
  else if (n =? "utility")%string then Own [utility]
  else if (n =? "water")%string then Own [public_works; shelter]
  else if (n =? "food")%string then Own [shelter]
  else if (n =? "security")%string then Own [police]
  else if prototypeKey n then Inherited
  else Absent.

Definition NEED_TO_CAPS (n : string) : Member (list string) :=
  if (n =? "medical")%string
  then Own ["er"; "trauma"; "icu"; "pediatric"; "surgery"; "helipad"]
  else if (n =? "rescue")%string
  then Own ["usar"; "rope"; "swiftwater"; "hazmat"]
  else if (n =? "fire")%string then Own ["firefighting"; "hazmat"]
  else if (n =? "evacuation")%string
  then Own ["shelter"; "cots"; "blankets"; "accessible"; "pets"]
  else if (n =? "public-works")%string
  then Own ["pumps"; "sandbags"; "debris"; "heavy-equipment"]
  else if (n =? "utility")%string
  then Own ["linecrew"; "electric"; "gas"; "water"; "substation"]
  else if (n =? "water")%string then Own ["water"; "pumps"; "bottled-water"]
  else if (n =? "food")%string then Own ["food"; "meals"]
  else if (n =? "security")%string
  then Own ["crowd-control"; "perimeter"; "traffic"]
  else if prototypeKey n then Inherited
  else Absent.

Definition TYPE_WEIGHT (t : FacilityType) : Z :=
  match t with
  | hospital => 30
  | fire => 25
  | shelter => 18
  | public_works => 15
  | utility => 15
  | police => 12
  end.

Definition scoreFacility (f : Facility) (desiredTypes : list FacilityType)
    (desiredCaps : list string) : Z :=
  let score :=
    if existsb (FacilityType_eqb (type f)) desiredTypes
    then TYPE_WEIGHT (type f) else 0 in
  let caps :=
    map toLowerCase
      (match capabilities f with Some cs => cs | None => [] end) in
  let capMatches :=
    fold_left
      (fun k c => if JsSet.has c desiredCaps then k + 1 else k) caps 0 in
  score + capMatches * 8.

Definition addType (s : list FacilityType) (t : FacilityType)
    : list FacilityType :=
  if existsb (FacilityType_eqb t) s then s else s ++ [t].

(** One turn of the loop over the normalized needs: [forEach] is called
    on [NEED_TO_FACILITY[n] || []], which for an inherited member is not
    an array. *)
Definition desire (acc : Completion (list FacilityType * list string))
    (n : string) : Completion (list FacilityType * list string) :=
  match acc with
  | Throws => Throws
  | Returns (types, caps) =>
      match NEED_TO_FACILITY n with
      | Inherited => Throws
      | Own ts =>
          let types' := fold_left addType ts types in
          match NEED_TO_CAPS n with
          | Inherited => Throws
          | Own cs => Returns (types', fold_left JsSet.add cs caps)
          | Absent => Returns (types', caps)
          end
      | Absent =>
          match NEED_TO_CAPS n with
          | Inherited => Throws
          | Own cs => Returns (types, fold_left JsSet.add cs caps)
          | Absent => Returns (types, caps)
          end
      end
  end.

Section Locale.
(** [a.localeCompare(b)]. *)
Variable localeCompare : string -> string -> Z.

(** [b.score - a.score || a.f.name.localeCompare(b.f.name)]. *)
Definition byScoreThenName (a b : Facility * Z) : Z :=
  let d := snd b - snd a in
  if d =? 0 then localeCompare (name (fst a)) (name (fst b)) else d.

Definition suggestFacilities (needs : list string)
    (facilities : list Facility) (limit : Z)
    : Completion (list Facility) :=
  let norm := normalizeNeeds needs in
  match norm with
  | [] => Returns []
  | _ =>
      match fold_left desire norm (Returns ([], [])) with
      | Throws => Throws
      | Returns (desiredTypes, desiredCaps) =>
          let scored :=
            map (fun f => (f, scoreFacility f desiredTypes desiredCaps))
              facilities in
          let sorted := sort byScoreThenName scored in
          Returns
            (map fst
               (slice0 (filter (fun s => 0 <? snd s) sorted) limit))
      end
  end.
End Locale.

End Risk.

(* ================================================================== *)
(** * JSON values and [JSON.parse] *)
(* ================================================================== *)

Module Json.
Import JsString.

(** A parsed JSON value.  A number keeps its lexeme: nothing in the code
    under study computes with a parsed number.  An object keeps its
    members in source order. *)
Inductive value :=
| JNull
| JBool (b : bool)
| JNumber (lexeme : string)
| JString (s : string)
| JArray (items : list value)
| JObject (members : list (string * value)).

(** [o[k]] on the members of an object: of two members with one name the
    later one stands. *)
Fixpoint get (k : string) (m : list (string * value)) : option value :=
  match m with
  | [] => None
  | (k', v) :: r =>
      match get k r with
      | Some v' => Some v'
      | None => if (k =? k')%string then Some v else None
      end
  end.

(** JSON white space: SP, TAB, LF, CR. *)
Definition isJsonWs (c : ascii) : bool :=
  let n := code c in (n =? 32) || (n =? 9) || (n =? 10) || (n =? 13).

Fixpoint skipWs (s : string) : string :=
  match s with
  | String c r => if isJsonWs c then skipWs r else s
  | EmptyString => s
  end.

Definition isDigit (c : ascii) : bool :=
  let n := code c in (48 <=? n) && (n <=? 57).

Definition hexVal (c : ascii) : option Z :=
  let n := code c in
  if (48 <=? n) && (n <=? 57) then Some (n - 48)
  else if (97 <=? n) && (n <=? 102) then Some (n - 87)
  else if (65 <=? n) && (n <=? 70) then Some (n - 55)
  else None.

(** The code unit written [\uXXXX]; [None] when a digit is wrong or when
    the code unit is above 255, which a [string] here cannot hold. *)
Definition unicodeEscape (a b c d : ascii) : option ascii :=
  match hexVal a, hexVal b, hexVal c, hexVal d with
  | Some x, Some y, Some z, Some w =>
      let n := ((x * 16 + y) * 16 + z) * 16 + w in
      if n <? 256 then Some (ascii_of_N (Z.to_N n)) else None
  | _, _, _, _ => None
  end.

Definition simpleEscape (c : ascii) : option ascii :=
  let n := code c in
  if n =? 34 then Some c                      (* quote *)
  else if n =? 92 then Some c                 (* backslash *)
  else if n =? 47 then Some c                 (* slash *)
  else if n =? 98 then Some (ascii_of_N 8)    (* b: backspace *)
  else if n =? 102 then Some (ascii_of_N 12)  (* f: form feed *)
  else if n =? 110 then Some (ascii_of_N 10)  (* n: line feed *)
  else if n =? 114 then Some (ascii_of_N 13)  (* r: carriage return *)
  else if n =? 116 then Some (ascii_of_N 9)   (* t: tab *)
  else None.

Definition cons_fst (c : ascii) (p : option (string * string))
    : option (string * string) :=
  match p with
  | Some (str, rest) => Some (String c str, rest)
  | None => None
  end.

(** The characters of a string literal after its opening quote, up to
    the closing one: the decoded string and what follows it. *)
Fixpoint stringBody (s : string) : option (string * string) :=
  match s with
  | EmptyString => None
  | String c r =>
      if code c =? 34 then Some (EmptyString, r)
      else if code c =? 92 then
        match r with
        | String e r1 =>
            if code e =? 117 then
              match r1 with
              | String h1 (String h2 (String h3 (String h4 r2))) =>
                  match unicodeEscape h1 h2 h3 h4 with
                  | Some u => cons_fst u (stringBody r2)
                  | None => None
                  end
              | _ => None
              end
            else
              match simpleEscape e with
              | Some u => cons_fst u (stringBody r1)
              | None => None
              end
        | EmptyString => None
        end
      else if code c <? 32 then None
      else cons_fst c (stringBody r)
  end.

Fixpoint digits (s : string) : string * string :=
  match s with
  | String c r =>
      if isDigit c then let (d, rest) := digits r in (String c d, rest)
      else (EmptyString, s)
  | EmptyString => (EmptyString, s)
  end.

(** A number: an optional minus, an integer part without a leading zero
    (or a lone zero), an optional fraction with at least one digit, an
    optional exponent with at least one digit. *)
Definition numberLexeme (s : string) : option (string * string) :=
  let (sign, s1) :=
    match s with
    | String c r => if code c =? 45 then ("-", r) else ("", s)
    | EmptyString => ("", s)
    end in
  let (int, s2) := digits s1 in
  let intOk :=
    match int with
    | EmptyString => false
    | String c EmptyString => true
    | String c _ => negb (code c =? 48)
    end in
  if negb intOk then None
  else
    let fracPart :=
      match s2 with
      | String c r =>
          if code c =? 46 then
            let (f, s3) := digits r in
            if isEmpty f then None else Some ("." ++ f, s3)
          else Some ("", s2)
      | EmptyString => Some ("", s2)
      end in
    match fracPart with
    | None => None
    | Some (frac, s3) =>
        let expPart :=
          match s3 with
          | String c r =>
              if (code c =? 101) || (code c =? 69) then
                let (sg, r1) :=
                  match r with
                  | String d r' =>
                      if (code d =? 43) || (code d =? 45)
                      then (String d "", r') else ("", r)
                  | EmptyString => ("", r)
                  end in
                let (x, s4) := digits r1 in
                if isEmpty x then None
                else Some (String c sg ++ x, s4)
              else Some ("", s3)
          | EmptyString => Some ("", s3)
          end in
        match expPart with
        | None => None
        | Some (ex, s4) => Some (sign ++ int ++ frac ++ ex, s4)
        end
    end.

Definition literal (word : string) (v : value) (s : string)
    : option (value * string) :=
  if startsWith word s then Some (v, drop (String.length word) s) else None.

(** Recursive descent on a fuel that bounds the number of nested calls;
    [parseValue] expects no leading white space. *)
Fixpoint parseValue (fuel : nat) (s : string) : option (value * string) :=
  match fuel with
  | O => None
  | S fuel' =>
      match s with
      | EmptyString => None
      | String c r =>
          let n := code c in
          if n =? 123 then                            (* { *)
            match skipWs r with
            | String c' r' =>
                if code c' =? 125 then Some (JObject [], r')
                else
                  match parseMembers fuel' (String c' r') with
                  | Some (m, rest) => Some (JObject m, rest)
                  | None => None
                  end
            | EmptyString => None
            end
          else if n =? 91 then                        (* [ *)
            match skipWs r with
            | String c' r' =>
                if code c' =? 93 then Some (JArray [], r')
                else
                  match parseElements fuel' (String c' r') with
                  | Some (l, rest) => Some (JArray l, rest)
                  | None => None
                  end
            | EmptyString => None
            end
          else if n =? 34 then                        (* string *)
            match stringBody r with
            | Some (str, rest) => Some (JString str, rest)
            | None => None
            end
          else if n =? 116 then literal "true" (JBool true) s
          else if n =? 102 then literal "false" (JBool false) s
          else if n =? 110 then literal "null" JNull s
          else
            match numberLexeme s with
            | Some (lx, rest) => Some (JNumber lx, rest)
            | None => None
            end
      end
  end

(** [value (, value)* ]] with the cursor on the first value. *)
with parseElements (fuel : nat) (s : string)
    : option (list value * string) :=
  match fuel with
  | O => None
  | S fuel' =>
      match parseValue fuel' s with
      | None => None
      | Some (v, rest) =>
          match skipWs rest with
          | String c r =>
              if code c =? 93 then Some ([v], r)
              else if code c =? 44 then
                match parseElements fuel' (skipWs r) with
                | Some (l, rest') => Some (v :: l, rest')
                | None => None
                end
              else None
          | EmptyString => None
          end
      end
  end

(** [string : value (, string : value)* }] with the cursor on the first
    name. *)
with parseMembers (fuel : nat) (s : string)
    : option (list (string * value) * string) :=
  match fuel with
  | O => None
  | S fuel' =>
      match s with
      | String q r =>
          if code q =? 34 then
            match stringBody r with
            | Some (k, rest) =>
                match skipWs rest with
                | String c r1 =>
                    if code c =? 58 then
                      match parseValue fuel' (skipWs r1) with
                      | Some (v, rest1) =>
                          match skipWs rest1 with
                          | String c2 r2 =>
                              if code c2 =? 125 then Some ([(k, v)], r2)
                              else if code c2 =? 44 then
                                match parseMembers fuel' (skipWs r2) with
                                | Some (m, rest2) =>
                                    Some ((k, v) :: m, rest2)
                                | None => None
                                end
                              else None
                          | EmptyString => None
                          end
                      | None => None
                      end
                    else None
                | EmptyString => None
                end
            | None => None
            end
          else None
      | EmptyString => None
      end
  end.

Definition parseWith (fuel : nat) (text : string) : option value :=
  match parseValue fuel (skipWs text) with
  | Some (v, rest) => if isEmpty (skipWs rest) then Some v else None
  | None => None
  end.

(** [JSON.parse(text)]; [None] when it throws a [SyntaxError].  Every
    nested call consumes a character within two steps, so the fuel is
    enough for any text. *)
Definition parse (text : string) : option value :=
  parseWith (2 * String.length text + 2) text.

(** [JSON.stringify] of a string: quoted, with the two-character escapes
    and [\u00XX] for the other control characters. *)
Definition quote : string := String (ascii_of_N 34) "".

Definition hexDigit (n : Z) : ascii :=
  ascii_of_N (Z.to_N (if n <? 10 then 48 + n else 87 + n)).

Definition escapeChar (c : ascii) : string :=
  let n := code c in
  if n =? 34 then "\" ++ quote
  else if n =? 92 then "\\"
  else if n =? 8 then "\b"
  else if n =? 12 then "\f"
  else if n =? 10 then "\n"
  else if n =? 13 then "\r"
  else if n =? 9 then "\t"
  else if n <? 32
  then "\u00" ++ String (hexDigit (n / 16)) (String (hexDigit (n mod 16)) "")
  else String c "".

Fixpoint escape (s : string) : string :=
  match s with
  | EmptyString => EmptyString
  | String c r => escapeChar c ++ escape r
  end.

Definition stringifyString (s : string) : string :=
  quote ++ escape s ++ quote.

End Json.

(* ================================================================== *)
(** * src/app/api/extract/ensemble/route.ts: salvage *)
(* ================================================================== *)

Module Salvage.
Import JsString Json.

Definition fence : string := "```".

(** [p] is a prefix of [s] under the [i] flag. *)
Fixpoint startsWithCI (p s : string) : bool :=
  match p, s with
  | EmptyString, _ => true
  | String a p', String b s' =>
      Ascii.eqb (lowerChar a) (lowerChar b) && startsWithCI p' s'
  | String _ _, EmptyString => false
  end.

(** The tail [\s*```] of the pattern at the head of [t]: the text after
    the closing fence.  A fence does not start with white space, so only
    the longest run of white space can be followed by one. *)
Definition closeFence (t : string) : option string :=
  let t' := trimStart t in
  if startsWith fence t' then Some (drop 3 t') else None.

(** The lazy group [([\s\S]*?)] followed by the tail: the shortest
    capture after which the tail matches. *)
Fixpoint lazyCapture (t : string) : option (string * string) :=
  match closeFence t with
  | Some rest => Some (EmptyString, rest)
  | None =>
      match t with
      | EmptyString => None
      | String a t' =>
          match lazyCapture t' with
          | Some (cap, rest) => Some (String a cap, rest)
          | None => None
          end
      end
  end.

(** The greedy [\s*] before the group: longest run first, giving back
    one white space at a time. *)
Fixpoint wsThenCapture (t : string) : option (string * string) :=
  match t with
  | String a t' =>
      if isWs a then
        match wsThenCapture t' with
        | Some r => Some r
        | None => lazyCapture t
        end
      else lazyCapture t
  | EmptyString => lazyCapture t
  end.

(** One match of the whole pattern at the head of [s]: the capture and
    the text after the match.  The optional [json] is tried first. *)
Definition matchFence (s : string) : option (string * string) :=
  if startsWith fence s then
    let r := drop 3 s in
    if startsWithCI "json" r then
      match wsThenCapture (drop 4 r) with
      | Some m => Some m
      | None => wsThenCapture r
      end
    else wsThenCapture r
  else None.

(** [s.replace(/```(?:json)?\s*([\s\S]*?)\s*```/gi, "$1")], left to
    right; a match is at least six code units long, so [fuel] above the
    length of [s] is never exhausted. *)
Fixpoint replaceFences (fuel : nat) (s : string) : string :=
  match fuel with
  | O => s
  | S fuel' =>
      match matchFence s with
      | Some (cap, rest) => cap ++ replaceFences fuel' rest
      | None =>
          match s with
          | EmptyString => EmptyString
          | String a r => String a (replaceFences fuel' r)
          end
      end
  end.

Definition stripCodeFences (s : string) : string :=
  replaceFences (S (String.length s)) s.

Definition betweenTags (s open close : string) : option string :=
  match indexOf open s with
  | None => None
  | Some i =>
      let from := (i + String.length open)%nat in
      match indexOfFrom close s from with
      | None => None
      | Some j => Some (slice s from j)
      end
  end.

Definition backslash : ascii := ascii_of_N 92.
Definition dquote : ascii := ascii_of_N 34.

(** The inner loop of [extractBalancedJson] from index [i] on, where
    [t] is [s] from [i] and [prev] is [s[i - 1]]: the index of the
    closing character that brings the depth back to 0. *)
Fixpoint scanBalanced (startCh endCh : ascii) (t : string)
    (prev : option ascii) (depth : Z) (inStr esc : bool) (i : nat)
    : option nat :=
  match t with
  | EmptyString => None
  | String ch t' =>
      let next := scanBalanced startCh endCh t' (Some ch) in
      if esc then next depth inStr false (S i)
      else if Ascii.eqb ch backslash then next depth inStr true (S i)
      else
        let inStr' :=
          if Ascii.eqb ch dquote
             && negb (match prev with
                      | Some p => Ascii.eqb p backslash
                      | None => false
                      end)
          then negb inStr else inStr in
        if inStr' then next depth inStr' false (S i)
        else if Ascii.eqb ch startCh then next (depth + 1) inStr' false (S i)
        else if Ascii.eqb ch endCh then
          if depth - 1 =? 0 then Some i
          else next (depth - 1) inStr' false (S i)
        else next depth inStr' false (S i)
  end.

Fixpoint lastBefore (s : string) (i : nat) : option ascii :=
  match i, s with
  | S O, String c _ => Some c
  | S i', String _ r => lastBefore r i'
  | _, _ => None
  end.

(** The body of the loop over [tryStarts] for one opening character. *)
Definition balancedFrom (s : string) (startCh endCh : ascii)
    : option string :=
  match indexOf (String startCh "") s with
  | None => None
  | Some start =>
      match scanBalanced startCh endCh (drop start s)
              (lastBefore s start) 0 false false start with
      | Some i => Some (slice s start (S i))
      | None => None
      end
  end.

Definition extractBalancedJson (s : string) : option string :=
  match balancedFrom s "{"%char "}"%char with
  | Some span => Some span
  | None => balancedFrom s "["%char "]"%char
  end.

(** The [reports] of the [ExtractResponse]. *)
Definition coerceToExtractResponse (val : value) : list value :=
  match val with
  | JArray items => items
  | JObject m =>
      match get "reports" m with
      | Some (JArray items) => items
      | _ => [val]
      end
  | _ => []
  end.

(** The loop over [uniq]: the first candidate that parses decides. *)
Fixpoint firstParse (uniq : list string) : Completion (list value) :=
  match uniq with
  | [] => Throws
  | c :: rest =>
      match parse c with
      | Some parsed => Returns (coerceToExtractResponse parsed)
      | None => firstParse rest
      end
  end.

Definition pushIf (b : bool) (l : list string) (x : string) : list string :=
  if b then l ++ [x] else l.

Definition parseModelJson (raw : string) : Completion (list value) :=
  let candidates := [raw] in
  let noFences := stripCodeFences raw in
  let candidates :=
    pushIf (negb (noFences =? raw)%string) candidates noFences in
  let candidates :=
    match betweenTags raw "<json>" "</json>" with
    | Some tag => pushIf (negb (isEmpty tag)) candidates tag
    | None => candidates
    end in
  let candidates :=
    match extractBalancedJson raw with
    | Some balanced => pushIf (negb (isEmpty balanced)) candidates balanced
    | None => candidates
    end in
  let uniq :=
    JsSet.ofList (filter (fun c => negb (isEmpty c)) candidates) in
  firstParse uniq.

End Salvage.

(* ================================================================== *)
(** * src/app/api/extract/ensemble/route.ts: merge and handler *)
(* ================================================================== *)

Module Ensemble.
Import JsString JsArray Json Salvage.

(** One report of a parsed run, read at the declared type
    [ExtractedReport].  [severity] is the string as the model wrote it,
    and [needs] is [None] when the property is not an array: the handler
    checks both. *)
Record ExtractedReport := {
  location_text : option string;
  time_iso : option string;
  severity : option string;
  needs : option (list string);
  dedupe_key : option string;
  notes : option string
}.

(** A property declared [string | null] or optional: absent and [null]
    read alike; any other non-string is outside the declared type. *)
Definition stringField (k : string) (m : list (string * value))
    : option (option string) :=
  match get k m with
  | None => Some None
  | Some JNull => Some None
  | Some (JString str) => Some (Some str)
  | Some _ => None
  end.

Fixpoint strings (l : list value) : option (list string) :=
  match l with
  | [] => Some []
  | JString str :: r =>
      match strings r with
      | Some rs => Some (str :: rs)
      | None => None
      end
  | _ :: _ => None
  end.

Definition needsField (m : list (string * value))
    : option (option (list string)) :=
  match get "needs" m with
  | Some (JArray l) =>
      match strings l with
      | Some ns => Some (Some ns)
      | None => None
      end
  | _ => Some None
  end.

Definition noProperties : ExtractedReport :=
  {| location_text := None; time_iso := None; severity := None;
     needs := None; dedupe_key := None; notes := None |}.

(** The report the handler sees in a parsed value; [None] when the value
    does not have the declared type (a property of the wrong type, or
    [null] in place of a report).  A number, a string, a boolean or an
    array in place of a report has none of the properties. *)
Definition decodeReport (v : value) : option ExtractedReport :=
  match v with
  | JObject m =>
      match stringField "location_text" m, stringField "time_iso" m,
            stringField "severity" m, needsField m,
            stringField "dedupe_key" m, stringField "notes" m with
      | Some l, Some t, Some sv, Some n, Some d, Some nt =>
          Some {| location_text := l; time_iso := t; severity := sv;
                  needs := n; dedupe_key := d; notes := nt |}
      | _, _, _, _, _, _ => None
      end
  | JNull => None
  | _ => Some noProperties
  end.

Definition isString (v : value) : bool :=
  match v with JString _ => true | _ => false end.

(** Reports on which [makeKey(rep)] throws a [TypeError], whatever else
    they hold: [rep] is null; or its [location_text] is neither a string
    nor null nor missing ([trim] is not a function); or an entry of its
    array [needs] is not a string ([toLowerCase] is not a function); or its
    [dedupe_key] is true, an array or an object (truthy, and [trim] is not a
    function).  A number other than 0 as [dedupe_key] throws as well and
    is not listed: a parsed number keeps its lexeme here. *)
Definition makeKeyThrows (rep : value) : bool :=
  match rep with
  | JNull => true
  | JObject m =>
      match get "location_text" m with
      | None | Some JNull | Some (JString _) => false
      | Some _ => true
      end
      || match get "needs" m with
         | Some (JArray l) => negb (forallb isString l)
         | _ => false
         end
      || match get "dedupe_key" m with
         | Some (JBool true) | Some (JArray _) | Some (JObject _) => true
         | _ => false
         end
  | _ => false
  end.

(** ** Merge helpers *)

Definition norm (s : option string) : string :=
  toLowerCase (trim (match s with Some x => x | None => "" end)).

Definition msPerDay : Z := 86400000.

(** Year, month from 0, day of the month of a day number counted from
    1970-01-01, in the proleptic Gregorian calendar. *)
Definition civil (days : Z) : Z * Z * Z :=
  let z := days + 719468 in
  let era := z / 146097 in
  let doe := z - era * 146097 in
  let yoe := (doe - doe / 1460 + doe / 36524 - doe / 146096) / 365 in
  let doy := doe - (365 * yoe + yoe / 4 - yoe / 100) in
  let mp := (5 * doy + 2) / 153 in
  let d := doy - (153 * mp + 2) / 5 + 1 in
  let m := if mp <? 10 then mp + 3 else mp - 9 in
  let y := yoe + era * 400 + (if m <=? 2 then 1 else 0) in
  (y, m - 1, d).

Section Clock.
(** The time value of [new Date(iso)], [None] for an invalid date. *)
Variable Date_parse : string -> option Z.

Definition minuteBucket (iso : option string) : string :=
  match iso with
  | None => ""
  | Some str =>
      if isEmpty str then ""
      else
        match Date_parse str with
        | None => ""
        | Some t =>
            let '(y, m, d) := civil (t / msPerDay) in
            let ms := t mod msPerDay in
            ofZ y ++ "-" ++ ofZ m ++ "-" ++ ofZ d ++ " "
            ++ ofZ (ms / 3600000) ++ ":" ++ ofZ (ms / 60000 mod 60)
        end
  end.

Definition makeKey (r : ExtractedReport) : string :=
  let loc := norm (location_text r) in
  let time := minuteBucket (time_iso r) in
  let sev := match severity r with Some x => x | None => "" end in
  let needs :=
    match needs r with
    | Some ns =>
        join "," (sort byCodeUnits
                    (map (fun n => trim (toLowerCase n)) ns))
    | None => ""
    end in
  match dedupe_key r with
  | Some d =>
      if isEmpty d
      then "k:" ++ loc ++ "|" ++ time ++ "|" ++ sev ++ "|" ++ needs
      else "d:" ++ norm (Some d)
  | None => "k:" ++ loc ++ "|" ++ time ++ "|" ++ sev ++ "|" ++ needs
  end.
End Clock.

(** [JSON.stringify(v ?? null)] for the two kinds of voted value. *)
Definition stringifyText (v : option string) : string :=
  match v with
  | Some str => stringifyString str
  | None => "null"
  end.

Definition severityName (sv : Severity) : string :=
  match sv with
  | low => "low"
  | moderate => "moderate"
  | high => "high"
  | critical => "critical"
  end.

Definition stringifySeverity (v : option Severity) : string :=
  match v with
  | Some sv => stringifyString (severityName sv)
  | None => "null"
  end.

Section Majority.
Context {T : Type} (stringify : option T -> string).

(** One turn of the loop of [majority]: the map of counts and the best
    entry so far. *)
Definition tally (st : list (string * Z) * (option T * Z))
    (v : option T) : list (string * Z) * (option T * Z) :=
  let (m, best) := st in
  let key := stringify v in
  let c := JsMap.count key m + 1 in
  (JsMap.set key c m, if snd best <? c then (v, c) else best).

(** The value and the count of [majority(arr)]. *)
Definition majority (arr : list (option T)) : option T * Z :=
  snd (fold_left tally arr ([], (None, 0))).
End Majority.

Definition countNeed (counts : list (string * Z)) (n : string)
    : list (string * Z) :=
  let key := trim (toLowerCase n) in
  if isEmpty key then counts
  else JsMap.set key (JsMap.count key counts + 1) counts.

Definition countNeeds (allNeeds : list (list string))
    : list (string * Z) :=
  fold_left (fun counts phrases => fold_left countNeed phrases counts)
    allNeeds [].

(** The needs and the confidence of [needsConsensus(allNeeds, k)], for
    an integer [k]; [Math.ceil(k / 2)] is [(k + 1) / 2] rounded down. *)
Definition needsConsensus (allNeeds : list (list string)) (k : Z)
    : list string * JsNumber.number :=
  let counts := countNeeds allNeeds in
  let entries := sort (fun a b => snd b - snd a) counts in
  let threshold := (k + 1) / 2 in
  let chosen :=
    map fst (filter (fun e => threshold <=? snd e) entries) in
  let chosen :=
    match chosen with
    | [] => map fst (firstn 3 entries)
    | _ => chosen
    end in
  let conf :=
    match entries with
    | [] => JsNumber.ofZ 0
    | _ =>
        JsNumber.Math_min (JsNumber.ofZ 1)
          (JsNumber.div
             (JsNumber.ofZ
                (fold_left (fun acc n => acc + JsMap.count n counts)
                   chosen 0))
             (JsNumber.ofZ
                (k * Z.max 1 (Z.of_nat (List.length chosen)))))
    end in
  (chosen, conf).

(** ** Handler *)

Record Bucket := {
  locs : list (option string);
  times : list (option string);
  sevs : list (option Severity);
  needs_ : list (list string);
  notes_ : list (option string);
  dedupe_keys : list (option string)
}.

Definition emptyBucket : Bucket :=
  {| locs := []; times := []; sevs := []; needs_ := []; notes_ := [];
     dedupe_keys := [] |}.

(** The check [["low", "moderate", "high", "critical"].includes(...)]. *)
Definition knownSeverity (sv : option string) : option Severity :=
  match sv with
  | Some x =>
      if (x =? "low")%string then Some low
      else if (x =? "moderate")%string then Some moderate
      else if (x =? "high")%string then Some high
      else if (x =? "critical")%string then Some critical
      else None
  | None => None
  end.

Definition pushReport (b : Bucket) (rep : ExtractedReport) : Bucket :=
  {| locs := locs b ++ [location_text rep];
     times := times b ++ [time_iso rep];
     sevs := sevs b ++ [knownSeverity (severity rep)];
     needs_ := needs_ b ++ [match needs rep with
                             | Some ns => ns
                             | None => []
                             end];
     notes_ := notes_ b ++ [notes rep];
     dedupe_keys := dedupe_keys b ++ [dedupe_key rep] |}.

(** The merged report pushed for one bucket. *)
Module Merged.
Record t := {
  id : string;
  location_text : option string;
  time_iso : option string;
  severity : option Severity;
  needs : list string;
  notes : option string;
  dedupe_key : option string;
  confidence_overall : JsNumber.number;
  confields_location_text : JsNumber.number;
  confields_time_iso : JsNumber.number;
  confields_severity : JsNumber.number;
  confields_needs : JsNumber.number
}.
End Merged.

(** The body of the loop over the buckets, for the denominator [k] and
    the identifier drawn for the report. *)
Definition mergeBucket (k : Z) (id : string) (b : Bucket) : Merged.t :=
  let locMaj := majority stringifyText (locs b) in
  let timeMaj := majority stringifyText (times b) in
  let sevMaj := majority stringifySeverity (sevs b) in
  let needsMaj := needsConsensus (needs_ b) k in
  let notesMaj := majority stringifyText (notes_ b) in
  let dedupMaj := majority stringifyText (dedupe_keys b) in
  let confLoc := JsNumber.div (JsNumber.ofZ (snd locMaj)) (JsNumber.ofZ k) in
  let confTime :=
    JsNumber.div (JsNumber.ofZ (snd timeMaj)) (JsNumber.ofZ k) in
  let confSev := JsNumber.div (JsNumber.ofZ (snd sevMaj)) (JsNumber.ofZ k) in
  let confNeeds := snd needsMaj in
  let parts :=
    filter (fun n => negb (JsNumber.isNaN n))
      [confLoc; confTime; confSev; confNeeds] in
  let overall :=
    match parts with
    | [] => JsNumber.ofZ 0
    | _ =>
        JsNumber.div (fold_left JsNumber.add parts (JsNumber.ofZ 0))
          (JsNumber.ofZ (Z.of_nat (List.length parts)))
    end in
  {| Merged.id := id;
     Merged.location_text := fst locMaj;
     Merged.time_iso := fst timeMaj;
     Merged.severity := fst sevMaj;
     Merged.needs := fst needsMaj;
     Merged.notes := fst notesMaj;
     Merged.dedupe_key := fst dedupMaj;
     Merged.confidence_overall := JsNumber.toFixed3 overall;
     Merged.confields_location_text := JsNumber.toFixed3 confLoc;
     Merged.confields_time_iso := JsNumber.toFixed3 confTime;
     Merged.confields_severity := JsNumber.toFixed3 confSev;
     Merged.confields_needs := JsNumber.toFixed3 confNeeds |}.

(** The reply of the generation service to one call of [fetch]. *)
Inductive Attempt :=
| Rejected                                (* [fetch] or [r.json()] rejects *)
| NotOk (status : Z) (errText : string)   (* [!r.ok] *)
| Replied (response : option string).     (* [data.response] *)

(** What the handler answers. *)
Inductive Outcome :=
| Reports (reports : list Merged.t)       (* status 200, [{ reports }] *)
| Failure (status : Z) (error : string)   (* [{ error }] *)
| Uncaught                                (* an exception leaves [POST] *)
| IllTyped.      (* the handler goes on with a report outside the declared
                    type, where this embedding does not follow it *)

(** The body of the request as the handler reads it.  [samples] is the
    number that [Math.min] makes of [body.samples]: a number itself, 1 and
    0 for true and false, the number that a string spells or NaN; [None]
    for null and for a body without the property. *)
Record Body := {
  text : option string;
  samples : option JsNumber.number
}.

(** One turn of the loop over the attempts: the answer that ends the
    request, or the runs so far. *)
Definition attempt (a : Attempt) (runs : list (list value))
    : Outcome + list (list value) :=
  match a with
  | Rejected => inl Uncaught
  | NotOk status errText =>
      inl (Failure 503 ("Ollama error: " ++ ofZ status ++ " " ++ errText))
  | Replied response =>
      let content :=
        trim (match response with Some x => x | None => "" end) in
      if isEmpty content then inr runs
      else
        match parseModelJson content with
        | Returns run => inr (runs ++ [run])%list
        | Throws => inr runs
        end
  end.

(** The loop [for (let i = 0; i < samples; i++)] from [i] on, with [n]
    turns left. *)
Fixpoint generate (gen : nat -> Attempt) (i n : nat)
    (runs : list (list value)) : Outcome + list (list value) :=
  match n with
  | O => inr runs
  | S n' =>
      match attempt (gen i) runs with
      | inl out => inl out
      | inr runs' => generate gen (S i) n' runs'
      end
  end.

Section Handler.
Variable OLLAMA_BASE : string.
Variable Date_parse : string -> option Z.
(** The identifier drawn for the [i]-th merged report. *)
Variable randomUUID : nat -> string.

(** The body of the loop over the reports of the runs. *)
Definition bucketReport (buckets : list (string * Bucket))
    (rep : ExtractedReport) : list (string * Bucket) :=
  let key := makeKey Date_parse rep in
  let b :=
    match JsMap.get key buckets with
    | Some b => b
    | None => emptyBucket
    end in
  JsMap.set key (pushReport b rep) buckets.

Definition bucketValue (acc : option (list (string * Bucket)))
    (v : value) : option (list (string * Bucket)) :=
  match acc, decodeReport v with
  | Some buckets, Some rep => Some (bucketReport buckets rep)
  | _, _ => None
  end.

(** The map of buckets after the loop over the runs of reports of the
    declared type; [None] when a report is outside it. *)
Definition bucketRuns (runs : list (list value))
    : option (list (string * Bucket)) :=
  fold_left (fun acc run => fold_left bucketValue run acc) runs (Some []).

(** [runs.length || 1]. *)
Definition denominator (runs : list (list value)) : Z :=
  let n := Z.of_nat (List.length runs) in
  if n =? 0 then 1 else n.

Fixpoint mergeFrom (k : Z) (i : nat) (buckets : list (string * Bucket))
    : list Merged.t :=
  match buckets with
  | [] => []
  | (_, b) :: rest =>
      mergeBucket k (randomUUID i) b :: mergeFrom k (S i) rest
  end.

(** The two loops after the calls.  The handler has no [try] around
    them: a report on which [makeKey] throws ends the request with that
    exception, wherever it stands in the runs. *)
Definition mergeRuns (runs : list (list value)) : Outcome :=
  match bucketRuns runs with
  | Some buckets => Reports (mergeFrom (denominator runs) O buckets)
  | None =>
      if existsb (existsb makeKeyThrows) runs then Uncaught else IllTyped
  end.

(** [body?.samples ?? 3]. *)
Definition asked (body : option Body) : JsNumber.number :=
  match body with
  | Some b =>
      match samples b with
      | Some n => n
      | None => JsNumber.ofZ 3
      end
  | None => JsNumber.ofZ 3
  end.

(** [Math.max(2, Math.min(6, body?.samples ?? 3))]. *)
Definition clampSamples (body : option Body) : JsNumber.number :=
  JsNumber.Math_max (JsNumber.ofZ 2)
    (JsNumber.Math_min (JsNumber.ofZ 6) (asked body)).

(** The turns of [for (let i = 0; i < samples; i++)] from [i] on, [fuel]
    of them at most. *)
Fixpoint turns (samples : JsNumber.number) (i : Z) (fuel : nat) : nat :=
  match fuel with
  | O => O
  | S fuel' =>
      if SFltb (JsNumber.ofZ i) samples
      then S (turns samples (i + 1) fuel')
      else O
  end.

(** The number of turns of the loop over the calls.  [samples] is NaN or
    at most 6, so that the loop has ended after six turns. *)
Definition sampleCount (body : option Body) : Z :=
  Z.of_nat (turns (clampSamples body) 0 6).

Definition POST (body : option Body) (ping : bool)
    (gen : nat -> Attempt) : Outcome :=
  let text :=
    match body with
    | Some b =>
        match text b with
        | Some x => trim x
        | None => ""
        end
    | None => ""
    end in
  let calls := sampleCount body in
  if isEmpty text
  then Failure 400 ("Missing " ++ quote ++ "text" ++ quote)
  else if negb ping
  then Failure 503
         ("Cannot reach Ollama at " ++ OLLAMA_BASE ++ ". Is it running?")
  else
    match generate gen O (Z.to_nat calls) [] with
    | inl out => out
    | inr runs => mergeRuns runs
    end.
End Handler.

End Ensemble.

(* ================================================================== *)
(** * src/slices/reportsSlice.ts *)
(* ================================================================== *)

Module ReportsSlice.
Import JsString JsArray Risk.

(** The optional [confields] of a report. *)
Record Confields := {
  confields_location_text : option JsNumber.number;
  confields_time_iso : option JsNumber.number;
  confields_severity : option JsNumber.number;
  confields_needs : option JsNumber.number
}.

(** [type Report].  An optional property is an [option]; one that is
    optional and may be null is an [option] of an [option]. *)
Record Report := {
  id : string;
  location_text : option string;
  time_iso : option string;
  severity : option Severity;
  needs : list string;
  notes : option (option string);
  dedupe_key : option (option string);
  risk_score : option JsNumber.number;
  suggestions : option (list Facility);
  confidence_overall : option JsNumber.number;
  confields : option Confields
}.

Inductive Status := idle | loading | succeeded | failed.

(** [type ReportsState]; an [error] that is null or missing is [None]. *)
Record ReportsState := {
  items : list Report;
  status : Status;
  error : option string
}.

Definition initialState : ReportsState :=
  {| items := []; status := idle; error := None |}.

(** ** The thunk annotateReports *)

Section Thunk.
Variable Date_parse : string -> option Z.
(** [Date.now()] while the report at a given index is scored. *)
Variable now : nat -> Z.
Variable localeCompare : string -> string -> Z.

(** The callback of [current.map], for the report at index [i]. *)
Definition annotate (facilities : list Facility) (i : nat) (r : Report)
    : Completion Report :=
  let normNeeds := normalizeNeeds (needs r) in
  let risk :=
    computeRiskScore Date_parse (now i) (severity r) normNeeds (time_iso r) in
  match suggestFacilities localeCompare normNeeds facilities 3 with
  | Throws => Throws
  | Returns sugg =>
      Returns
        {| id := id r;
           location_text := location_text r;
           time_iso := time_iso r;
           severity := severity r;
           needs := normNeeds;
           notes := notes r;
           dedupe_key := dedupe_key r;
           risk_score := Some risk;
           suggestions := Some sugg;
           confidence_overall := confidence_overall r;
           confields := confields r |}
  end.

(** [current.map(...)] from index [i] on: the first call that throws
    ends it. *)
Fixpoint annotateFrom (facilities : list Facility) (i : nat)
    (current : list Report) : Completion (list Report) :=
  match current with
  | [] => Returns []
  | r :: rest =>
      match annotate facilities i r with
      | Throws => Throws
      | Returns r' =>
          match annotateFrom facilities (S i) rest with
          | Throws => Throws
          | Returns rest' => Returns (r' :: rest')
          end
      end
  end.

(** The payload [items] of the thunk, for the facilities of the
    knowledge slice and the items of the state. *)
Definition annotateReports (facilities : list Facility)
    (state : ReportsState) : Completion (list Report) :=
  annotateFrom facilities 0 (items state).
End Thunk.

(** ** The reducers *)

Definition clearReports (state : ReportsState) : ReportsState :=
  {| items := []; status := idle; error := None |}.

(** [l.findIndex(p)], [None] for -1. *)
Fixpoint findIndex {A : Type} (p : A -> bool) (l : list A) : option nat :=
  match l with
  | [] => None
  | x :: r => if p x then Some O else option_map S (findIndex p r)
  end.

(** [l[i] = x] for an index of [l]; [findIndex] returns no other. *)
Fixpoint assign {A : Type} (l : list A) (i : nat) (x : A) : list A :=
  match l, i with
  | [], _ => []
  | _ :: r, O => x :: r
  | y :: r, S i' => y :: assign r i' x
  end.

Definition upsertReport (state : ReportsState) (payload : Report)
    : ReportsState :=
  match findIndex (fun r => (id r =? id payload)%string) (items state) with
  | Some idx =>
      {| items := assign (items state) idx payload;
         status := status state;
         error := error state |}
  | None =>
      {| items := items state ++ [payload];
         status := status state;
         error := error state |}
  end.

Definition removeReport (state : ReportsState) (payload : string)
    : ReportsState :=
  {| items := filter (fun r => negb (id r =? payload)%string) (items state);
     status := status state;
     error := error state |}.

(** [Array.from(byId.values())] after the reports of the state and then
    the incoming ones were set in [byId]. *)
Definition mergeById (items incoming : list Report) : list Report :=
  let byId := fold_left (fun m r => JsMap.set (id r) r m) items [] in
  let byId := fold_left (fun m r => JsMap.set (id r) r m) incoming byId in
  map snd byId.

Definition pending (state : ReportsState) : ReportsState :=
  {| items := items state; status := loading; error := None |}.

Definition fulfilled (state : ReportsState) (reports : list Report)
    : ReportsState :=
  {| items := mergeById (items state) reports;
     status := succeeded;
     error := error state |}.

(** [action.error.message || fallback]. *)
Definition rejected (fallback : string) (state : ReportsState)
    (message : option string) : ReportsState :=
  {| items := items state;
     status := failed;
     error := Some match message with
                   | Some m => if isEmpty m then fallback else m
                   | None => fallback
                   end |}.

Definition annotated (state : ReportsState) (updated : list Report)
    : ReportsState :=
  {| items := mergeById (items state) updated;
     status := status state;
     error := error state |}.

(** The actions the slice handles. *)
Inductive Action :=
| ClearReports
| UpsertReport (payload : Report)
| RemoveReport (payload : string)
| ExtractPending
| ExtractFulfilled (reports : list Report)
| ExtractRejected (message : option string)
| EnsemblePending
| EnsembleFulfilled (reports : list Report)
| EnsembleRejected (message : option string)
| AnnotateFulfilled (items : list Report).

Definition reducer (state : ReportsState) (action : Action) : ReportsState :=
  match action with
  | ClearReports => clearReports state
  | UpsertReport payload => upsertReport state payload
  | RemoveReport payload => removeReport state payload
  | ExtractPending => pending state
  | ExtractFulfilled reports => fulfilled state reports
  | ExtractRejected message => rejected "Extraction failed" state message
  | EnsemblePending => pending state
  | EnsembleFulfilled reports => fulfilled state reports
  | EnsembleRejected message =>
      rejected "Ensemble extraction failed" state message
  | AnnotateFulfilled items => annotated state items
  end.
End ReportsSlice.

(* ================================================================== *)
(** * src/app/api/extract/route.ts *)
(* ================================================================== *)

(** The route of the single call.  Its salvage helpers are those of the
    ensemble route, word for word, under the names of [Salvage]. *)
Module Extract.
Import JsString Json Salvage.

(** One report of the answer.  The handler copies what the model wrote:
    a property that is missing or null is [JNull], any other value stands
    as it is. *)
Record ExtractedReport := {
  id : string;
  location_text : value;
  time_iso : value;
  severity : option Severity;
  needs : list value;
  dedupe_key : value;
  notes : value
}.

(** [rep?.k ?? null]: none of the names read is a member of a prototype,
    so only an object has the property. *)
Definition property (k : string) (rep : value) : value :=
  match rep with
  | JObject m =>
      match get k m with
      | Some v => v
      | None => JNull
      end
  | _ => JNull
  end.

(** The check [["low", "moderate", "high", "critical"].includes(...)]. *)
Definition severityOf (rep : value) : option Severity :=
  match property "severity" rep with
  | JString s => Ensemble.knownSeverity (Some s)
  | _ => None
  end.

(** [Array.isArray(rep?.needs) ? rep.needs : []]. *)
Definition needsOf (rep : value) : list value :=
  match property "needs" rep with
  | JArray l => l
  | _ => []
  end.

Inductive Outcome :=
| Reports (reports : list ExtractedReport)   (* status 200, [{ reports }] *)
| Failure (status : Z) (error : string).     (* [{ error }] *)

Record Body := {
  text : option string;
  model : option string
}.

Section Handler.
(** The identifier drawn for the [i]-th report. *)
Variable randomUUID : nat -> string.
(** [String(e?.message || e)] for what [fetch] or [r.json()] throws. *)
Variable thrown : string.

(** The callback of [core.reports.map], from index [i] on. *)
Fixpoint toReports (i : nat) (reps : list value) : list ExtractedReport :=
  match reps with
  | [] => []
  | rep :: rest =>
      {| id := randomUUID i;
         location_text := property "location_text" rep;
         time_iso := property "time_iso" rep;
         severity := severityOf rep;
         needs := needsOf rep;
         dedupe_key := property "dedupe_key" rep;
         notes := property "notes" rep |}
      :: toReports (S i) rest
  end.

(** The handler, for the body of the request and the reply of the
    generation service to the one call.  The model named by the body only
    goes into the call. *)
Definition POST (body : option Body) (reply : Ensemble.Attempt) : Outcome :=
  let text :=
    match body with
    | Some b =>
        match text b with
        | Some x => trim x
        | None => ""
        end
    | None => ""
    end in
  if isEmpty text
  then Failure 400 ("Missing " ++ quote ++ "text" ++ quote)
  else
    match reply with
    | Ensemble.Rejected => Failure 500 thrown
    | Ensemble.NotOk status err =>
        Failure 503 ("Ollama error: " ++ ofZ status ++ " " ++ err)
    | Ensemble.Replied response =>
        let raw := trim (match response with Some x => x | None => "" end) in
        match parseModelJson raw with
        | Throws => Failure 500 "Model did not return valid JSON"
        | Returns reports => Reports (toReports O reports)
        end
    end.
End Handler.
End Extract.

(* ================================================================== *)
(** * The specification's notions *)
(* ================================================================== *)

(** Apostrophes for quotes and tildes for line feeds, to write texts. *)
Fixpoint lit (s : string) : string :=
  match s with
  | EmptyString => EmptyString
  | String c r =>
      String (if Ascii.eqb c "'" then ascii_of_N 34
              else if Ascii.eqb c "~" then ascii_of_N 10
              else c) (lit r)
  end.

Module NeedSpec.
Import JsString Risk.

(** The canonical token of one phrase, none for a blank phrase. *)
Definition tokenOf (raw : string) : list string :=
  let n := trim (toLowerCase raw) in
  if isEmpty n then [] else [canonical n].

(** Duplicates collapse to their first occurrence. *)
Fixpoint keepFirst (l : list string) : list string :=
  match l with
  | [] => []
  | x :: r => x :: filter (fun y => negb (y =? x)%string) (keepFirst r)
  end.
End NeedSpec.

Module RiskSpec.
Import Risk.

(** A weight of the table: a number between 0 and 25. *)
Definition smallWeight (w : Weight) : Prop :=
  exists x, w = WNum x /\ 0 <= x <= 25.

(** The factors of the time decay. *)
Definition factors : list (option JsNumber.number) :=
  [None; Some (JsNumber.tenths 7); Some (JsNumber.tenths 8);
   Some (JsNumber.tenths 9)].

(** The last steps of [computeRiskScore] on a numeric sum. *)
Definition scaledScore (s : Z) (f : option JsNumber.number)
    : JsNumber.number :=
  JsNumber.Math_max (JsNumber.ofZ 0)
    (JsNumber.Math_min (JsNumber.ofZ 100)
       (JsNumber.Math_round
          match f with
          | Some f => JsNumber.mul (JsNumber.ofZ s) f
          | None => JsNumber.ofZ s
          end)).
End RiskSpec.

Module FacilitySpec.
Import Risk.

(** The desired types and capability tags of a list of needs, as the
    loop of [suggestFacilities] gathers them. *)
Definition desired (needs : list string)
    : Completion (list FacilityType * list string) :=
  fold_left desire (normalizeNeeds needs) (Returns ([], [])).

(** [a] is ranked no later than [b]: a higher score, or the same score
    and a name that does not compare after. *)
Definition ranks (localeCompare : string -> string -> Z)
    (score : Facility -> Z) (a b : Facility) : Prop :=
  score b < score a
  \/ (score b = score a /\ localeCompare (name a) (name b) <= 0).

(** The capability tags desired for the need medical. *)
Definition medicalCaps : list string :=
  ["er"; "trauma"; "icu"; "pediatric"; "surgery"; "helipad"].

Definition generalHospital : Facility :=
  {| id := "h1"; type := hospital; name := "General Hospital";
     address := None; phone := None; notes := None;
     capabilities := Some ["er"] |}.

Definition eastShelter : Facility :=
  {| id := "s1"; type := shelter; name := "East Shelter";
     address := None; phone := None; notes := None;
     capabilities := Some ["kitchen"] |}.
End FacilitySpec.

Module SalvageSpec.
Import Json Salvage.

Definition optional (o : option string) : list string :=
  match o with
  | Some x => [x]
  | None => []
  end.

(** The texts the specification tries, in its order: the raw text, the
    text without its fences, the text between the tags, the balanced
    span. *)
Definition attempts (raw : string) : list string :=
  ([raw; stripCodeFences raw]
   ++ optional (betweenTags raw "<json>" "</json>")
   ++ optional (extractBalancedJson raw))%list.



Definition pineStreet : string :=
  lit "Here is the data:~```json~{'reports':[{'location_text':'Pine St','severity':'high','needs':['medical']}]}~```".
End SalvageSpec.

Module ConsensusSpec.
Import JsString.

(** The need tokens of one candidate: its phrases lower-cased and
    trimmed, the blank ones left out. *)
Definition tokensOf (phrases : list string) : list string :=
  filter (fun key => negb (isEmpty key))
    (map (fun n => trim (toLowerCase n)) phrases).

(** The number of candidates of a bucket in whose needs [t] appears. *)
Definition candidatesWith (t : string) (allNeeds : list (list string)) : Z :=
  Z.of_nat
    (List.length (filter (fun l => JsSet.has t (tokensOf l)) allNeeds)).

(** What one phrase adds to the count of [t]. *)
Definition occurs (t n : string) : Z :=
  let key := trim (toLowerCase n) in
  if negb (isEmpty key) && (t =? key)%string then 1 else 0.
End ConsensusSpec.

Module HandlerSpec.
Import JsString Json Salvage Ensemble.

(** The trimmed response text of an attempt that got a reply. *)
Definition content (a : Attempt) : option string :=
  match a with
  | Replied response =>
      Some (trim (match response with Some x => x | None => "" end))
  | _ => None
  end.

(** The attempt returned some response text. *)
Definition responded (a : Attempt) : bool :=
  match content a with
  | Some c => negb (isEmpty c)
  | None => false
  end.

(** The parsed run of an attempt whose text was salvaged. *)
Definition salvagedRun (a : Attempt) : option (list value) :=
  match content a with
  | Some c =>
      if isEmpty c then None
      else match parseModelJson c with
           | Returns run => Some run
           | Throws => None
           end
  | None => None
  end.

Definition salvaged (a : Attempt) : bool :=
  match salvagedRun a with Some _ => true | None => false end.

(** The generation service answered the call with a 2xx reply. *)
Definition isReply (a : Attempt) : bool :=
  match a with Replied _ => true | _ => false end.

(** The attempts [i], ..., [i + n - 1]. *)
Fixpoint attemptsFrom (gen : nat -> Attempt) (i n : nat) : list Attempt :=
  match n with
  | O => []
  | S n' => gen i :: attemptsFrom gen (S i) n'
  end.

Definition countIf (p : Attempt -> bool) (l : list Attempt) : Z :=
  Z.of_nat (List.length (filter p l)).

(** The runs of the attempts that were salvaged, in order. *)
Fixpoint salvagedRuns (l : list Attempt) : list (list value) :=
  match l with
  | [] => []
  | a :: r =>
      match salvagedRun a with
      | Some run => run :: salvagedRuns r
      | None => salvagedRuns r
      end
  end.

(** A merged report with its identifier blanked. *)
Definition withoutId (r : Merged.t) : Merged.t :=
  {| Merged.id := "";
     Merged.location_text := Merged.location_text r;
     Merged.time_iso := Merged.time_iso r;
     Merged.severity := Merged.severity r;
     Merged.needs := Merged.needs r;
     Merged.notes := Merged.notes r;
     Merged.dedupe_key := Merged.dedupe_key r;
     Merged.confidence_overall := Merged.confidence_overall r;
     Merged.confields_location_text := Merged.confields_location_text r;
     Merged.confields_time_iso := Merged.confields_time_iso r;
     Merged.confields_severity := Merged.confields_severity r;
     Merged.confields_needs := Merged.confields_needs r |}.

Definition withoutIds (out : Outcome) : Outcome :=
  match out with
  | Reports reports => Reports (map withoutId reports)
  | other => other
  end.

(** ** A sample environment and sample replies *)

Definition base : string := "http://127.0.0.1:11434".
Definition noDate : string -> option Z := fun _ => None.
Definition uuid (i : nat) : string := "uuid-" ++ ofZ (Z.of_nat i).
Definition incident : string := "Tree down on Pine St, one person hurt".
Definition request (n : Z) : option Body :=
  Some {| Ensemble.text := Some incident;
          samples := Some (JsNumber.ofZ n) |}.

Definition pineReport : string :=
  lit "{'location_text':'Pine St','time_iso':null,'severity':'high','needs':['medical']}".
Definition oneReport : string := lit "{'reports':[" ++ pineReport ++ "]}".
Definition twoReports : string :=
  lit "{'reports':[" ++ pineReport ++ "," ++ pineReport ++ "]}".

(** A reply that is not JSON, then a reply that is. *)
Definition proseThenJson (i : nat) : Attempt :=
  match i with
  | O => Replied (Some "Sorry, I cannot help with that.")
  | _ => Replied (Some oneReport)
  end.


(** One reply with the same incident twice, then no text. *)
Definition duplicateThenSilent (i : nat) : Attempt :=
  match i with
  | O => Replied (Some twoReports)
  | _ => Replied (Some "  ")
  end.

(** Three candidates that one explicit key puts in one bucket. *)
Definition threeCandidates : Bucket :=
  {| locs := [Some "Pine St"; Some "Pine St"; Some "pine st"];
     times := [None; None; None];
     sevs := [Some high; Some high; Some moderate];
     needs_ := [["Medical"]; ["medical "; "water"]; ["food"]];
     notes_ := [None; None; None];
     dedupe_keys := [Some "pine-1"; Some "pine-1"; Some "Pine-1"] |}.
End HandlerSpec.

Module TextSpec.
Import JsString Salvage.

(** Every code unit of a text passes a test. *)
Fixpoint every (p : ascii -> bool) (s : string) : bool :=
  match s with
  | EmptyString => true
  | String c r => p c && every p r
  end.

(** A text of white space only. *)
Definition allWs (s : string) : bool := every isWs s.

(** The last code unit of a word is no white space. *)
Fixpoint endsSolid (p : string) : bool :=
  match p with
  | EmptyString => false
  | String a EmptyString => negb (isWs a)
  | String _ r => endsSolid r
  end.

(** A text without a backtick. *)
Definition noTick (s : string) : bool :=
  every (fun c => negb (Ascii.eqb c "`")) s.


(** Every [\u] of a text is followed by [00]: the escapes of the text
    write code units below 256, which a [string] here can hold. *)
Fixpoint narrowEscapes (s : string) : bool :=
  match s with
  | EmptyString => true
  | String _ r =>
      (if startsWith "\u" s then startsWith "\u00" s else true)
      && narrowEscapes r
  end.
End TextSpec.

Module SpanSpec.
Import JsString Json Salvage SalvageSpec.








End SpanSpec.

Module ReplySpec.
Import JsString Json Salvage Ensemble HandlerSpec TextSpec.

(** The escapes of the text of a reply write code units below 256. *)
Definition narrowReply (a : Attempt) : bool :=
  match a with
  | Replied (Some x) => narrowEscapes x
  | _ => true
  end.

End ReplySpec.

Module ScoreSpec.
Import JsString Risk.

(** Two numbers are the same value, bit for bit. *)
Definition sameNumber (x y : JsNumber.number) : bool :=
  match x, y with
  | S754_zero a, S754_zero b => Bool.eqb a b
  | S754_infinity a, S754_infinity b => Bool.eqb a b
  | S754_nan, S754_nan => true
  | S754_finite a m e, S754_finite b m' e' =>
      Bool.eqb a b && Pos.eqb m m' && (e =? e')
  | _, _ => false
  end.

(** The integers from 0 to [n - 1]. *)
Definition upto (n : nat) : list Z := map Z.of_nat (seq 0 n).

(** The weight of a severity, 0 for none. *)
Definition severityWeight (severity : option Severity) : Z :=
  match severity with
  | Some s => SEVERITY_WEIGHT s
  | None => 0
  end.

(** No need is named after a member of [Object.prototype]. *)
Definition plainNeeds (needs : list string) : bool :=
  forallb (fun n => negb (prototypeKey n)) (normalizeNeeds needs).

(** A phrase that is empty once lower-cased and trimmed. *)
Definition blank (raw : string) : bool := isEmpty (trim (toLowerCase raw)).

(** The facility carries a capability tag that is desired. *)
Definition hasDesiredCap (desiredCaps : list string) (f : Facility) : bool :=
  existsb (fun c => JsSet.has (toLowerCase c) desiredCaps)
    match capabilities f with Some cs => cs | None => [] end.

(** The weight of a need in [NEED_WEIGHT], 0 for a need it does not list. *)
Definition needWeight (n : string) : Z :=
  match NEED_WEIGHT n with
  | Own w => w
  | _ => 0
  end.

(** The two largest weights of the normalized needs, added up. *)
Definition topTwo (needs : list string) : Z :=
  fold_left Z.add
    (firstn 2
       (JsArray.sort (fun a b => b - a)
          (map needWeight (normalizeNeeds needs)))) 0.

(** The options of a severity. *)
Definition severities : list (option Severity) :=
  [None; Some low; Some moderate; Some high; Some critical].

(** The pairs of decay factors of one report at a later and at an earlier
    reading of the clock. *)
Definition agedPairs
    : list (option JsNumber.number * option JsNumber.number) :=
  let f7 := Some (JsNumber.tenths 7) in
  let f8 := Some (JsNumber.tenths 8) in
  let f9 := Some (JsNumber.tenths 9) in
  [(None, None); (f9, None); (f8, None); (f7, None);
   (f9, f9); (f8, f9); (f7, f9); (f8, f8); (f7, f8); (f7, f7)].

(** No table lists the need. *)
Definition unlisted (n : string) : bool :=
  match NEED_TO_FACILITY n, NEED_TO_CAPS n with
  | Absent, Absent => true
  | _, _ => false
  end.
End ScoreSpec.

Module VoteSpec.
Import JsString Ensemble ConsensusSpec.

(** The number of entries of [arr] that [majority] files under [key]. *)
Definition votes {T : Type} (stringify : option T -> string) (key : string)
    (arr : list (option T)) : Z :=
  Z.of_nat
    (List.length (filter (fun v => (stringify v =? key)%string) arr)).

(** What the loop of [majority] keeps true of the entries read so far. *)
Definition tallied {T : Type} (stringify : option T -> string)
    (p : list (option T))
    (st : list (string * Z) * (option T * Z)) : Prop :=
  (forall key, JsMap.count key (fst st) = votes stringify key p)
  /\ (forall key, votes stringify key p <= snd (snd st))
  /\ ((p = [] /\ snd st = (None, 0))
      \/ exists p1 q1,
           p = (p1 ++ fst (snd st) :: q1)%list
           /\ votes stringify (stringify (fst (snd st)))
                (p1 ++ [fst (snd st)]) = snd (snd st)
           /\ forall key, votes stringify key p1 < snd (snd st)).

(** Two texts, or null twice, are the same. *)
Definition sameText (a b : option string) : bool :=
  match a, b with
  | Some x, Some y => (x =? y)%string
  | None, None => true
  | _, _ => false
  end.

(** The need tokens of the candidates of a bucket, in order. *)
Definition allTokens (allNeeds : list (list string)) : list string :=
  flat_map tokensOf allNeeds.

(** How often the candidates of a bucket name a token. *)
Definition mentions (t : string) (allNeeds : list (list string)) : Z :=
  Z.of_nat (List.length (filter (String.eqb t) (allTokens allNeeds))).
End VoteSpec.

Module MergeSpec.
Import JsString Json Ensemble.

(** The reports of a list of parsed values, read at the declared type;
    none when one of them is outside it. *)
Fixpoint decodeAll (vs : list value) : option (list ExtractedReport) :=
  match vs with
  | [] => Some []
  | v :: r =>
      match decodeReport v, decodeAll r with
      | Some rep, Some reps => Some (rep :: reps)
      | _, _ => None
      end
  end.

(** The reports of the runs, in the order of the runs. *)
Definition reportsOf (runs : list (list value))
    : option (list ExtractedReport) :=
  decodeAll (List.concat runs).

Section Groups.
Variable Date_parse : string -> option Z.

(** The reports with a given key, in order. *)
Definition group (key : string) (reps : list ExtractedReport)
    : list ExtractedReport :=
  filter (fun rep => (makeKey Date_parse rep =? key)%string) reps.

(** The bucket that holds the reports with a given key. *)
Definition bucketOf (key : string) (reps : list ExtractedReport) : Bucket :=
  fold_left pushReport (group key reps) emptyBucket.

(** The keys of the reports, each once, in order of first appearance. *)
Definition keysOf (reps : list ExtractedReport) : list string :=
  NeedSpec.keepFirst (map (makeKey Date_parse) reps).
End Groups.

(** A run lists no incident twice: its reports have different keys. *)
Definition listsEachOnce (Date_parse : string -> option Z)
    (run : list value) : Prop :=
  forall reps, decodeAll run = Some reps ->
               NoDup (map (makeKey Date_parse) reps).

(** The need tokens of a report. *)
Definition tokensOfReport (rep : ExtractedReport) : list string :=
  match needs rep with
  | Some ns => ConsensusSpec.tokensOf ns
  | None => []
  end.
End MergeSpec.

Module NumberSpec.

(** A number that is +0, positive and finite, or +infinity. *)
Definition nonNegative (x : JsNumber.number) : bool :=
  match x with
  | S754_zero false | S754_infinity false | S754_finite false _ _ => true
  | _ => false
  end.

(** A number that is +0 or positive and finite. *)
Definition finiteNonNegative (x : JsNumber.number) : bool :=
  match x with
  | S754_zero false | S754_finite false _ _ => true
  | _ => false
  end.

(** A number that is positive and finite. *)
Definition finitePositive (x : JsNumber.number) : bool :=
  match x with
  | S754_finite false _ _ => true
  | _ => false
  end.
(** A confidence that is above 0 and at most 1. *)
Definition positiveShare (x : JsNumber.number) : Prop :=
  SFltb (JsNumber.ofZ 0) x = true /\ SFleb x (JsNumber.ofZ 1) = true.

End NumberSpec.

Module ShareSpec.
Import JsString Json Ensemble VoteSpec MergeSpec NeedSpec.

(** The needs a report brings to its bucket. *)
Definition phrasesOf (rep : ExtractedReport) : list string :=
  match needs rep with
  | Some ns => ns
  | None => []
  end.

(** [count] votes out of [k] runs, to three decimals. *)
Definition share (count k : Z) : JsNumber.number :=
  JsNumber.toFixed3 (JsNumber.div (JsNumber.ofZ count) (JsNumber.ofZ k)).

(** How often the candidates name the tokens of [chosen], all told. *)
Definition named (chosen : list string) (allNeeds : list (list string)) : Z :=
  fold_left (fun acc t => acc + mentions t allNeeds) chosen 0.

(** The mentions of the chosen tokens per run and per token, capped at 1;
    0 when no token is named. *)
Definition needsShare (chosen : list string) (allNeeds : list (list string))
    (k : Z) : JsNumber.number :=
  match allTokens allNeeds with
  | [] => JsNumber.ofZ 0
  | _ =>
      JsNumber.Math_min (JsNumber.ofZ 1)
        (JsNumber.div (JsNumber.ofZ (named chosen allNeeds))
           (JsNumber.ofZ (k * Z.max 1 (Z.of_nat (List.length chosen)))))
  end.
End ShareSpec.

Module OrderSpec.
Import JsString Json Ensemble VoteSpec MergeSpec NeedSpec.

(** [v] is the entry of [arr] whose votes are the first to reach the
    greatest number of votes of an entry. *)
Definition firstToMost {T : Type} (stringify : option T -> string)
    (v : option T) (arr : list (option T)) : Prop :=
  exists before after,
    arr = (before ++ v :: after)%list
    /\ (forall key,
          votes stringify key arr
          <= votes stringify (stringify v) (before ++ [v]))
    /\ (forall key,
          votes stringify key before
          < votes stringify (stringify v) (before ++ [v])).

(** [a] stands before [b] in [l]. *)
Definition earlier {A : Type} (l : list A) (a b : A) : Prop :=
  exists l1 l2, l = (l1 ++ a :: l2)%list /\ In b l2.

(** [a] is named more often than [b], or as often and first. *)
Definition outranks (allNeeds : list (list string)) (a b : string) : Prop :=
  mentions b allNeeds < mentions a allNeeds
  \/ (mentions a allNeeds = mentions b allNeeds
      /\ earlier (keepFirst (allTokens allNeeds)) a b).

(** The tokens of a bucket from the most named to the least, those named
    equally often in the order of their first mention. *)
Definition ranking (allNeeds : list (list string)) (l : list string) : Prop :=
  Permutation l (keepFirst (allTokens allNeeds))
  /\ StronglySorted (outranks allNeeds) l.

(** The tokens named at least [ceil(k / 2)] times, in the order of the
    ranking; the first three of the ranking when there is none. *)
Definition consensusOf (allNeeds : list (list string)) (k : Z)
    (rank : list string) : list string :=
  match filter (fun t => (k + 1) / 2 <=? mentions t allNeeds) rank with
  | [] => firstn 3 rank
  | passing => passing
  end.
End OrderSpec.

Module SliceSpec.
Import ReportsSlice.

(** The last report of a list with a given id. *)
Definition latest (i : string) (l : list Report) : option Report :=
  find (fun r => (id r =? i)%string) (rev l).

(** The ids of the reports, each once, in order of first appearance. *)
Definition idsOf (l : list Report) : list string :=
  NeedSpec.keepFirst (map id l).

(** A report as an extraction returns it. *)
Definition extracted (i : string) (phrases : list string) : Report :=
  {| id := i; location_text := Some "Pine St"; time_iso := None;
     severity := Some high; needs := phrases; notes := None;
     dedupe_key := None; risk_score := None; suggestions := None;
     confidence_overall := None; confields := None |}.

(** A state with two reports. *)
Definition twoItems : ReportsState :=
  {| items := [extracted "a" ["Medic needed"; "medical"]; extracted "b" []];
     status := succeeded; error := None |}.

(** The state after the actions, from the initial state. *)
Definition after (actions : list Action) : ReportsState :=
  fold_left reducer actions initialState.

Section ReRank.
Variable Date_parse : string -> option Z.
Variable now : nat -> Z.
Variable localeCompare : string -> string -> Z.

(** Dispatching [annotateReports]: the fulfilled action reaches the
    reducer; a rejected one is handled by no case. *)
Definition reRank (facilities : list Risk.Facility) (state : ReportsState)
    : ReportsState :=
  match annotateReports Date_parse now localeCompare facilities state with
  | Returns items => reducer state (AnnotateFulfilled items)
  | Throws => state
  end.
End ReRank.
End SliceSpec.

(* ================================================================== *)
(** * Properties *)
(* ================================================================== *)

Import JsString JsArray Json Salvage Risk Ensemble.
Import NeedSpec RiskSpec FacilitySpec SalvageSpec ConsensusSpec HandlerSpec.

(** Case analysis on every test of a chain of conditionals. *)
Ltac case_ifs :=
  repeat match goal with
         | |- context [if ?b then _ else _] => destruct b
         end.

(** ** Lower-casing and trimming *)

Lemma isWs_lowerChar c : isWs (lowerChar c) = isWs c.
Proof. destruct c as [[] [] [] [] [] [] [] []]; reflexivity. Qed.

Lemma lowerChar_idem c : lowerChar (lowerChar c) = lowerChar c.
Proof. destruct c as [[] [] [] [] [] [] [] []]; reflexivity. Qed.

Lemma toLowerCase_idem s : toLowerCase (toLowerCase s) = toLowerCase s.
Proof. induction s; simpl; [reflexivity|]. now rewrite lowerChar_idem, IHs. Qed.

Lemma toLowerCase_trimStart s :
  toLowerCase (trimStart s) = trimStart (toLowerCase s).
Proof.
  induction s as [|c r IH]; simpl; [reflexivity|].
  rewrite isWs_lowerChar. destruct (isWs c); [exact IH | reflexivity].
Qed.

Lemma toLowerCase_trimEnd s :
  toLowerCase (trimEnd s) = trimEnd (toLowerCase s).
Proof.
  induction s as [|c r IH]; simpl; [reflexivity|].
  rewrite <- IH, isWs_lowerChar.
  destruct (trimEnd r); simpl; [destruct (isWs c); reflexivity | reflexivity].
Qed.

Lemma toLowerCase_trim s : toLowerCase (trim s) = trim (toLowerCase s).
Proof. unfold trim. now rewrite toLowerCase_trimEnd, toLowerCase_trimStart. Qed.

Lemma trimEnd_cons c r :
  trimEnd (String c r) =
  match trimEnd r with
  | EmptyString => if isWs c then EmptyString else String c EmptyString
  | r' => String c r'
  end.
Proof. reflexivity. Qed.

Lemma trimEnd_idem s : trimEnd (trimEnd s) = trimEnd s.
Proof.
  induction s as [|c r IH]; [reflexivity|].
  rewrite trimEnd_cons.
  destruct (trimEnd r) as [|c' r'] eqn:E.
  - destruct (isWs c) eqn:W; [reflexivity|].
    rewrite trimEnd_cons. simpl. now rewrite W.
  - rewrite trimEnd_cons, IH. reflexivity.
Qed.

Lemma trimStart_shape s :
  trimStart s = "" \/ exists c r, trimStart s = String c r /\ isWs c = false.
Proof.
  induction s as [|c r IH]; simpl; [now left|].
  destruct (isWs c) eqn:W; [exact IH | right; eauto].
Qed.

Lemma trimEnd_head c r :
  isWs c = false -> exists r', trimEnd (String c r) = String c r'.
Proof.
  intros W. rewrite trimEnd_cons. destruct (trimEnd r); [rewrite W|]; eauto.
Qed.

Lemma trim_idem s : trim (trim s) = trim s.
Proof.
  unfold trim.
  destruct (trimStart_shape s) as [-> | (c & r & -> & W)]; [reflexivity|].
  destruct (trimEnd_head c r W) as [r' E]. rewrite E at 1.
  simpl trimStart. rewrite W, <- E. apply trimEnd_idem.
Qed.

Lemma normal_fixed raw :
  trim (toLowerCase (trim (toLowerCase raw))) = trim (toLowerCase raw).
Proof. now rewrite toLowerCase_trim, toLowerCase_idem, trim_idem. Qed.

(** ** Sets in insertion order *)

Lemma has_app x s t : JsSet.has x (s ++ t) = JsSet.has x s || JsSet.has x t.
Proof. unfold JsSet.has. apply existsb_app. Qed.

Lemma filter_filter_drop (p : string -> bool) x l :
  p x = false ->
  filter p (filter (fun y => negb (y =? x)%string) l) = filter p l.
Proof.
  intros Hp. induction l as [|y r IH]; simpl; [reflexivity|].
  destruct (String.eqb_spec y x) as [->|N]; simpl.
  - now rewrite Hp.
  - destruct (p y); simpl; now rewrite IH.
Qed.

Lemma filter_has_snoc acc x l :
  filter (fun y => negb (JsSet.has y (acc ++ [x]))) l =
  filter (fun y => negb (JsSet.has y acc))
    (filter (fun y => negb (y =? x)%string) l).
Proof.
  induction l as [|y t IH]; simpl; [reflexivity|].
  rewrite has_app. unfold JsSet.has at 2. simpl. rewrite orb_false_r.
  destruct (String.eqb_spec y x) as [->|N]; simpl.
  - rewrite orb_true_r. exact IH.
  - rewrite orb_false_r. destruct (JsSet.has y acc); simpl; now rewrite IH.
Qed.

Lemma fold_add_keepFirst l : forall acc,
  fold_left JsSet.add l acc =
  (acc ++ filter (fun y => negb (JsSet.has y acc)) (keepFirst l))%list.
Proof.
  induction l as [|x r IH]; intros acc; simpl.
  - now rewrite app_nil_r.
  - rewrite IH. unfold JsSet.add at 1 2.
    destruct (JsSet.has x acc) eqn:Hx; simpl.
    + f_equal. symmetry. apply filter_filter_drop. now rewrite Hx.
    + rewrite <- app_assoc. simpl. do 2 f_equal. apply filter_has_snoc.
Qed.

Lemma ofList_keepFirst l : JsSet.ofList l = keepFirst l.
Proof.
  unfold JsSet.ofList. rewrite fold_add_keepFirst. simpl.
  induction (keepFirst l); simpl; congruence.
Qed.

Lemma keepFirst_incl l x : In x (keepFirst l) <-> In x l.
Proof.
  induction l as [|y r IH]; simpl; [tauto|].
  rewrite filter_In, IH. split.
  - intros [H | [H _]]; auto.
  - intros [H | H]; auto. destruct (String.eqb_spec x y) as [->|N]; auto.
Qed.

Lemma keepFirst_NoDup l : NoDup (keepFirst l).
Proof.
  induction l as [|y r IH]; simpl; constructor.
  - rewrite filter_In. intros [_ H]. now rewrite String.eqb_refl in H.
  - now apply NoDup_filter.
Qed.

Lemma keepFirst_fixed l : NoDup l -> keepFirst l = l.
Proof.
  induction 1 as [|x r Hx Hr IH]; simpl; [reflexivity|].
  rewrite IH. f_equal. apply forallb_filter_id. apply forallb_forall.
  intros y Hy.
  destruct (String.eqb_spec y x) as [->|N]; [contradiction | reflexivity].
Qed.

(** ** normalizeNeeds *)

Lemma fold_pushCanon xs : forall acc,
  fold_left pushCanon xs acc = (acc ++ flat_map tokenOf xs)%list.
Proof.
  induction xs as [|x r IH]; intros acc; simpl.
  - now rewrite app_nil_r.
  - rewrite IH. unfold pushCanon, tokenOf.
    destruct (isEmpty (trim (toLowerCase x))); simpl; [reflexivity|].
    now rewrite <- app_assoc.
Qed.

Lemma normalizeNeeds_keepFirst xs :
  normalizeNeeds xs = keepFirst (flat_map tokenOf xs).
Proof. unfold normalizeNeeds. now rewrite fold_pushCanon, ofList_keepFirst. Qed.

(** A canonical token is read as itself: every name of the vocabulary
    passes the chain of tests to its own branch, and a phrase that passed
    through passes through again. *)
Lemma canonical_fixed n :
  trim (toLowerCase n) = n -> isEmpty n = false ->
  trim (toLowerCase (canonical n)) = canonical n
  /\ isEmpty (canonical n) = false
  /\ canonical (canonical n) = canonical n.
Proof.
  intros Hn He. remember (canonical n) as c eqn:Hc. unfold canonical in Hc.
  repeat match type of Hc with
  | context [if test ?ps n then _ else _] =>
      destruct (test ps n) eqn:?; [subst c; repeat split; reflexivity|]
  end.
  subst c. repeat split; auto.
  unfold canonical.
  repeat match goal with
  | H : test ?ps n = false |- _ => rewrite H; clear H
  end. reflexivity.
Qed.

Lemma tokenOf_token raw c : In c (tokenOf raw) -> tokenOf c = [c].
Proof.
  unfold tokenOf at 1.
  destruct (isEmpty (trim (toLowerCase raw))) eqn:E; simpl; [tauto|].
  intros [<- | []].
  destruct (canonical_fixed _ (normal_fixed raw) E) as (H1 & H2 & H3).
  unfold tokenOf. now rewrite H1, H2, H3.
Qed.

Lemma flat_map_fixed l :
  (forall c, In c l -> tokenOf c = [c]) -> flat_map tokenOf l = l.
Proof.
  induction l as [|c r IH]; simpl; intros H; [reflexivity|].
  rewrite (H c) by auto. simpl. f_equal. apply IH. auto.
Qed.

Lemma normalizeNeeds_idem xs :
  normalizeNeeds (normalizeNeeds xs) = normalizeNeeds xs.
Proof.
  rewrite (normalizeNeeds_keepFirst (normalizeNeeds xs)).
  rewrite flat_map_fixed.
  - rewrite normalizeNeeds_keepFirst. apply keepFirst_fixed, keepFirst_NoDup.
  - intros c Hc. rewrite normalizeNeeds_keepFirst, keepFirst_incl in Hc.
    apply in_flat_map in Hc. destruct Hc as (raw & _ & Hc).
    eapply tokenOf_token; eauto.
Qed.

(** C6.  [normalizeNeeds] is idempotent, in contents and in order; its
    result is the list of the canonical tokens of the phrases with every
    duplicate collapsed to its first occurrence, and so has no duplicate. *)
Theorem normalizeNeeds_idempotent : forall xs : list string,
  normalizeNeeds (normalizeNeeds xs) = normalizeNeeds xs
  /\ normalizeNeeds xs = keepFirst (flat_map tokenOf xs)
  /\ NoDup (normalizeNeeds xs).
Proof.
  intros xs. split; [apply normalizeNeeds_idem|]. split.
  - apply normalizeNeeds_keepFirst.
  - rewrite normalizeNeeds_keepFirst. apply keepFirst_NoDup.
Qed.

(** C10.  [computeRiskScore] and [suggestFacilities] give the same result
    on a list of needs and on its normal form, at the same clock and with
    the same collation: both normalize first. *)
Theorem scoring_ignores_prenormalization :
  forall Date_parse now localeCompare severity needs time_iso facilities limit,
    computeRiskScore Date_parse now severity needs time_iso
    = computeRiskScore Date_parse now severity (normalizeNeeds needs) time_iso
    /\ suggestFacilities localeCompare needs facilities limit
       = suggestFacilities localeCompare (normalizeNeeds needs)
           facilities limit.
Proof.
  intros. unfold computeRiskScore, suggestFacilities.
  now rewrite normalizeNeeds_idem.
Qed.

(** ** computeRiskScore *)

(** C8.  Severity critical, needs medical and rescue, no timestamp: the
    base is 80, the two weights are 25 and 20, the factor is the flat 0.9,
    the product 112.5 rounds to 113, and the score returned is 100. *)
Theorem risk_critical_medical_rescue_no_time : forall Date_parse now,
  SEVERITY_WEIGHT critical = 80
  /\ firstn 2 (sort byWeightDesc
                 (map weightOf (normalizeNeeds ["medical"; "rescue"])))
     = [WNum 25; WNum 20]
  /\ decay Date_parse now None = Some (JsNumber.tenths 9)
  /\ JsNumber.Math_round (JsNumber.mul (JsNumber.ofZ 125) (JsNumber.tenths 9))
     = JsNumber.ofZ 113
  /\ computeRiskScore Date_parse now (Some critical) ["medical"; "rescue"] None
     = JsNumber.ofZ 100.
Proof. intros. repeat split; vm_compute; reflexivity. Qed.

(** A need named after a member of [Object.prototype] is looked up in the
    tables as that member: the score is NaN and the matcher throws. *)
Lemma prototype_key_breaks_the_tables :
  forall Date_parse now localeCompare facilities limit,
    computeRiskScore Date_parse now None ["constructor"] None = JsNumber.NaN
    /\ suggestFacilities localeCompare ["constructor"] facilities limit
       = Throws.
Proof. intros. split; reflexivity. Qed.

(** ** Sorting *)

Section SortFacts.
Context {A : Type} (cmp : A -> A -> Z).

Lemma insert_perm x l : Permutation (insert cmp x l) (x :: l).
Proof.
  induction l as [|y r IH]; simpl; [reflexivity|].
  destruct (cmp x y <=? 0); [reflexivity|].
  rewrite IH. apply perm_swap.
Qed.

Lemma sort_perm l : Permutation (sort cmp l) l.
Proof.
  induction l as [|x r IH]; simpl; [reflexivity|].
  rewrite insert_perm. now constructor.
Qed.

Hypothesis cmp_total : forall a b, 0 < cmp a b -> cmp b a <= 0.
Hypothesis cmp_trans :
  forall a b c, cmp a b <= 0 -> cmp b c <= 0 -> cmp a c <= 0.

Lemma insert_sorted x l :
  StronglySorted (fun a b => cmp a b <= 0) l ->
  StronglySorted (fun a b => cmp a b <= 0) (insert cmp x l).
Proof.
  induction 1 as [|y r Hr IH Hy]; simpl.
  - repeat constructor.
  - destruct (Z.leb_spec (cmp x y) 0) as [Hxy | Hxy].
    + constructor; [now constructor|].
      constructor; [exact Hxy|].
      eapply Forall_impl; [|exact Hy]. intros z Hz. eauto.
    + constructor; [exact IH|].
      rewrite Forall_forall. intros z Hz.
      apply (Permutation_in _ (insert_perm x r)) in Hz.
      destruct Hz as [<- | Hz]; [apply cmp_total; lia|].
      rewrite Forall_forall in Hy. now apply Hy.
Qed.

Lemma sort_sorted l : StronglySorted (fun a b => cmp a b <= 0) (sort cmp l).
Proof.
  induction l as [|x r IH]; simpl; [constructor | now apply insert_sorted].
Qed.
End SortFacts.

Lemma StronglySorted_filter {A} (R : A -> A -> Prop) p l :
  StronglySorted R l -> StronglySorted R (filter p l).
Proof.
  induction 1 as [|x r Hr IH Hx]; simpl; [constructor|].
  destruct (p x); [|exact IH]. constructor; [exact IH|].
  rewrite Forall_forall in *. intros y Hy. apply filter_In in Hy.
  now apply Hx.
Qed.

Lemma StronglySorted_map_on {A B} (R : A -> A -> Prop) (R' : B -> B -> Prop)
    (P : A -> Prop) (f : A -> B) l :
  (forall a b, P a -> P b -> R a b -> R' (f a) (f b)) ->
  Forall P l -> StronglySorted R l -> StronglySorted R' (map f l).
Proof.
  intros HR HP HS. induction HS as [|x r Hr IH Hx]; simpl; [constructor|].
  inversion HP as [|? ? Px Pr]; subst.
  constructor; [now apply IH|].
  rewrite Forall_forall in *. intros y Hy. apply in_map_iff in Hy.
  destruct Hy as (z & <- & Hz). apply HR; auto.
Qed.

Lemma filter_perm {A} (p : A -> bool) l l' :
  Permutation l l' -> Permutation (filter p l) (filter p l').
Proof.
  induction 1 as [| x l l' _ IH | x y l | l l' l'' _ IH1 _ IH2]; simpl.
  - constructor.
  - destruct (p x); [now constructor | exact IH].
  - destruct (p x), (p y); try reflexivity. apply perm_swap.
  - now transitivity (filter p l').
Qed.

Lemma slice0_firstn {A} (l : list A) (e : Z) :
  0 <= e -> slice0 l e = firstn (Z.to_nat e) l.
Proof.
  intros He. unfold slice0.
  destruct (Z.ltb_spec e 0) as [H | _]; [lia|].
  destruct (Z.le_ge_cases e (Z.of_nat (List.length l))) as [H | H].
  - now rewrite Z.min_l.
  - rewrite Z.min_r, Nat2Z.id by exact H.
    rewrite firstn_all. symmetry. apply firstn_all2. lia.
Qed.

(** Comparison by code units is a total preorder. *)

Lemma string_compare_le_trans a : forall b c,
  String.compare a b <> Gt -> String.compare b c <> Gt ->
  String.compare a c <> Gt.
Proof.
  induction a as [|x a IH]; intros [|y b] [|z c]; simpl; try congruence.
  unfold Ascii.compare.
  destruct (N.compare_spec (N_of_ascii x) (N_of_ascii y)) as [E1|L1|G1];
  destruct (N.compare_spec (N_of_ascii y) (N_of_ascii z)) as [E2|L2|G2];
  destruct (N.compare_spec (N_of_ascii x) (N_of_ascii z)) as [E3|L3|G3];
  try congruence; try lia; eauto.
Qed.

Lemma byCodeUnits_total a b : 0 < byCodeUnits a b -> byCodeUnits b a <= 0.
Proof.
  unfold byCodeUnits. rewrite (String.compare_antisym b a).
  destruct (String.compare a b); simpl; lia.
Qed.

Lemma byCodeUnits_trans a b c :
  byCodeUnits a b <= 0 -> byCodeUnits b c <= 0 -> byCodeUnits a c <= 0.
Proof.
  unfold byCodeUnits. intros H1 H2.
  assert (String.compare a c <> Gt).
  { apply (string_compare_le_trans a b c).
    - destruct (String.compare a b); [congruence | congruence | lia].
    - destruct (String.compare b c); [congruence | congruence | lia]. }
  destruct (String.compare a c); [lia | lia | congruence].
Qed.

(** ** The range of the risk score *)

Lemma SFcompare_antisym x y c :
  SFcompare x y = Some c -> SFcompare y x = Some (CompOpp c).
Proof.
  destruct x as [sx|sx| |sx mx ex], y as [sy|sy| |sy my ey]; simpl;
    try discriminate; intros [= <-];
    try (destruct sx; reflexivity); try (destruct sy; reflexivity);
    try (destruct sx, sy; reflexivity).
  f_equal. destruct sx, sy; try reflexivity;
    rewrite (Z.compare_antisym ex ey);
    destruct (ex ?= ey); simpl; try reflexivity;
    change (Pos.compare_cont Eq my mx)
      with (Pos.compare_cont (CompOpp Eq) my mx);
    rewrite <- (Pos.compare_cont_antisym mx my Eq);
    now destruct (Pos.compare_cont Eq mx my).
Qed.

(** [Math.max(0, Math.min(100, y))] is NaN or lies between 0 and 100. *)
Lemma clamp_range y :
  let r := JsNumber.Math_max (JsNumber.ofZ 0)
             (JsNumber.Math_min (JsNumber.ofZ 100) y) in
  r = JsNumber.NaN
  \/ (SFleb (JsNumber.ofZ 0) r = true /\ SFleb r (JsNumber.ofZ 100) = true).
Proof.
  cbv zeta. unfold JsNumber.Math_min.
  destruct (SFcompare (JsNumber.ofZ 100) y) as [[| |]|] eqn:C.
  - change (JsNumber.isNegZero (JsNumber.ofZ 100)) with false. cbv iota.
    apply SFcompare_antisym in C. simpl CompOpp in C.
    unfold JsNumber.Math_max.
    destruct (SFcompare (JsNumber.ofZ 0) y) as [[| |]|] eqn:Z.
    + right. change (JsNumber.isNegZero (JsNumber.ofZ 0)) with false.
      cbv iota. split; reflexivity.
    + right. unfold SFleb. now rewrite Z, C.
    + right. split; reflexivity.
    + now left.
  - right. split; reflexivity.
  - apply SFcompare_antisym in C. simpl CompOpp in C.
    unfold JsNumber.Math_max.
    destruct (SFcompare (JsNumber.ofZ 0) y) as [[| |]|] eqn:Z.
    + right. change (JsNumber.isNegZero (JsNumber.ofZ 0)) with false.
      cbv iota. split; reflexivity.
    + right. unfold SFleb. now rewrite Z, C.
    + right. split; reflexivity.
    + now left.
  - left. reflexivity.
Qed.

Lemma firstn_In {A} (x : A) n l : In x (firstn n l) -> In x l.
Proof.
  revert l. induction n as [|n IH]; intros [|y r]; simpl; try tauto.
  intros [H | H]; [now left | right; now apply IH].
Qed.

Lemma weightOf_small n : prototypeKey n = false -> smallWeight (weightOf n).
Proof.
  intros Hn. unfold smallWeight, weightOf, NEED_WEIGHT. rewrite Hn.
  case_ifs; eexists; (split; [reflexivity | lia]).
Qed.

Lemma addWeight_small ws : forall s,
  Forall smallWeight ws ->
  exists s', fold_left addWeight ws (Some s) = Some s'
             /\ s <= s' <= s + 25 * Z.of_nat (List.length ws).
Proof.
  induction ws as [|w r IH]; intros s H; simpl fold_left.
  - exists s. split; [reflexivity | simpl; lia].
  - inversion H as [|? ? (x & -> & Hx) Hr]; subst. simpl addWeight.
    destruct (IH (s + x) Hr) as (s' & -> & Hs').
    exists s'. split; [reflexivity|]. simpl List.length. lia.
Qed.

Lemma decay_factor Date_parse now time_iso :
  In (decay Date_parse now time_iso) factors.
Proof.
  unfold decay, factors. simpl.
  destruct time_iso as [t|]; [|tauto].
  destruct (isEmpty t); [tauto|].
  destruct (Date_parse t) as [ms|]; [|tauto].
  case_ifs; tauto.
Qed.

(** The sums the tables can give are few: each is checked. *)
Lemma scaledScore_number s f :
  0 <= s <= 130 -> In f factors ->
  JsNumber.isNaN (scaledScore s f) = false.
Proof.
  intros Hs Hf.
  assert (H : forallb
                (fun n =>
                   forallb
                     (fun f =>
                        negb (JsNumber.isNaN (scaledScore (Z.of_nat n) f)))
                     factors)
                (seq 0 131) = true) by (vm_compute; reflexivity).
  rewrite forallb_forall in H.
  specialize (H (Z.to_nat s)). rewrite Z2Nat.id in H by lia.
  assert (Hin : In (Z.to_nat s) (seq 0 131)) by (apply in_seq; lia).
  specialize (H Hin). rewrite forallb_forall in H.
  apply negb_true_iff. now apply H.
Qed.

(** The risk score is a number from 0 to 100 for every severity, time and
    list of needs none of which is named after a member of
    [Object.prototype]. *)
Lemma computeRiskScore_within_bounds :
  forall Date_parse now severity needs time_iso,
    forallb (fun n => negb (prototypeKey n)) (normalizeNeeds needs) = true ->
    let r := computeRiskScore Date_parse now severity needs time_iso in
    SFleb (JsNumber.ofZ 0) r = true /\ SFleb r (JsNumber.ofZ 100) = true.
Proof.
  intros dp now severity needs time_iso H r.
  assert (N : JsNumber.isNaN r = false).
  { unfold r, computeRiskScore.
    set (score0 :=
           match severity with Some s => SEVERITY_WEIGHT s | None => 0 end).
    assert (H0 : 0 <= score0 <= 80)
      by (unfold score0; destruct severity as [[]|]; simpl; lia).
    set (weights :=
           firstn 2 (sort byWeightDesc (map weightOf (normalizeNeeds needs)))).
    assert (Hw : Forall smallWeight weights).
    { apply Forall_forall. intros w Hw. apply firstn_In in Hw.
      apply (Permutation_in _ (sort_perm _ _)) in Hw.
      apply in_map_iff in Hw. destruct Hw as (n & <- & Hn).
      apply weightOf_small. rewrite forallb_forall in H.
      now apply negb_true_iff, H. }
    destruct (addWeight_small weights score0 Hw) as (s & -> & Hs).
    assert (Hl : (List.length weights <= 2)%nat) by apply firstn_le_length.
    apply (scaledScore_number s (decay dp now time_iso));
      [lia | apply decay_factor]. }
  destruct (clamp_range
              (JsNumber.Math_round
                 match
                   fold_left addWeight
                     (firstn 2
                        (sort byWeightDesc
                           (map weightOf (normalizeNeeds needs))))
                     (Some match severity with
                           | Some s => SEVERITY_WEIGHT s
                           | None => 0
                           end)
                 with
                 | Some s =>
                     match decay dp now time_iso with
                     | Some f => JsNumber.mul (JsNumber.ofZ s) f
                     | None => JsNumber.ofZ s
                     end
                 | None => JsNumber.NaN
                 end)) as [E | E]; [|exact E].
  fold (computeRiskScore dp now severity needs time_iso) in E. fold r in E.
  rewrite E in N. discriminate.
Qed.

(** ** suggestFacilities *)

Section Ranking.
Variable localeCompare : string -> string -> Z.
Hypothesis lc_total :
  forall a b, 0 < localeCompare a b -> localeCompare b a <= 0.
Hypothesis lc_trans :
  forall a b c, localeCompare a b <= 0 -> localeCompare b c <= 0 ->
                localeCompare a c <= 0.

Lemma byScoreThenName_total a b :
  0 < byScoreThenName localeCompare a b ->
  byScoreThenName localeCompare b a <= 0.
Proof.
  unfold byScoreThenName.
  destruct (Z.eqb_spec (snd b - snd a) 0), (Z.eqb_spec (snd a - snd b) 0);
    try lia. apply lc_total.
Qed.

Lemma byScoreThenName_trans a b c :
  byScoreThenName localeCompare a b <= 0 ->
  byScoreThenName localeCompare b c <= 0 ->
  byScoreThenName localeCompare a c <= 0.
Proof.
  unfold byScoreThenName.
  destruct (Z.eqb_spec (snd b - snd a) 0), (Z.eqb_spec (snd c - snd b) 0),
    (Z.eqb_spec (snd c - snd a) 0); try lia. apply lc_trans.
Qed.

Lemma byScoreThenName_ranks (score : Facility -> Z) a b :
  snd a = score (fst a) -> snd b = score (fst b) ->
  byScoreThenName localeCompare a b <= 0 ->
  ranks localeCompare score (fst a) (fst b).
Proof.
  unfold byScoreThenName, ranks. intros -> ->.
  destruct (Z.eqb_spec (score (fst b) - score (fst a)) 0); intros H;
    [right; split; [lia | exact H] | left; lia].
Qed.
End Ranking.

Lemma scoreFacility_nothing f : scoreFacility f [] [] = 0.
Proof.
  unfold scoreFacility. simpl.
  induction (map toLowerCase
               match capabilities f with Some cs => cs | None => [] end);
    simpl; [reflexivity | assumption].
Qed.

Lemma scored_filter (score : Facility -> Z) facs :
  map fst (filter (fun s : Facility * Z => 0 <? snd s)
             (map (fun f => (f, score f)) facs))
  = filter (fun f => 0 <? score f) facs.
Proof.
  induction facs as [|f r IH]; simpl; [reflexivity|].
  destruct (0 <? score f); simpl; now rewrite IH.
Qed.

(** The loop over the needs completes unless a need is named after a
    member of [Object.prototype]. *)
Lemma desire_returns acc n :
  prototypeKey n = false -> exists acc', desire (Returns acc) n = Returns acc'.
Proof.
  intros Hn. destruct acc as [types caps]. unfold desire.
  assert (HF : NEED_TO_FACILITY n <> Inherited).
  { unfold NEED_TO_FACILITY. rewrite Hn.
    case_ifs; discriminate. }
  assert (HC : NEED_TO_CAPS n <> Inherited).
  { unfold NEED_TO_CAPS. rewrite Hn.
    case_ifs; discriminate. }
  destruct (NEED_TO_FACILITY n), (NEED_TO_CAPS n); try congruence; eauto.
Qed.

Lemma desired_returns needs :
  forallb (fun n => negb (prototypeKey n)) (normalizeNeeds needs) = true ->
  exists acc, desired needs = Returns acc.
Proof.
  unfold desired. generalize (@nil FacilityType, @nil string).
  induction (normalizeNeeds needs) as [|n r IH]; intros acc H;
    cbn [fold_left forallb] in *.
  - eauto.
  - apply andb_prop in H. destruct H as [Hn Hr].
    apply negb_true_iff in Hn.
    destruct (desire_returns acc n Hn) as [acc' ->]. now apply IH.
Qed.

Lemma capMatches_nonneg caps l : forall k,
  k <= fold_left (fun k c => if JsSet.has c caps then k + 1 else k) l k.
Proof.
  induction l as [|c r IH]; intros k; simpl; [lia|].
  destruct (JsSet.has c caps);
    [specialize (IH (k + 1)) | specialize (IH k)]; lia.
Qed.

Lemma capMatches_none caps l : forall k,
  forallb (fun c => negb (JsSet.has c caps)) l = true ->
  fold_left (fun k c => if JsSet.has c caps then k + 1 else k) l k = k.
Proof.
  induction l as [|c r IH]; intros k H; simpl in *; [reflexivity|].
  apply andb_prop in H. destruct H as [Hc Hr].
  apply negb_true_iff in Hc. rewrite Hc. now apply IH.
Qed.

(** For the need medical, any hospital and any shelter none of whose
    capabilities is a medical tag, in either order and for any limit of 1
    or more: the hospital alone is returned, whatever the collation. *)
Lemma hospital_outranks_unmatched_shelter :
  forall localeCompare (h s : Facility) limit,
    type h = hospital ->
    type s = shelter ->
    forallb (fun c => negb (JsSet.has c medicalCaps))
      (map toLowerCase
         match capabilities s with Some cs => cs | None => [] end) = true ->
    1 <= limit ->
    suggestFacilities localeCompare ["medical"] [h; s] limit = Returns [h]
    /\ suggestFacilities localeCompare ["medical"] [s; h] limit = Returns [h].
Proof.
  intros lc h s limit Hh Hs Hcaps Hlimit.
  assert (Sh : 0 < scoreFacility h [hospital] medicalCaps).
  { unfold scoreFacility. rewrite Hh. simpl existsb. cbv iota.
    simpl TYPE_WEIGHT.
    pose proof (capMatches_nonneg medicalCaps
                  (map toLowerCase
                     match capabilities h with
                     | Some cs => cs
                     | None => []
                     end) 0).
    lia. }
  assert (Ss : scoreFacility s [hospital] medicalCaps = 0).
  { unfold scoreFacility. rewrite Hs. simpl existsb. cbv iota.
    now rewrite capMatches_none. }
  assert (L : slice0 [(h, scoreFacility h [hospital] medicalCaps)] limit
              = [(h, scoreFacility h [hospital] medicalCaps)]).
  { unfold slice0. simpl List.length.
    destruct (Z.ltb_spec limit 0); [lia|].
    rewrite Z.min_r by lia. reflexivity. }
  unfold suggestFacilities.
  change (normalizeNeeds ["medical"]) with ["medical"].
  change (fold_left desire ["medical"] (Returns ([], [])))
    with (Returns ([hospital], medicalCaps)).
  cbv iota beta. simpl map. rewrite Ss.
  set (sh := scoreFacility h [hospital] medicalCaps) in *.
  split.
  - simpl sort. unfold byScoreThenName at 1. simpl fst. simpl snd.
    destruct (Z.eqb_spec (0 - sh) 0); [lia|].
    destruct (Z.leb_spec (0 - sh) 0); [|lia].
    simpl filter. destruct (Z.ltb_spec 0 sh); [|lia].
    now rewrite L.
  - simpl sort. unfold byScoreThenName at 1. simpl fst. simpl snd.
    destruct (Z.eqb_spec (sh - 0) 0); [lia|].
    destruct (Z.leb_spec (sh - 0) 0); [lia|].
    simpl filter. destruct (Z.ltb_spec 0 sh); [|lia].
    now rewrite L.
Qed.

(** C9.  When the loop over the needs completes with the desired types and
    tags, [suggestFacilities] returns the first [limit] entries of a
    ranking that holds exactly the facilities of positive score, ordered
    by descending score and, on equal scores, by name as [localeCompare]
    orders them, a total preorder.  For the need medical, a hospital with
    the capability er and a shelter without a matching capability, in
    either order, the result is the hospital alone. *)
Theorem suggestFacilities_ranked :
  forall (localeCompare : string -> string -> Z) needs facilities limit
         desiredTypes desiredCaps,
    (forall a b, 0 < localeCompare a b -> localeCompare b a <= 0) ->
    (forall a b c, localeCompare a b <= 0 -> localeCompare b c <= 0 ->
                   localeCompare a c <= 0) ->
    0 <= limit ->
    desired needs = Returns (desiredTypes, desiredCaps) ->
    (exists ranked,
        suggestFacilities localeCompare needs facilities limit
        = Returns (firstn (Z.to_nat limit) ranked)
        /\ Permutation ranked
             (filter (fun f => 0 <? scoreFacility f desiredTypes desiredCaps)
                facilities)
        /\ StronglySorted
             (ranks localeCompare
                (fun f => scoreFacility f desiredTypes desiredCaps)) ranked)
    /\ suggestFacilities localeCompare ["medical"]
         [generalHospital; eastShelter] 3 = Returns [generalHospital]
    /\ suggestFacilities localeCompare ["medical"]
         [eastShelter; generalHospital] 3 = Returns [generalHospital].
Proof.
  intros lc needs facs limit types caps Htot Htrans Hlim Hdes.
  set (score := fun f => scoreFacility f types caps).
  split; [|split; reflexivity].
  unfold suggestFacilities. unfold desired in Hdes.
  destruct (normalizeNeeds needs) as [|n ns] eqn:Hn.
  - exists []. simpl in Hdes. injection Hdes as <- <-.
    split; [now rewrite firstn_nil|]. split; [|constructor].
    replace (filter (fun f => 0 <? scoreFacility f [] []) facs)
      with (@nil Facility); [constructor|].
    symmetry. induction facs as [|f r IH]; simpl; [reflexivity|].
    now rewrite scoreFacility_nothing.
  - rewrite Hdes.
    set (scored := map (fun f => (f, scoreFacility f types caps)) facs).
    set (sorted := sort (byScoreThenName lc) scored).
    exists (map fst (filter (fun s : Facility * Z => 0 <? snd s) sorted)).
    split; [|split].
    + now rewrite slice0_firstn, firstn_map.
    + pose proof (scored_filter score facs) as E.
      cbv beta delta [score] in E. rewrite <- E.
      apply Permutation_map, filter_perm, sort_perm.
    + apply (StronglySorted_map_on
               (fun a b => byScoreThenName lc a b <= 0) _
               (fun p => snd p = score (fst p))).
      * intros a b Ha Hb. now apply byScoreThenName_ranks.
      * apply Forall_forall. intros p Hp. apply filter_In in Hp.
        destruct Hp as [Hp _].
        apply (Permutation_in _ (sort_perm _ _)) in Hp.
        apply in_map_iff in Hp. now destruct Hp as (f & <- & _).
      * apply StronglySorted_filter, sort_sorted.
        -- now apply byScoreThenName_total.
        -- now apply byScoreThenName_trans.
Qed.

(** Witness of C9: the need medical, the shelter before the hospital, the
    limit 3 and the collation by code units. *)
Lemma suggestFacilities_ranked_witness :
  0 <= 3
  /\ desired ["medical"] = Returns ([hospital], medicalCaps)
  /\ exists ranked,
      suggestFacilities byCodeUnits ["medical"]
        [eastShelter; generalHospital] 3
      = Returns (firstn (Z.to_nat 3) ranked)
      /\ Permutation ranked
           (filter (fun f => 0 <? scoreFacility f [hospital] medicalCaps)
              [eastShelter; generalHospital])
      /\ StronglySorted
           (ranks byCodeUnits
              (fun f => scoreFacility f [hospital] medicalCaps)) ranked.
Proof.
  split; [lia|]. split; [reflexivity|].
  apply (suggestFacilities_ranked byCodeUnits ["medical"]
           [eastShelter; generalHospital] 3 [hospital] medicalCaps
           byCodeUnits_total byCodeUnits_trans);
    [lia | reflexivity].
Defined.

(** ** Fuel *)

Section Fuel.
Local Open Scope nat_scope.

Lemma drop_length n s : String.length (drop n s) <= String.length s.
Proof.
  revert s. induction n as [|n IH]; intros [|c r]; simpl; try lia.
  specialize (IH r). lia.
Qed.

Lemma drop_length_exact n s :
  n <= String.length s -> String.length (drop n s) + n = String.length s.
Proof.
  revert s. induction n as [|n IH]; intros [|c r]; simpl; intros H; try lia.
  specialize (IH r). lia.
Qed.

Lemma startsWith_length p s :
  startsWith p s = true -> String.length p <= String.length s.
Proof.
  revert s. induction p as [|a p IH]; intros [|b s]; simpl; try lia; try discriminate.
  intros H. apply andb_prop in H. destruct H as [_ H]. apply IH in H. lia.
Qed.

Lemma skipWs_length s : String.length (skipWs s) <= String.length s.
Proof.
  induction s as [|c r IH]; simpl; [lia|].
  destruct (isJsonWs c); simpl; lia.
Qed.

Lemma trimStart_length s : String.length (trimStart s) <= String.length s.
Proof.
  induction s as [|c r IH]; simpl; [lia|].
  destruct (isWs c); simpl; lia.
Qed.

Lemma stringBody_length s str rest :
  stringBody s = Some (str, rest) -> String.length rest < String.length s.
Proof.
  revert str rest.
  induction s as [s IH] using (well_founded_induction
                                 (Wf_nat.well_founded_ltof _ String.length)).
  unfold Wf_nat.ltof in IH.
  intros str rest. destruct s as [|c r]; simpl; [discriminate|].
  destruct (code c =? 34)%Z; [intros [= <- <-]; lia|].
  destruct (code c =? 92)%Z.
  - destruct r as [|e r1]; [discriminate|].
    destruct (code e =? 117)%Z.
    + destruct r1 as [|h1 [|h2 [|h3 [|h4 r2]]]]; try discriminate.
      destruct (unicodeEscape h1 h2 h3 h4); [|discriminate].
      destruct (stringBody r2) as [[str' rest']|] eqn:E; simpl; [|discriminate].
      intros [= <- <-]. apply IH in E; simpl in *; lia.
    + destruct (simpleEscape e); [|discriminate].
      destruct (stringBody r1) as [[str' rest']|] eqn:E; simpl; [|discriminate].
      intros [= <- <-]. apply IH in E; simpl in *; lia.
  - destruct (code c <? 32)%Z; [discriminate|].
    destruct (stringBody r) as [[str' rest']|] eqn:E; simpl; [|discriminate].
    intros [= <- <-]. apply IH in E; simpl in *; lia.
Qed.

Lemma digits_length s d rest :
  digits s = (d, rest) ->
  String.length rest + String.length d = String.length s.
Proof.
  revert d rest. induction s as [|c r IH]; simpl; intros d rest.
  - intros [= <- <-]. reflexivity.
  - destruct (isDigit c).
    + destruct (digits r) as [d' rest'] eqn:E. intros [= <- <-].
      specialize (IH _ _ eq_refl). simpl. lia.
    + intros [= <- <-]. simpl. lia.
Qed.

Lemma numberLexeme_length s lx rest :
  numberLexeme s = Some (lx, rest) -> String.length rest < String.length s.
Proof.
  unfold numberLexeme.
  destruct (match s with
            | String c r => if (code c =? 45)%Z then ("-", r) else ("", s)
            | EmptyString => ("", s)
            end) as [sign s1] eqn:E1.
  assert (H1 : String.length s1 <= String.length s).
  { destruct s as [|c r]; [injection E1 as <- <-; lia|].
    destruct (code c =? 45)%Z; injection E1 as <- <-; simpl; lia. }
  destruct (digits s1) as [int s2] eqn:E2. apply digits_length in E2.
  destruct int as [|i0 int]; [discriminate|]. simpl in E2.
  match goal with |- context [negb ?b] => destruct b end; [|discriminate].
  simpl negb. cbv iota.
  assert (H2 : String.length s2 < String.length s) by lia.
  clear E1 E2 H1.
  set (frac := match s2 with
               | String c r => _
               | EmptyString => _
               end).
  assert (HF : forall f s3, frac = Some (f, s3) ->
                            String.length s3 <= String.length s2).
  { unfold frac. intros f s3. destruct s2 as [|c r]; [intros [= <- <-]; lia|].
    destruct (code c =? 46)%Z; [|intros [= <- <-]; lia].
    destruct (digits r) as [fd s3'] eqn:E. apply digits_length in E.
    destruct (isEmpty fd); [discriminate|]. intros [= <- <-]. simpl. lia. }
  destruct frac as [[f s3]|]; [|discriminate].
  specialize (HF _ _ eq_refl).
  set (ex := match s3 with
             | String c r => _
             | EmptyString => _
             end).
  assert (HE : forall x s4, ex = Some (x, s4) ->
                            String.length s4 <= String.length s3).
  { unfold ex. intros x s4. destruct s3 as [|c r]; [intros [= <- <-]; lia|].
    destruct ((code c =? 101)%Z || (code c =? 69)%Z); [|intros [= <- <-]; lia].
    destruct (match r with
              | String d r' =>
                  if ((code d =? 43)%Z || (code d =? 45)%Z)
                  then (String d "", r') else ("", r)
              | EmptyString => ("", r)
              end) as [sg r1] eqn:E1.
    assert (String.length r1 <= String.length r).
    { destruct r as [|d r']; [injection E1 as <- <-; lia|].
      destruct ((code d =? 43)%Z || (code d =? 45)%Z);
        injection E1 as <- <-; simpl; lia. }
    destruct (digits r1) as [xd s4'] eqn:E. apply digits_length in E.
    destruct (isEmpty xd); [discriminate|]. intros [= <- <-]. simpl. lia. }
  destruct ex as [[x s4]|]; [|discriminate].
  specialize (HE _ _ eq_refl). intros [= <- <-]. lia.
Qed.

Lemma literal_length word v s r rest :
  word <> "" -> literal word v s = Some (r, rest) ->
  String.length rest < String.length s.
Proof.
  unfold literal. intros Hw. destruct (startsWith word s) eqn:E; [|discriminate].
  intros [= <- <-]. apply startsWith_length in E.
  pose proof (drop_length_exact _ _ E).
  destruct word; [contradiction|]. simpl in *. lia.
Qed.

Lemma parse_consumes fuel :
  (forall s v rest, parseValue fuel s = Some (v, rest) ->
                    String.length rest < String.length s)
  /\ (forall s l rest, parseElements fuel s = Some (l, rest) ->
                       String.length rest < String.length s)
  /\ (forall s m rest, parseMembers fuel s = Some (m, rest) ->
                       String.length rest < String.length s).
Proof.
  induction fuel as [|f (IHV & IHE & IHM)]; [repeat split; discriminate|].
  split; [|split].
  - intros s v rest. destruct s as [|c r]; simpl; [discriminate|].
    destruct (code c =? 123)%Z.
    { pose proof (skipWs_length r) as W.
      destruct (skipWs r) as [|c' r']; [discriminate|]. simpl in W.
      destruct (code c' =? 125)%Z; [intros [= <- <-]; lia|].
      destruct (parseMembers f (String c' r')) as [[m rest']|] eqn:E;
        [|discriminate].
      intros [= <- <-]. apply IHM in E. simpl in E. lia. }
    destruct (code c =? 91)%Z.
    { pose proof (skipWs_length r) as W.
      destruct (skipWs r) as [|c' r']; [discriminate|]. simpl in W.
      destruct (code c' =? 93)%Z; [intros [= <- <-]; lia|].
      destruct (parseElements f (String c' r')) as [[l rest']|] eqn:E;
        [|discriminate].
      intros [= <- <-]. apply IHE in E. simpl in E. lia. }
    destruct (code c =? 34)%Z.
    { destruct (stringBody r) as [[str rest']|] eqn:E; [|discriminate].
      intros [= <- <-]. apply stringBody_length in E. lia. }
    destruct (code c =? 116)%Z;
      [intros H; apply literal_length in H; [exact H | discriminate]|].
    destruct (code c =? 102)%Z;
      [intros H; apply literal_length in H; [exact H | discriminate]|].
    destruct (code c =? 110)%Z;
      [intros H; apply literal_length in H; [exact H | discriminate]|].
    destruct (numberLexeme (String c r)) as [[lx rest']|] eqn:E;
      [|discriminate].
    intros [= <- <-]. now apply numberLexeme_length in E.
  - intros s l rest. simpl.
    destruct (parseValue f s) as [[v rest1]|] eqn:E; [|discriminate].
    apply IHV in E. pose proof (skipWs_length rest1) as W.
    destruct (skipWs rest1) as [|c r]; [discriminate|]. simpl in W.
    destruct (code c =? 93)%Z; [intros [= <- <-]; lia|].
    destruct (code c =? 44)%Z; [|discriminate].
    destruct (parseElements f (skipWs r)) as [[l' rest']|] eqn:E2;
      [|discriminate].
    intros [= <- <-]. apply IHE in E2. pose proof (skipWs_length r). lia.
  - intros s m rest. simpl. destruct s as [|q r]; [discriminate|].
    destruct (code q =? 34)%Z; [|discriminate].
    destruct (stringBody r) as [[k rest0]|] eqn:E0; [|discriminate].
    apply stringBody_length in E0. pose proof (skipWs_length rest0) as W0.
    destruct (skipWs rest0) as [|c r1]; [discriminate|]. simpl in W0.
    destruct (code c =? 58)%Z; [|discriminate].
    destruct (parseValue f (skipWs r1)) as [[v rest1]|] eqn:E1;
      [|discriminate].
    apply IHV in E1. pose proof (skipWs_length r1) as W1.
    pose proof (skipWs_length rest1) as W2.
    destruct (skipWs rest1) as [|c2 r2]; [discriminate|]. simpl in W2.
    destruct (code c2 =? 125)%Z; [intros [= <- <-]; simpl; lia|].
    destruct (code c2 =? 44)%Z; [|discriminate].
    destruct (parseMembers f (skipWs r2)) as [[m' rest2]|] eqn:E2;
      [|discriminate].
    intros [= <- <-]. apply IHM in E2. pose proof (skipWs_length r2).
    simpl. lia.
Qed.

(** Above the bound the fuel of the parser does not matter. *)
Lemma parse_fuel n :
  forall s, String.length s <= n ->
    (forall f f', 2 * String.length s + 1 <= f ->
                  2 * String.length s + 1 <= f' ->
                  parseValue f s = parseValue f' s)
    /\ (forall f f', 2 * String.length s + 2 <= f ->
                     2 * String.length s + 2 <= f' ->
                     parseElements f s = parseElements f' s)
    /\ (forall f f', 2 * String.length s + 2 <= f ->
                     2 * String.length s + 2 <= f' ->
                     parseMembers f s = parseMembers f' s).
Proof.
  induction n as [|n IH]; intros s Hs.
  - destruct s as [|c r]; [|simpl in Hs; lia].
    repeat split; intros [|f] [|f'] H H'; simpl in *; try lia; try reflexivity.
    destruct f, f'; simpl; try lia; reflexivity.
  - assert (V : forall f f', 2 * String.length s + 1 <= f ->
                             2 * String.length s + 1 <= f' ->
                             parseValue f s = parseValue f' s).
    { intros [|f] [|f'] H H'; try lia.
      destruct s as [|c r]; [reflexivity|]. simpl in Hs, H, H'. simpl.
      pose proof (skipWs_length r) as W.
      destruct (code c =? 123)%Z.
      { destruct (skipWs r) as [|c' r'] eqn:E; [reflexivity|].
        destruct (code c' =? 125)%Z; [reflexivity|].
        destruct (IH (String c' r')) as (_ & _ & M); [lia|].
        rewrite (M f f') by lia. reflexivity. }
      destruct (code c =? 91)%Z.
      { destruct (skipWs r) as [|c' r'] eqn:E; [reflexivity|].
        destruct (code c' =? 93)%Z; [reflexivity|].
        destruct (IH (String c' r')) as (_ & El & _); [lia|].
        rewrite (El f f') by lia. reflexivity. }
      reflexivity. }
    split; [exact V|]. split.
    + intros [|f] [|f'] H H'; try lia. simpl.
      rewrite (V f f') by lia.
      destruct (parseValue f' s) as [[v rest]|] eqn:E; [|reflexivity].
      apply (proj1 (parse_consumes f')) in E.
      pose proof (skipWs_length rest) as W.
      destruct (skipWs rest) as [|c r]; [reflexivity|]. simpl in W.
      destruct (code c =? 93)%Z; [reflexivity|].
      destruct (code c =? 44)%Z; [|reflexivity].
      pose proof (skipWs_length r) as W'.
      destruct (IH (skipWs r)) as (_ & El & _); [lia|].
      rewrite (El f f') by lia. reflexivity.
    + intros [|f] [|f'] H H'; try lia.
      destruct s as [|q r]; [reflexivity|]. simpl in Hs, H, H'. simpl.
      destruct (code q =? 34)%Z; [|reflexivity].
      destruct (stringBody r) as [[k rest0]|] eqn:E0; [|reflexivity].
      apply stringBody_length in E0. pose proof (skipWs_length rest0) as W0.
      destruct (skipWs rest0) as [|c r1]; [reflexivity|]. simpl in W0.
      destruct (code c =? 58)%Z; [|reflexivity].
      pose proof (skipWs_length r1) as W1.
      destruct (IH (skipWs r1)) as (V1 & _ & _); [lia|].
      rewrite (V1 f f') by lia.
      destruct (parseValue f' (skipWs r1)) as [[v rest1]|] eqn:E1;
        [|reflexivity].
      apply (proj1 (parse_consumes f')) in E1.
      pose proof (skipWs_length rest1) as W2.
      destruct (skipWs rest1) as [|c2 r2]; [reflexivity|]. simpl in W2.
      destruct (code c2 =? 125)%Z; [reflexivity|].
      destruct (code c2 =? 44)%Z; [|reflexivity].
      pose proof (skipWs_length r2) as W3.
      destruct (IH (skipWs r2)) as (_ & _ & M); [lia|].
      rewrite (M f f') by lia. reflexivity.
Qed.

(** The fuel of [JSON.parse] is enough: more fuel gives the same result. *)
Lemma parse_enough_fuel text fuel :
  2 * String.length text + 2 <= fuel -> parseWith fuel text = parse text.
Proof.
  intros H. unfold parse, parseWith.
  pose proof (skipWs_length text) as W.
  destruct (parse_fuel _ (skipWs text) (le_n _)) as (V & _ & _).
  rewrite (V fuel (2 * String.length text + 2)) by lia. reflexivity.
Qed.

Lemma closeFence_length t rest :
  closeFence t = Some rest -> String.length rest + 3 <= String.length t.
Proof.
  unfold closeFence. destruct (startsWith fence (trimStart t)) eqn:E;
    [|discriminate].
  intros [= <-]. apply startsWith_length in E.
  change (String.length fence) with 3 in E.
  change (String.length (drop 3 (trimStart t)) + 3 <= String.length t).
  pose proof (drop_length_exact 3 (trimStart t) E).
  pose proof (trimStart_length t). lia.
Qed.

Lemma lazyCapture_length t : forall cap rest,
  lazyCapture t = Some (cap, rest) ->
  String.length rest + 3 <= String.length t.
Proof.
  induction t as [|a t IH]; intros cap rest.
  - simpl. discriminate.
  - cbn [lazyCapture]. destruct (closeFence (String a t)) eqn:E.
    + intros [= <- <-]. now apply closeFence_length in E.
    + destruct (lazyCapture t) as [[cap' rest']|] eqn:L; [|discriminate].
      intros [= <- <-]. specialize (IH _ _ eq_refl). simpl. lia.
Qed.

Lemma wsThenCapture_length t : forall cap rest,
  wsThenCapture t = Some (cap, rest) ->
  String.length rest + 3 <= String.length t.
Proof.
  induction t as [|a t IH]; intros cap rest.
  - apply lazyCapture_length.
  - cbn [wsThenCapture]. destruct (isWs a); [|apply lazyCapture_length].
    destruct (wsThenCapture t) as [[cap' rest']|] eqn:W.
    + intros [= <- <-]. specialize (IH _ _ eq_refl). simpl. lia.
    + apply lazyCapture_length.
Qed.

Lemma matchFence_length s cap rest :
  matchFence s = Some (cap, rest) -> String.length rest < String.length s.
Proof.
  unfold matchFence. destruct (startsWith fence s) eqn:E; [|discriminate].
  apply startsWith_length in E. change (String.length fence) with 3 in E.
  pose proof (drop_length_exact 3 s E) as D.
  assert (R : forall r, String.length r <= String.length (drop 3 s) ->
                        wsThenCapture r = Some (cap, rest) ->
                        String.length rest < String.length s).
  { intros r Hr H. apply wsThenCapture_length in H. lia. }
  destruct (startsWithCI "json" (drop 3 s)).
  - destruct (wsThenCapture (drop 4 (drop 3 s))) as [m|] eqn:W.
    + intros [= ->]. apply (R _ (drop_length _ _) W).
    + apply R. lia.
  - apply R. lia.
Qed.

Lemma replaceFences_fuel n :
  forall s f f', String.length s <= n ->
    String.length s < f -> String.length s < f' ->
    replaceFences f s = replaceFences f' s.
Proof.
  induction n as [|n IH]; intros s [|f] [|f'] Hs H H'; try lia; simpl.
  - destruct s; [|simpl in Hs; lia].
    destruct (matchFence "") as [[cap rest]|] eqn:M; [|reflexivity].
    apply matchFence_length in M. simpl in M. lia.
  - destruct (matchFence s) as [[cap rest]|] eqn:M.
    + apply matchFence_length in M. f_equal. apply IH; lia.
    + destruct s as [|a r]; [reflexivity|]. simpl in *.
      f_equal. apply IH; lia.
Qed.

(** The fuel of [stripCodeFences] is enough. *)
Lemma stripCodeFences_enough_fuel s fuel :
  String.length s < fuel -> replaceFences fuel s = stripCodeFences s.
Proof.
  intros H. unfold stripCodeFences.
  apply (replaceFences_fuel (String.length s)); lia.
Qed.
End Fuel.

(** ** parseModelJson *)










(** ** needsConsensus *)

Section MapFacts.
Context {V : Type}.
Implicit Types m : list (string * V).

Lemma get_set_same k v m : JsMap.get k (JsMap.set k v m) = Some v.
Proof.
  induction m as [|[k' v'] r IH]; simpl.
  - now rewrite String.eqb_refl.
  - destruct (String.eqb_spec k k') as [->|N]; simpl.
    + now rewrite String.eqb_refl.
    + apply String.eqb_neq in N. now rewrite N.
Qed.

Lemma get_set_other k k' v m :
  k' <> k -> JsMap.get k' (JsMap.set k v m) = JsMap.get k' m.
Proof.
  intros N. induction m as [|[k0 v0] r IH]; simpl.
  - apply String.eqb_neq in N. now rewrite N.
  - destruct (String.eqb_spec k k0) as [->|N0]; simpl.
    + apply String.eqb_neq in N. now rewrite N.
    + destruct (k' =? k0)%string; [reflexivity | exact IH].
Qed.

Lemma get_In k v m : JsMap.get k m = Some v -> In (k, v) m.
Proof.
  induction m as [|[k' v'] r IH]; simpl; [discriminate|].
  destruct (String.eqb_spec k k') as [->|N].
  - intros [= ->]. now left.
  - intros H. right. now apply IH.
Qed.
End MapFacts.

Lemma count_countNeed t counts n :
  JsMap.count t (countNeed counts n) = JsMap.count t counts + occurs t n.
Proof.
  unfold countNeed, occurs.
  destruct (isEmpty (trim (toLowerCase n))) eqn:E; simpl; [lia|].
  unfold JsMap.count at 1.
  destruct (String.eqb_spec t (trim (toLowerCase n))) as [->|N].
  - now rewrite get_set_same.
  - rewrite get_set_other by exact N. fold (JsMap.count t counts). lia.
Qed.

Lemma occurs_nonneg t n : 0 <= occurs t n.
Proof. unfold occurs. destruct (_ && _); lia. Qed.

(** The count of a token never decreases, and grows by one at least with a
    candidate that names it. *)
Lemma count_fold_countNeed t phrases : forall counts,
  JsMap.count t counts <= JsMap.count t (fold_left countNeed phrases counts)
  /\ (JsSet.has t (tokensOf phrases) = true ->
      JsMap.count t counts + 1
      <= JsMap.count t (fold_left countNeed phrases counts)).
Proof.
  induction phrases as [|n r IH]; intros counts; simpl.
  - split; [lia | discriminate].
  - destruct (IH (countNeed counts n)) as [H1 H2].
    rewrite count_countNeed in H1, H2.
    pose proof (occurs_nonneg t n) as Hn. split; [lia|].
    unfold tokensOf. simpl. unfold occurs in *.
    destruct (isEmpty (trim (toLowerCase n))) eqn:E; simpl in *.
    + intros H. specialize (H2 H). lia.
    + unfold JsSet.has. simpl. fold (JsSet.has t).
      destruct (t =? trim (toLowerCase n))%string; simpl; [lia|].
      intros H. specialize (H2 H). lia.
Qed.

Lemma count_countNeeds t allNeeds : forall counts,
  JsMap.count t counts + candidatesWith t allNeeds
  <= JsMap.count t
       (fold_left (fun counts phrases => fold_left countNeed phrases counts)
          allNeeds counts).
Proof.
  unfold candidatesWith.
  induction allNeeds as [|l r IH]; intros counts; simpl; [lia|].
  specialize (IH (fold_left countNeed l counts)).
  destruct (count_fold_countNeed t l counts) as [H1 H2].
  destruct (JsSet.has t (tokensOf l)); simpl List.length;
    [specialize (H2 eq_refl)|]; lia.
Qed.

Lemma needsConsensus_majority allNeeds k t :
  1 <= k ->
  (k + 1) / 2 <= candidatesWith t allNeeds ->
  In t (fst (needsConsensus allNeeds k)).
Proof.
  intros Hk Ht. unfold needsConsensus. cbn [fst].
  set (counts := countNeeds allNeeds).
  set (entries := sort (fun a b : string * Z => snd b - snd a) counts).
  set (threshold := (k + 1) / 2) in *.
  assert (Hth : 1 <= threshold)
    by (unfold threshold; apply Z.div_le_lower_bound; lia).
  pose proof (count_countNeeds t allNeeds []) as Hc.
  fold (countNeeds allNeeds) in Hc. fold counts in Hc.
  change (JsMap.count t []) with 0 in Hc.
  assert (Hin : In t (map fst (filter (fun e : string * Z =>
                                         threshold <=? snd e) entries))).
  { apply in_map_iff. exists (t, JsMap.count t counts). split; [reflexivity|].
    apply filter_In. split.
    - apply (Permutation_in _ (Permutation_sym (sort_perm _ counts))).
      apply get_In. unfold JsMap.count in *.
      destruct (JsMap.get t counts); [reflexivity | lia].
    - apply Z.leb_le. simpl. lia. }
  destruct (map fst (filter (fun e : string * Z => threshold <=? snd e)
                       entries));
    [contradiction | exact Hin].
Qed.

(** C5.  For a bucket and a denominator [k] of 1 or more, a need token
    (lower-cased, trimmed, not blank) that appears in the needs of at least
    [ceil(k/2)] candidates of the bucket is among the merged needs. *)
Theorem majority_need_is_merged :
  forall (b : Bucket) (k : Z) (id t : string),
    1 <= k ->
    (k + 1) / 2 <= candidatesWith t (needs_ b) ->
    In t (Merged.needs (mergeBucket k id b)).
Proof. intros b k id t Hk Ht. simpl. now apply needsConsensus_majority. Qed.

(** Witness of C5: medical is named by two of three candidates, [k] is 3. *)
Lemma majority_need_is_merged_witness :
  1 <= 3
  /\ (3 + 1) / 2 <= candidatesWith "medical" (needs_ threeCandidates)
  /\ In "medical" (Merged.needs (mergeBucket 3 (uuid 0) threeCandidates)).
Proof.
  split; [lia|]. split; [vm_compute; discriminate|].
  apply (majority_need_is_merged threeCandidates 3 (uuid 0) "medical");
    [lia | vm_compute; discriminate].
Defined.

(** ** The handler *)

Lemma attempt_reply a runs :
  isReply a = true ->
  attempt a runs =
  inr (runs ++ match salvagedRun a with Some run => [run] | None => [] end)%list.
Proof.
  destruct a as [| |response]; try discriminate. intros _.
  unfold attempt, salvagedRun, content.
  destruct (isEmpty _); [now rewrite app_nil_r|].
  destruct (parseModelJson _); [reflexivity | now rewrite app_nil_r].
Qed.

(** While the service replies, the loop gathers the salvaged runs. *)
Lemma generate_replies gen n : forall i runs,
  forallb isReply (attemptsFrom gen i n) = true ->
  generate gen i n runs
  = inr (runs ++ salvagedRuns (attemptsFrom gen i n))%list.
Proof.
  induction n as [|n IH]; intros i runs H; simpl in *.
  - now rewrite app_nil_r.
  - apply andb_prop in H. destruct H as [Ha Hr].
    rewrite (attempt_reply _ _ Ha), (IH _ _ Hr), <- app_assoc.
    now destruct (salvagedRun (gen i)).
Qed.

Lemma salvagedRuns_length l :
  Z.of_nat (List.length (salvagedRuns l)) = countIf salvaged l.
Proof.
  unfold countIf, salvaged. induction l as [|a r IH]; simpl; [reflexivity|].
  destruct (salvagedRun a); simpl List.length; lia.
Qed.



Lemma generate_inr_replies gen n : forall i runs runs',
  generate gen i n runs = inr runs' ->
  forallb isReply (attemptsFrom gen i n) = true.
Proof.
  induction n as [|n IH]; intros i runs runs' H; [reflexivity|].
  cbn [generate attemptsFrom forallb] in *.
  destruct (attempt (gen i) runs) as [out|mid] eqn:E; [discriminate|].
  apply andb_true_intro. split; [|now apply (IH _ _ _ H)].
  destruct (gen i); [discriminate E | discriminate E | reflexivity].
Qed.

Lemma generate_inl_not_reports gen n : forall i runs merged,
  generate gen i n runs <> inl (Reports merged).
Proof.
  induction n as [|n IH]; intros i runs merged; simpl; [discriminate|].
  destruct (gen i) as [| |response]; simpl; try discriminate.
  destruct (isEmpty _); [apply IH|].
  destruct (parseModelJson _); apply IH.
Qed.

Lemma denominator_max runs :
  denominator runs = Z.max 1 (Z.of_nat (List.length runs)).
Proof.
  unfold denominator.
  destruct (Z.eqb_spec (Z.of_nat (List.length runs)) 0); lia.
Qed.

(** Counterexample to C1: of two attempts that both returned text, one was
    salvaged; the denominator is 1, not 2, and the severity both the votes
    of the one run agree on has confidence 1. *)
Lemma denominator_is_not_the_replies_with_text :
  exists runs,
    generate proseThenJson O 2 [] = inr runs
    /\ countIf responded (attemptsFrom proseThenJson O 2) = 2
    /\ denominator runs = 1
    /\ exists r,
        POST base noDate uuid (request 2) true proseThenJson = Reports [r]
        /\ Merged.confields_severity r = JsNumber.ofZ 1.
Proof.
  eexists. split; [vm_compute; reflexivity|].
  split; [vm_compute; reflexivity|]. split; [vm_compute; reflexivity|].
  eexists. split; vm_compute; reflexivity.
Qed.


(** Counterexample to C4: the same runs merged under two draws of the
    identifiers give different reports. *)
Lemma merged_reports_differ_between_draws :
  mergeRuns noDate uuid (salvagedRuns (attemptsFrom proseThenJson O 2))
  <> mergeRuns noDate (fun i => uuid (S i))
       (salvagedRuns (attemptsFrom proseThenJson O 2)).
Proof. vm_compute. discriminate. Qed.

Lemma mergeFrom_withoutId ids1 ids2 k buckets : forall i j,
  map withoutId (mergeFrom ids1 k i buckets)
  = map withoutId (mergeFrom ids2 k j buckets).
Proof.
  induction buckets as [|[key b] r IH]; intros i j; simpl; [reflexivity|].
  f_equal. apply IH.
Qed.

(** C2.  One reply names the same incident twice and the other reply is
    blank: the bucket holds two candidates, the denominator is 1, and the
    confidences of location, time and severity are 2, the overall
    confidence 1.75. *)
Theorem confidence_exceeds_one :
  exists r,
    POST base noDate uuid (request 2) true duplicateThenSilent = Reports [r]
    /\ Merged.confields_location_text r = JsNumber.ofZ 2
    /\ Merged.confields_time_iso r = JsNumber.ofZ 2
    /\ Merged.confields_severity r = JsNumber.ofZ 2
    /\ Merged.confields_needs r = JsNumber.ofZ 1
    /\ Merged.confidence_overall r
       = JsNumber.div (JsNumber.ofZ 7) (JsNumber.ofZ 4)
    /\ SFltb (JsNumber.ofZ 1) (Merged.confidence_overall r) = true.
Proof. eexists. repeat split; vm_compute; reflexivity. Qed.

(* ================================================================== *)
(** * Further properties of src/lib/risk.ts *)
(* ================================================================== *)

Import TextSpec ScoreSpec.

(** ** The tokens of normalizeNeeds *)

Lemma keepFirst_length l : (List.length (keepFirst l) <= List.length l)%nat.
Proof.
  induction l as [|x r IH]; simpl; [lia|].
  pose proof (filter_length_le (fun y => negb (y =? x)%string) (keepFirst r)).
  lia.
Qed.

Lemma tokenOf_length raw : (List.length (tokenOf raw) <= 1)%nat.
Proof. unfold tokenOf. destruct (isEmpty _); simpl; lia. Qed.

Lemma flat_map_tokenOf_length xs :
  (List.length (flat_map tokenOf xs) <= List.length xs)%nat.
Proof.
  induction xs as [|x r IH]; simpl; [lia|].
  rewrite length_app. pose proof (tokenOf_length x). lia.
Qed.

Lemma flat_map_tokenOf_nil xs :
  flat_map tokenOf xs = [] <-> forallb blank xs = true.
Proof.
  induction xs as [|x r IH]; simpl; [tauto|].
  unfold tokenOf at 1, blank at 1.
  destruct (isEmpty (trim (toLowerCase x))); simpl; [exact IH|].
  split; discriminate.
Qed.

Lemma keepFirst_nil l : keepFirst l = [] <-> l = [].
Proof. destruct l; simpl; split; congruence. Qed.

(** X1.  Every token that [normalizeNeeds] returns is non-empty, already
    lower-cased and trimmed, and is the category of one of the phrases; there
    are no more tokens than phrases, and none exactly when every phrase is
    blank. *)
Theorem normalizeNeeds_tokens : forall xs : list string,
  Forall (fun t =>
            isEmpty t = false
            /\ trim (toLowerCase t) = t
            /\ exists raw,
                 In raw xs /\ blank raw = false
                 /\ t = canonical (trim (toLowerCase raw)))
    (normalizeNeeds xs)
  /\ (List.length (normalizeNeeds xs) <= List.length xs)%nat
  /\ (normalizeNeeds xs = [] <-> forallb blank xs = true).
Proof.
  intros xs. rewrite normalizeNeeds_keepFirst. repeat split.
  - apply Forall_forall. intros t Ht.
    apply keepFirst_incl, in_flat_map in Ht. destruct Ht as (raw & Hraw & Ht).
    unfold tokenOf in Ht.
    destruct (isEmpty (trim (toLowerCase raw))) eqn:E; [destruct Ht|].
    destruct Ht as [<- | []].
    destruct (canonical_fixed _ (normal_fixed raw) E) as (F & N & _).
    repeat split; try assumption. exists raw. now repeat split.
  - etransitivity; [apply keepFirst_length | apply flat_map_tokenOf_length].
  - intros H. now apply flat_map_tokenOf_nil, keepFirst_nil.
  - intros H. now apply keepFirst_nil, flat_map_tokenOf_nil.
Qed.

(** ** The order of the tests *)

Lemma includes_nil_r p : p <> "" -> includes p "" = false.
Proof. destruct p; [congruence | reflexivity]. Qed.

Lemma includes_tail p c s : includes p s = true -> includes p (String c s) = true.
Proof. intros H. simpl. rewrite H. apply orb_true_r. Qed.

(** A word that starts with no white space survives [trimStart]. *)
Lemma includes_trimStart a p s :
  isWs a = false ->
  includes (String a p) s = true ->
  includes (String a p) (trimStart s) = true.
Proof.
  intros Ha. induction s as [|c r IH]; intros H; [exact H|].
  simpl trimStart. destruct (isWs c) eqn:Hc; [|exact H].
  apply IH. simpl in H. apply orb_true_iff in H. destruct H as [H | H].
  - apply andb_prop in H. destruct H as [H _].
    apply Ascii.eqb_eq in H. congruence.
  - destruct r; exact H.
Qed.

Lemma startsWith_trimEnd p : forall s,
  endsSolid p = true -> startsWith p s = true ->
  startsWith p (trimEnd s) = true.
Proof.
  induction p as [|a p IH]; intros s Hp H; [discriminate|].
  destruct s as [|c r]; [discriminate|].
  simpl in H. apply andb_prop in H. destruct H as [Hac Hr].
  apply Ascii.eqb_eq in Hac. subst c. rewrite trimEnd_cons.
  destruct p as [|b p'].
  - simpl in Hp. apply negb_true_iff in Hp.
    destruct (trimEnd r); [rewrite Hp|]; simpl; now rewrite Ascii.eqb_refl.
  - assert (Hp' : endsSolid (String b p') = true) by exact Hp.
    specialize (IH r Hp' Hr).
    destruct (trimEnd r) as [|d r']; [discriminate|].
    cbn [startsWith]. rewrite Ascii.eqb_refl. exact IH.
Qed.

Lemma includes_trimEnd p : forall s,
  endsSolid p = true -> includes p s = true ->
  includes p (trimEnd s) = true.
Proof.
  intros s Hp. assert (Hne : p <> "") by (destruct p; [discriminate | congruence]).
  induction s as [|c r IH]; intros H; [exact H|].
  assert (H' : startsWith p (String c r) = true \/ includes p r = true).
  { simpl in H. apply orb_true_iff in H. destruct H as [H | H]; [left | right].
    - exact H.
    - exact H. }
  destruct H' as [H' | H'].
  - apply (startsWith_trimEnd p _ Hp) in H'.
    destruct (trimEnd (String c r)); simpl; rewrite H'; reflexivity.
  - specialize (IH H'). rewrite trimEnd_cons.
    destruct (trimEnd r) as [|d r'] eqn:E.
    + rewrite includes_nil_r in IH by exact Hne. discriminate.
    + now apply includes_tail.
Qed.

Lemma includes_trim a p s :
  isWs a = false -> endsSolid (String a p) = true ->
  includes (String a p) s = true ->
  includes (String a p) (trim s) = true.
Proof.
  intros Ha Hp H. unfold trim.
  apply includes_trimEnd; [exact Hp|]. now apply includes_trimStart.
Qed.

(** X2.  A phrase that mentions gas is never classified as utility: the
    test for fire, smoke and gas comes first, so the gas of the utility
    test is never reached. *)
Theorem gas_is_never_utility : forall raw : string,
  includes "gas" (toLowerCase raw) = true ->
  ~ In "utility" (normalizeNeeds [raw])
  /\ exists t, normalizeNeeds [raw] = [t]
               /\ In t ["medical"; "rescue"; "evacuation"; "fire"].
Proof.
  intros raw H.
  apply (includes_trim "g" "as") in H; [|reflexivity|reflexivity].
  assert (E : isEmpty (trim (toLowerCase raw)) = false).
  { destruct (trim (toLowerCase raw)); [discriminate | reflexivity]. }
  assert (T : test ["fire"; "smoke"; "gas"] (trim (toLowerCase raw)) = true).
  { unfold test. cbn [existsb]. rewrite H. now rewrite !orb_true_r. }
  assert (N : normalizeNeeds [raw] = [canonical (trim (toLowerCase raw))]).
  { unfold normalizeNeeds. cbn [fold_left]. unfold pushCanon. rewrite E.
    reflexivity. }
  rewrite N. unfold canonical. rewrite T.
  case_ifs.
  all: split; [intros [F | []]; discriminate | eexists; split; [reflexivity|]].
  all: simpl; tauto.
Qed.

(** Witness of X2. *)
Lemma gas_is_never_utility_witness :
  includes "gas" (toLowerCase "Gas leak on Main St") = true
  /\ ~ In "utility" (normalizeNeeds ["Gas leak on Main St"]).
Proof.
  split; [reflexivity|].
  apply (gas_is_never_utility "Gas leak on Main St"). reflexivity.
Defined.

(** ** The score as a function of the severity, the needs and the age *)

Lemma sameNumber_eq x y : sameNumber x y = true -> x = y.
Proof.
  destruct x as [a|a| |a m e], y as [b|b| |b m' e']; simpl;
    try discriminate; try reflexivity.
  - intros H. apply Bool.eqb_prop in H. now subst.
  - intros H. apply Bool.eqb_prop in H. now subst.
  - intros H. apply andb_prop in H. destruct H as [H He].
    apply andb_prop in H. destruct H as [Ha Hm].
    apply Bool.eqb_prop in Ha. apply Pos.eqb_eq in Hm. apply Z.eqb_eq in He.
    now subst.
Qed.

Lemma In_upto n z : 0 <= z < Z.of_nat n -> In z (upto n).
Proof.
  intros H. unfold upto. apply in_map_iff. exists (Z.to_nat z).
  split; [lia | apply in_seq; lia].
Qed.

Lemma upto_In n z : In z (upto n) -> 0 <= z < Z.of_nat n.
Proof.
  unfold upto. intros H. apply in_map_iff in H. destruct H as (k & <- & H).
  apply in_seq in H. lia.
Qed.

Section SortMap.
Context {A B : Type} (f : A -> B) (cmp : A -> A -> Z) (cmp' : B -> B -> Z).
Hypothesis cmp_f : forall a b, cmp' (f a) (f b) = cmp a b.

Lemma insert_map x l : insert cmp' (f x) (map f l) = map f (insert cmp x l).
Proof.
  induction l as [|y r IH]; simpl; [reflexivity|].
  rewrite cmp_f. destruct (cmp x y <=? 0); simpl; [reflexivity|].
  now rewrite IH.
Qed.

Lemma sort_map l : sort cmp' (map f l) = map f (sort cmp l).
Proof.
  induction l as [|x r IH]; simpl; [reflexivity|].
  now rewrite IH, insert_map.
Qed.
End SortMap.

(** Two sorted lists with the same elements are equal when the order is
    antisymmetric. *)
Lemma sorted_perm_eq {A} (R : A -> A -> Prop) :
  (forall a b, R a b -> R b a -> a = b) ->
  forall l l', StronglySorted R l -> StronglySorted R l' ->
               Permutation l l' -> l = l'.
Proof.
  intros anti. induction l as [|a r IH]; intros l' S S' P.
  - apply Permutation_nil in P. now subst.
  - destruct l' as [|b r'].
    + apply Permutation_sym, Permutation_nil in P. discriminate.
    + inversion S as [|? ? Sr Fa]; subst. inversion S' as [|? ? Sr' Fb]; subst.
      rewrite Forall_forall in Fa, Fb.
      assert (E : a = b).
      { assert (Ha : In a (b :: r'))
          by (apply (Permutation_in _ P); now left).
        assert (Hb : In b (a :: r))
          by (apply (Permutation_in _ (Permutation_sym P)); now left).
        destruct Ha as [Ha | Ha]; [now symmetry|].
        destruct Hb as [Hb | Hb]; [exact Hb|].
        apply anti; [now apply Fa | now apply Fb]. }
      subst b. f_equal. apply IH; try assumption.
      now apply Permutation_cons_inv in P.
Qed.

Lemma sort_perm_eq {A} (cmp : A -> A -> Z) :
  (forall a b, 0 < cmp a b -> cmp b a <= 0) ->
  (forall a b c, cmp a b <= 0 -> cmp b c <= 0 -> cmp a c <= 0) ->
  (forall a b, cmp a b <= 0 -> cmp b a <= 0 -> a = b) ->
  forall l l', Permutation l l' -> sort cmp l = sort cmp l'.
Proof.
  intros tot trans anti l l' P.
  apply (sorted_perm_eq (fun a b => cmp a b <= 0) anti).
  - now apply sort_sorted.
  - now apply sort_sorted.
  - rewrite (sort_perm cmp l), (sort_perm cmp l'). exact P.
Qed.

Lemma weightOf_plain n :
  prototypeKey n = false -> weightOf n = WNum (needWeight n).
Proof.
  intros H. unfold weightOf, needWeight, NEED_WEIGHT. rewrite H.
  case_ifs; reflexivity.
Qed.

Lemma needWeight_range n : 0 <= needWeight n <= 25.
Proof.
  unfold needWeight, NEED_WEIGHT. case_ifs; lia.
Qed.

Lemma fold_addWeight_nums ws : forall s,
  fold_left addWeight (map WNum ws) (Some s) = Some (fold_left Z.add ws s).
Proof.
  induction ws as [|w r IH]; intros s; simpl; [reflexivity | apply IH].
Qed.

Lemma fold_add_shift ws : forall s,
  fold_left Z.add ws s = s + fold_left Z.add ws 0.
Proof.
  induction ws as [|w r IH]; intros s; simpl; [lia|].
  rewrite (IH (s + w)), (IH w). lia.
Qed.

Lemma fold_add_range ws :
  Forall (fun w => 0 <= w <= 25) ws ->
  0 <= fold_left Z.add ws 0 <= 25 * Z.of_nat (List.length ws).
Proof.
  induction 1 as [|w r Hw Hr IH]; simpl fold_left; [simpl; lia|].
  rewrite fold_add_shift. simpl List.length. lia.
Qed.

Lemma topTwo_range needs : 0 <= topTwo needs <= 50.
Proof.
  unfold topTwo.
  set (ws := firstn 2 _).
  assert (F : Forall (fun w => 0 <= w <= 25) ws).
  { apply Forall_forall. intros w Hw. apply firstn_In in Hw.
    apply (Permutation_in _ (sort_perm _ _)) in Hw.
    apply in_map_iff in Hw. destruct Hw as (n & <- & _).
    apply needWeight_range. }
  pose proof (fold_add_range ws F).
  assert ((List.length ws <= 2)%nat) by apply firstn_le_length.
  lia.
Qed.

Lemma severityWeight_range severity : 0 <= severityWeight severity <= 80.
Proof. destruct severity as [[]|]; simpl; lia. Qed.

(** Without a need named after a member of [Object.prototype] the score
    is the clamped, rounded, decayed sum of the weight of the severity and
    of the two largest weights of the needs. *)
Lemma computeRiskScore_plain Date_parse now severity needs time_iso :
  plainNeeds needs = true ->
  computeRiskScore Date_parse now severity needs time_iso
  = scaledScore (severityWeight severity + topTwo needs)
      (decay Date_parse now time_iso).
Proof.
  intros H. unfold computeRiskScore, scaledScore, topTwo.
  fold (severityWeight severity).
  assert (E : map weightOf (normalizeNeeds needs)
              = map WNum (map needWeight (normalizeNeeds needs))).
  { rewrite map_map. apply map_ext_in. intros n Hn.
    apply weightOf_plain. unfold plainNeeds in H.
    rewrite forallb_forall in H. now apply negb_true_iff, H. }
  rewrite E.
  rewrite (sort_map WNum (fun a b => b - a) byWeightDesc)
    by (intros; reflexivity).
  rewrite firstn_map, fold_addWeight_nums, fold_add_shift.
  reflexivity.
Qed.

(** The score is a whole number from 0 to 100. *)
Lemma computeRiskScore_whole Date_parse now severity needs time_iso :
  plainNeeds needs = true ->
  exists n,
    0 <= n <= 100
    /\ computeRiskScore Date_parse now severity needs time_iso
       = JsNumber.ofZ n.
Proof.
  intros H.
  rewrite computeRiskScore_plain by exact H.
  assert (C : forallb
                (fun s =>
                   forallb
                     (fun f =>
                        existsb
                          (fun n => sameNumber (scaledScore s f) (JsNumber.ofZ n))
                          (upto 101))
                     factors)
                (upto 131) = true) by (vm_compute; reflexivity).
  rewrite forallb_forall in C.
  pose proof (severityWeight_range severity).
  pose proof (topTwo_range needs).
  assert (Hin : In (severityWeight severity + topTwo needs) (upto 131))
    by (apply In_upto; lia).
  specialize (C _ Hin).
  rewrite forallb_forall in C.
  specialize (C _ (decay_factor Date_parse now time_iso)).
  apply existsb_exists in C. destruct C as (n & Hn & E).
  apply upto_In in Hn. apply sameNumber_eq in E.
  exists n. split; [lia | exact E].
Qed.


(** X3.  The risk score is a whole number from 0 to 100, whatever the
    severity, the time and the clock, for needs none of which is named
    after a member of [Object.prototype]. *)
Theorem computeRiskScore_is_a_whole_percentage :
  forall Date_parse now severity needs time_iso,
    plainNeeds needs = true ->
    exists n,
      0 <= n <= 100
      /\ computeRiskScore Date_parse now severity needs time_iso
         = JsNumber.ofZ n.
Proof. intros. now apply computeRiskScore_whole. Qed.

(** Witness of X3. *)
Lemma computeRiskScore_is_a_whole_percentage_witness :
  exists n,
    0 <= n <= 100
    /\ computeRiskScore noDate 0 (Some high) ["Power lines down"; "road"]
         (Some "yesterday") = JsNumber.ofZ n.
Proof.
  apply (computeRiskScore_is_a_whole_percentage noDate 0 (Some high)
           ["Power lines down"; "road"] (Some "yesterday")).
  reflexivity.
Defined.

Lemma normalizeNeeds_perm xs ys :
  Permutation xs ys -> Permutation (normalizeNeeds xs) (normalizeNeeds ys).
Proof.
  intros P. rewrite !normalizeNeeds_keepFirst.
  apply NoDup_Permutation; try apply keepFirst_NoDup.
  intros t. rewrite !keepFirst_incl, !in_flat_map.
  split; intros (raw & Hraw & Ht); exists raw; split; try assumption.
  - now apply (Permutation_in _ P).
  - now apply (Permutation_in _ (Permutation_sym P)).
Qed.

Lemma topTwo_perm xs ys : Permutation xs ys -> topTwo xs = topTwo ys.
Proof.
  intros P. unfold topTwo. f_equal. f_equal.
  apply sort_perm_eq; try (intros; lia).
  apply Permutation_map. now apply normalizeNeeds_perm.
Qed.

(** X4.  The risk score does not depend on the order in which the needs
    are listed. *)
Theorem computeRiskScore_ignores_the_order_of_needs :
  forall Date_parse now severity needs needs' time_iso,
    plainNeeds needs = true ->
    Permutation needs needs' ->
    computeRiskScore Date_parse now severity needs time_iso
    = computeRiskScore Date_parse now severity needs' time_iso.
Proof.
  intros dp now severity needs needs' time_iso H P.
  assert (H' : plainNeeds needs' = true).
  { unfold plainNeeds in *. rewrite forallb_forall in *. intros n Hn.
    apply H. apply (Permutation_in _ (Permutation_sym (normalizeNeeds_perm _ _ P))).
    exact Hn. }
  rewrite !computeRiskScore_plain by assumption.
  now rewrite (topTwo_perm _ _ P).
Qed.

(** Witness of X4. *)
Lemma computeRiskScore_ignores_the_order_of_needs_witness :
  computeRiskScore noDate 0 (Some low) ["water"; "medic"; "food"] None
  = computeRiskScore noDate 0 (Some low) ["food"; "water"; "medic"] None.
Proof.
  apply (computeRiskScore_ignores_the_order_of_needs noDate 0 (Some low)
           ["water"; "medic"; "food"] ["food"; "water"; "medic"] None).
  - reflexivity.
  - apply Permutation_sym.
    change (Permutation (["food"] ++ ["water"; "medic"])
              (["water"; "medic"] ++ ["food"])).
    apply Permutation_app_comm.
Defined.

Lemma severities_all severity : In severity severities.
Proof. destruct severity as [[]|]; simpl; tauto. Qed.

(** X5.  A more severe report never scores lower: with the same needs,
    the same time and the same clock, the score grows with the weight of
    the severity. *)
Theorem computeRiskScore_grows_with_severity :
  forall Date_parse now severity severity' needs time_iso,
    plainNeeds needs = true ->
    severityWeight severity <= severityWeight severity' ->
    SFleb (computeRiskScore Date_parse now severity needs time_iso)
      (computeRiskScore Date_parse now severity' needs time_iso) = true.
Proof.
  intros dp now severity severity' needs time_iso H L.
  rewrite !computeRiskScore_plain by exact H.
  assert (C : forallb
                (fun w =>
                   forallb
                     (fun f =>
                        forallb
                          (fun a =>
                             forallb
                               (fun b =>
                                  negb (severityWeight a <=? severityWeight b)
                                  || SFleb
                                       (scaledScore (severityWeight a + w) f)
                                       (scaledScore (severityWeight b + w) f))
                               severities)
                          severities)
                     factors)
                (upto 51) = true) by (vm_compute; reflexivity).
  rewrite forallb_forall in C.
  pose proof (topTwo_range needs).
  assert (Hin : In (topTwo needs) (upto 51)) by (apply In_upto; lia).
  specialize (C _ Hin).
  rewrite forallb_forall in C.
  specialize (C _ (decay_factor dp now time_iso)).
  rewrite forallb_forall in C. specialize (C _ (severities_all severity)).
  rewrite forallb_forall in C. specialize (C _ (severities_all severity')).
  apply orb_true_iff in C. destruct C as [C | C]; [|exact C].
  apply negb_true_iff, Z.leb_gt in C. lia.
Qed.

(** Witness of X5. *)
Lemma computeRiskScore_grows_with_severity_witness :
  SFleb (computeRiskScore noDate 0 (Some moderate) ["food"] None)
    (computeRiskScore noDate 0 (Some critical) ["food"] None) = true.
Proof.
  apply (computeRiskScore_grows_with_severity noDate 0 (Some moderate)
           (Some critical) ["food"] None).
  - reflexivity.
  - simpl. lia.
Defined.

Lemma decay_aged Date_parse now now' time_iso :
  now <= now' ->
  In (decay Date_parse now' time_iso, decay Date_parse now time_iso) agedPairs.
Proof.
  intros L. unfold decay, agedPairs. cbv zeta.
  destruct time_iso as [t|]; [|simpl; tauto].
  destruct (isEmpty t); [simpl; tauto|].
  destruct (Date_parse t) as [ms|]; [|simpl; tauto].
  destruct (Z.ltb_spec (12 * msPerHour) (now' - ms)),
           (Z.ltb_spec (12 * msPerHour) (now - ms)),
           (Z.ltb_spec (6 * msPerHour) (now' - ms)),
           (Z.ltb_spec (6 * msPerHour) (now - ms)),
           (Z.ltb_spec (2 * msPerHour) (now' - ms)),
           (Z.ltb_spec (2 * msPerHour) (now - ms));
    try lia; simpl; tauto.
Qed.

(** X6.  A report never gains risk by ageing: at a later reading of the
    clock its score is at most what it was. *)
Theorem computeRiskScore_fades_with_age :
  forall Date_parse now now' severity needs time_iso,
    plainNeeds needs = true ->
    now <= now' ->
    SFleb (computeRiskScore Date_parse now' severity needs time_iso)
      (computeRiskScore Date_parse now severity needs time_iso) = true.
Proof.
  intros dp now now' severity needs time_iso H L.
  rewrite !computeRiskScore_plain by exact H.
  assert (C : forallb
                (fun s =>
                   forallb
                     (fun p =>
                        SFleb (scaledScore s (fst p)) (scaledScore s (snd p)))
                     agedPairs)
                (upto 131) = true) by (vm_compute; reflexivity).
  rewrite forallb_forall in C.
  pose proof (severityWeight_range severity).
  pose proof (topTwo_range needs).
  assert (Hin : In (severityWeight severity + topTwo needs) (upto 131))
    by (apply In_upto; lia).
  specialize (C _ Hin).
  rewrite forallb_forall in C.
  exact (C _ (decay_aged dp now now' time_iso L)).
Qed.

(** Witness of X6. *)
Lemma computeRiskScore_fades_with_age_witness :
  SFleb
    (computeRiskScore (fun _ => Some 0) (13 * msPerHour) (Some high)
       ["rescue"] (Some "1970-01-01T00:00:00Z"))
    (computeRiskScore (fun _ => Some 0) msPerHour (Some high)
       ["rescue"] (Some "1970-01-01T00:00:00Z")) = true.
Proof.
  apply (computeRiskScore_fades_with_age (fun _ => Some 0) msPerHour
           (13 * msPerHour) (Some high) ["rescue"]
           (Some "1970-01-01T00:00:00Z")).
  - reflexivity.
  - vm_compute. discriminate.
Defined.

(** ** Which facilities are suggested *)

Lemma desire_Throws l : fold_left desire l Throws = Throws.
Proof. induction l as [|n r IH]; simpl; [reflexivity | exact IH]. Qed.

Lemma desire_prototypeKey acc n :
  prototypeKey n = true -> desire acc n = Throws.
Proof.
  intros H. destruct acc as [[types caps]|]; [|reflexivity].
  unfold desire.
  assert (E : NEED_TO_FACILITY n = Inherited).
  { unfold prototypeKey in H. apply orb_true_iff in H.
    destruct H as [H | H]; apply String.eqb_eq in H; subst n; reflexivity. }
  now rewrite E.
Qed.

Lemma desire_stuck l : forall acc,
  existsb prototypeKey l = true -> fold_left desire l acc = Throws.
Proof.
  induction l as [|n r IH]; intros acc H; [discriminate|].
  cbn [fold_left existsb] in *.
  destruct (prototypeKey n) eqn:E.
  - rewrite (desire_prototypeKey acc n E). apply desire_Throws.
  - now apply IH.
Qed.

Lemma plainNeeds_false needs :
  plainNeeds needs = false ->
  existsb prototypeKey (normalizeNeeds needs) = true.
Proof.
  unfold plainNeeds. induction (normalizeNeeds needs) as [|n r IH]; simpl;
    [discriminate|].
  destruct (prototypeKey n); simpl; [reflexivity | exact IH].
Qed.

Lemma suggestFacilities_Throws_iff localeCompare needs facilities limit :
  suggestFacilities localeCompare needs facilities limit = Throws
  <-> plainNeeds needs = false.
Proof.
  unfold suggestFacilities. split.
  - intros H. destruct (plainNeeds needs) eqn:P; [|reflexivity].
    destruct (desired_returns needs P) as ([ts caps] & D).
    unfold desired in D. rewrite D in H.
    destruct (normalizeNeeds needs); discriminate.
  - intros P. apply plainNeeds_false in P.
    rewrite (desire_stuck _ _ P).
    destruct (normalizeNeeds needs); [discriminate | reflexivity].
Qed.


(** X7.  [suggestFacilities] throws exactly when one of the normalized
    needs is named after a member of [Object.prototype] (constructor or
    __proto__): the tables are object literals and [forEach] is called on
    what they inherit.  For every other list of needs it returns. *)
Theorem suggestFacilities_throws_on_prototype_names :
  forall localeCompare needs facilities limit,
    suggestFacilities localeCompare needs facilities limit = Throws
    <-> plainNeeds needs = false.
Proof. intros. apply suggestFacilities_Throws_iff. Qed.

Lemma desire_unlisted l : forall acc,
  forallb unlisted l = true -> fold_left desire l (Returns acc) = Returns acc.
Proof.
  induction l as [|n r IH]; intros acc H; [reflexivity|].
  cbn [fold_left forallb] in *. apply andb_prop in H. destruct H as [Hn Hr].
  unfold unlisted in Hn. destruct acc as [types caps]. unfold desire.
  destruct (NEED_TO_FACILITY n); try discriminate.
  destruct (NEED_TO_CAPS n); try discriminate.
  now apply IH.
Qed.

(** X8.  Needs that no table lists bring no suggestion, whatever the
    directory holds: no type and no capability is desired, every facility
    scores 0 and is filtered out.  The same goes for no needs at all. *)
Theorem suggestFacilities_nothing_for_unlisted_needs :
  forall localeCompare needs facilities limit,
    forallb unlisted (normalizeNeeds needs) = true ->
    suggestFacilities localeCompare needs facilities limit = Returns [].
Proof.
  intros lc needs facilities limit H. unfold suggestFacilities.
  destruct (normalizeNeeds needs) as [|n r] eqn:E; [reflexivity|].
  rewrite (desire_unlisted _ _ H).
  set (sorted := sort _ _).
  assert (F : filter (fun s : Facility * Z => 0 <? snd s) sorted = []).
  { destruct (filter _ sorted) as [|x l] eqn:Fx; [reflexivity|].
    assert (Hx : In x (filter (fun s : Facility * Z => 0 <? snd s) sorted))
      by (rewrite Fx; now left).
    apply filter_In in Hx. destruct Hx as [Hx Px].
    apply (Permutation_in _ (sort_perm _ _)) in Hx.
    apply in_map_iff in Hx. destruct Hx as (f & <- & _).
    simpl in Px. rewrite scoreFacility_nothing in Px. discriminate. }
  rewrite F. unfold slice0. now rewrite firstn_nil.
Qed.

(** Witness of X8. *)
Lemma suggestFacilities_nothing_for_unlisted_needs_witness :
  suggestFacilities byCodeUnits ["Translator"; "  "]
    [generalHospital; eastShelter] 3 = Returns [].
Proof.
  apply (suggestFacilities_nothing_for_unlisted_needs byCodeUnits
           ["Translator"; "  "] [generalHospital; eastShelter] 3).
  reflexivity.
Defined.

Lemma capMatches_zero caps cs :
  existsb (fun c => JsSet.has (toLowerCase c) caps) cs = false ->
  fold_left (fun k c => if JsSet.has c caps then k + 1 else k)
    (map toLowerCase cs) 0 = 0.
Proof.
  intros H. apply capMatches_none.
  induction cs as [|c r IH]; simpl in *; [reflexivity|].
  apply orb_false_iff in H. destruct H as [Hc Hr].
  rewrite Hc. simpl. now apply IH.
Qed.

Lemma scoreFacility_positive f ts caps :
  0 < scoreFacility f ts caps ->
  existsb (FacilityType_eqb (type f)) ts = true \/ hasDesiredCap caps f = true.
Proof.
  intros H. unfold scoreFacility in H.
  destruct (existsb (FacilityType_eqb (type f)) ts); [now left | right].
  unfold hasDesiredCap.
  destruct (existsb _ _) eqn:E; [reflexivity|].
  rewrite (capMatches_zero _ _ E) in H. lia.
Qed.

Lemma slice0_In {A} (x : A) l e : In x (slice0 l e) -> In x l.
Proof. unfold slice0. apply firstn_In. Qed.

Lemma slice0_length {A} (l : list A) e :
  0 <= e -> Z.of_nat (List.length (slice0 l e)) <= e.
Proof.
  intros H. rewrite slice0_firstn by exact H.
  pose proof (firstn_le_length (Z.to_nat e) l).
  rewrite length_firstn. lia.
Qed.

(** X9.  Every facility that is suggested belongs to the directory and is
    relevant to the needs: its type is desired, or one of its capability
    tags is, compared without regard to case.  A limit that is not negative
    bounds the number of suggestions. *)
Theorem suggested_facilities_are_relevant :
  forall localeCompare needs facilities limit desiredTypes desiredCaps out,
    desired needs = Returns (desiredTypes, desiredCaps) ->
    suggestFacilities localeCompare needs facilities limit = Returns out ->
    Forall (fun f =>
              In f facilities
              /\ (existsb (FacilityType_eqb (type f)) desiredTypes = true
                  \/ hasDesiredCap desiredCaps f = true)) out
    /\ (0 <= limit -> Z.of_nat (List.length out) <= limit).
Proof.
  intros lc needs facilities limit ts caps out D S.
  unfold suggestFacilities in S. unfold desired in D.
  destruct (normalizeNeeds needs) as [|n r] eqn:E.
  - injection S as <-. split; [constructor | simpl; lia].
  - rewrite D in S. injection S as <-. split.
    + apply Forall_forall. intros f Hf.
      apply in_map_iff in Hf. destruct Hf as ([f' s] & Ef & Hf).
      simpl in Ef. subst f'.
      apply slice0_In, filter_In in Hf. destruct Hf as [Hf Ps].
      apply (Permutation_in _ (sort_perm _ _)) in Hf.
      apply in_map_iff in Hf. destruct Hf as (g & [= -> <-] & Hg).
      split; [exact Hg|]. apply scoreFacility_positive.
      simpl in Ps. now apply Z.ltb_lt.
    + intros L. rewrite length_map. now apply slice0_length.
Qed.

(** Witness of X9. *)
Lemma suggested_facilities_are_relevant_witness :
  Forall (fun f =>
            In f [eastShelter; generalHospital]
            /\ (existsb (FacilityType_eqb (type f)) [hospital] = true
                \/ hasDesiredCap medicalCaps f = true)) [generalHospital]
  /\ (0 <= 3 -> Z.of_nat (List.length [generalHospital]) <= 3).
Proof.
  apply (suggested_facilities_are_relevant byCodeUnits ["medical"]
           [eastShelter; generalHospital] 3 [hospital] medicalCaps
           [generalHospital]); reflexivity.
Defined.

(* ================================================================== *)
(** * Further properties of the merge helpers *)
(* ================================================================== *)

Import VoteSpec.

(** ** majority *)

Section MajorityFacts.
Context {T : Type} (stringify : option T -> string).

Lemma votes_nil key : votes stringify key [] = 0.
Proof. reflexivity. Qed.

Lemma votes_snoc key p v :
  votes stringify key (p ++ [v])
  = votes stringify key p + (if (stringify v =? key)%string then 1 else 0).
Proof.
  unfold votes. rewrite filter_app, length_app. simpl.
  destruct (stringify v =? key)%string; simpl; lia.
Qed.

Lemma votes_app key p q :
  votes stringify key (p ++ q)
  = votes stringify key p + votes stringify key q.
Proof. unfold votes. rewrite filter_app, length_app. lia. Qed.

Lemma votes_nonneg key p : 0 <= votes stringify key p.
Proof. unfold votes. lia. Qed.

Lemma tally_tallied p st v :
  tallied stringify p st ->
  tallied stringify (p ++ [v]) (tally stringify st v).
Proof.
  destruct st as [m [bv bc]]. intros (I1 & I2 & I3). simpl in *.
  unfold tally. cbn [snd]. rewrite (I1 (stringify v)).
  set (c := votes stringify (stringify v) p + 1).
  assert (Hc : c = votes stringify (stringify v) (p ++ [v])).
  { rewrite votes_snoc, String.eqb_refl. reflexivity. }
  assert (J1 : forall key,
             JsMap.count key (JsMap.set (stringify v) c m)
             = votes stringify key (p ++ [v])).
  { intros key. rewrite votes_snoc. unfold JsMap.count.
    destruct (String.eqb_spec (stringify v) key) as [<-|N].
    - rewrite get_set_same. reflexivity.
    - rewrite get_set_other by congruence.
      fold (JsMap.count key m). rewrite I1. lia. }
  destruct (Z.ltb_spec bc c) as [L | L]; unfold tallied; cbn [fst snd].
  - split; [exact J1|]. split.
    + intros key. rewrite votes_snoc.
      destruct (String.eqb_spec (stringify v) key) as [<-|N];
        [unfold c; lia|]. specialize (I2 key). lia.
    + right. exists p, []. split; [reflexivity|]. split; [now rewrite Hc|].
      intros key. specialize (I2 key). lia.
  - split; [exact J1|]. split.
    + intros key. rewrite votes_snoc.
      destruct (String.eqb_spec (stringify v) key) as [<-|N];
        [unfold c in L; lia|]. specialize (I2 key). lia.
    + right. destruct I3 as [[-> [= -> ->]] | (p1 & q1 & -> & E & F)].
      * unfold c in L. rewrite votes_nil in L. lia.
      * exists p1, (q1 ++ [v])%list. split; [|now split].
        now rewrite <- app_assoc.
Qed.

Lemma fold_tally_tallied arr : forall p st,
  tallied stringify p st ->
  tallied stringify (p ++ arr) (fold_left (tally stringify) arr st).
Proof.
  induction arr as [|v r IH]; intros p st H; simpl.
  - now rewrite app_nil_r.
  - replace (p ++ v :: r)%list with ((p ++ [v]) ++ r)%list
      by (now rewrite <- app_assoc).
    apply IH. now apply tally_tallied.
Qed.

Lemma majority_tallied arr :
  tallied stringify arr (fold_left (tally stringify) arr ([], (None, 0))).
Proof.
  apply (fold_tally_tallied arr [] ([], (None, 0))).
  split; [|split].
  - intros key. reflexivity.
  - intros key. unfold votes. simpl. lia.
  - left. now split.
Qed.
End MajorityFacts.

(** X10.  [majority] returns an entry with the most votes, votes being
    counted per JSON text of the entry, together with that number of votes;
    among several entries with the most votes it returns the one whose count
    got there first.  Of no entries it returns null with count 0. *)
Theorem majority_is_the_first_to_the_most_votes :
  forall (T : Type) (stringify : option T -> string) (arr : list (option T)),
    arr <> [] ->
    let value := fst (majority stringify arr) in
    let count := snd (majority stringify arr) in
    (forall key, votes stringify key arr <= count)
    /\ votes stringify (stringify value) arr = count
    /\ exists before after,
         arr = (before ++ value :: after)%list
         /\ votes stringify (stringify value) (before ++ [value]) = count
         /\ forall key, votes stringify key before < count.
Proof.
  intros T stringify arr Hne. cbv zeta.
  destruct (majority_tallied stringify arr) as (_ & I2 & I3).
  fold (majority stringify arr) in I2, I3.
  destruct (majority stringify arr) as [value count]. cbn [fst snd] in *.
  split; [exact I2|].
  destruct I3 as [[E _] | (p1 & q1 & E & V & F)]; [contradiction|].
  split; [|now exists p1, q1].
  apply Z.le_antisymm; [apply I2|].
  pose proof (votes_app stringify (stringify value) (p1 ++ [value]) q1) as A.
  rewrite <- app_assoc in A. simpl in A. rewrite <- E in A.
  pose proof (votes_nonneg stringify (stringify value) q1).
  lia.
Qed.

(** Witness of X10. *)
Lemma majority_is_the_first_to_the_most_votes_witness :
  let arr := [Some "Pine St"; Some "Oak Ave"; Some "Oak Ave"; Some "Pine St"] in
  majority stringifyText arr = (Some "Oak Ave", 2)
  /\ (forall key, votes stringifyText key arr <= 2)
  /\ votes stringifyText (stringifyText (Some "Oak Ave")) arr = 2.
Proof.
  intros arr.
  destruct (majority_is_the_first_to_the_most_votes string stringifyText arr
              ltac:(discriminate)) as (H1 & H2 & _).
  split; [reflexivity|]. split; [exact H1 | exact H2].
Defined.

(** ** The keys of majority *)

Lemma append_assoc (a b c : string) : ((a ++ b) ++ c = a ++ (b ++ c))%string.
Proof. induction a as [|x a IH]; simpl; [reflexivity | now rewrite IH]. Qed.

(** Reading back what [JSON.stringify] writes for a string. *)
Lemma stringBody_escape_app s : forall t,
  stringBody (escape s ++ t)
  = match stringBody t with
    | Some (str, rest) => Some (s ++ str, rest)
    | None => None
    end.
Proof.
  induction s as [|c r IH]; intros t.
  - simpl. now destruct (stringBody t) as [[str rest]|].
  - cbn [escape]. rewrite append_assoc.
    destruct c as [[] [] [] [] [] [] [] []];
      cbn; rewrite IH; now destruct (stringBody t) as [[str rest]|].
Qed.

Lemma stringBody_escape s rest :
  stringBody (escape s ++ quote ++ rest) = Some (s, rest).
Proof.
  rewrite stringBody_escape_app. cbn.
  f_equal. f_equal. induction s as [|c r IH]; simpl; [reflexivity|].
  now rewrite IH.
Qed.

Lemma stringifyString_inj a b : stringifyString a = stringifyString b -> a = b.
Proof.
  unfold stringifyString. intros H.
  assert (E : escape a ++ quote ++ "" = escape b ++ quote ++ "").
  { change (quote ++ "") with quote.
    unfold quote in H at 1 3. simpl in H. now injection H. }
  pose proof (stringBody_escape a "") as Ha. rewrite E in Ha.
  rewrite stringBody_escape in Ha. now injection Ha.
Qed.

(** X11.  The key under which [majority] files an entry identifies the
    entry: two texts (or null) have the same JSON text only when they are
    the same, and so have two severities.  Votes are therefore counted per
    value. *)
Theorem majority_keys_identify_values :
  (forall v w : option string, stringifyText v = stringifyText w <-> v = w)
  /\ (forall v w : option Severity,
        stringifySeverity v = stringifySeverity w <-> v = w)
  /\ forall (arr : list (option string)) (v : option string),
       votes stringifyText (stringifyText v) arr
       = Z.of_nat (List.length (filter (sameText v) arr)).
Proof.
  assert (I : forall v w : option string,
             stringifyText v = stringifyText w <-> v = w).
  { intros v w. split; [|now intros ->].
    destruct v as [a|], w as [b|]; simpl; intros H.
    - f_equal. now apply stringifyString_inj.
    - unfold stringifyString, quote in H. simpl in H. discriminate.
    - unfold stringifyString, quote in H. simpl in H. discriminate.
    - reflexivity. }
  split; [exact I|]. split.
  - intros v w. split; [|now intros ->].
    destruct v as [[]|], w as [[]|]; intros H; try reflexivity;
      vm_compute in H; discriminate.
  - intros arr v. unfold votes. f_equal.
    induction arr as [|w r IH]; simpl; [reflexivity|].
    assert (E : (stringifyText w =? stringifyText v)%string = sameText v w).
    { destruct (String.eqb_spec (stringifyText w) (stringifyText v)) as [E|N].
      - apply I in E. subst w. destruct v as [a|]; simpl; [|reflexivity].
        now rewrite String.eqb_refl.
      - destruct v as [a|], w as [b|]; simpl; try reflexivity.
        + destruct (String.eqb_spec a b) as [->|_]; [contradiction|reflexivity].
        + contradiction. }
    rewrite E. destruct (sameText v w); simpl; now rewrite IH.
Qed.

(** [JSON.parse] reads back the text that [JSON.stringify] writes
    for a string: every string over code units below 256, control
    characters, quotes and backslashes included. *)
Lemma parse_reads_back_a_stringified_string :
  forall s : string, parse (stringifyString s) = Some (JString s).
Proof.
  intros s. unfold parse, parseWith.
  assert (F : exists fuel,
             (2 * String.length (stringifyString s) + 2)%nat = S fuel).
  { exists (S (2 * String.length (stringifyString s)))%nat. lia. }
  destruct F as [fuel ->].
  unfold stringifyString. unfold quote at 1.
  cbn [String.append skipWs isJsonWs code]. cbn [parseValue].
  change (String.append (escape s) quote) with (escape s ++ quote ++ "").
  cbn -[stringBody escape String.append]. rewrite stringBody_escape.
  reflexivity.
Qed.

(** ** needsConsensus *)

Lemma set_keys {V} k (v : V) m :
  map fst (JsMap.set k v m) = JsSet.add (map fst m) k.
Proof.
  unfold JsSet.add, JsSet.has.
  induction m as [|[k' v'] r IH]; simpl; [reflexivity|].
  destruct (k =? k')%string; simpl; [reflexivity|].
  rewrite IH. now destruct (existsb (String.eqb k) (map fst r)).
Qed.

Lemma get_of_In {V} k (v : V) m :
  NoDup (map fst m) -> In (k, v) m -> JsMap.get k m = Some v.
Proof.
  induction m as [|[k' v'] r IH]; simpl; [tauto|].
  intros N H. inversion N as [|? ? Nk Nr]; subst.
  destruct H as [[= -> ->] | H].
  - now rewrite String.eqb_refl.
  - destruct (String.eqb_spec k k') as [->|_]; [|now apply IH].
    exfalso. apply Nk. apply in_map_iff. now exists (k', v).
Qed.

Lemma countNeed_keys phrases : forall counts,
  map fst (fold_left countNeed phrases counts)
  = fold_left JsSet.add (tokensOf phrases) (map fst counts).
Proof.
  unfold tokensOf.
  induction phrases as [|n r IH]; intros counts; simpl; [reflexivity|].
  rewrite IH. unfold countNeed.
  destruct (isEmpty (trim (toLowerCase n))); simpl; [reflexivity|].
  now rewrite set_keys.
Qed.

Lemma countNeeds_keys allNeeds :
  map fst (countNeeds allNeeds) = keepFirst (allTokens allNeeds).
Proof.
  rewrite <- ofList_keepFirst. unfold countNeeds, allTokens, JsSet.ofList.
  change (@nil string) with (map fst (@nil (string * Z))).
  generalize (@nil (string * Z)).
  induction allNeeds as [|l r IH]; intros counts; simpl; [reflexivity|].
  now rewrite IH, fold_left_app, countNeed_keys.
Qed.

Lemma countNeed_count t phrases : forall counts,
  JsMap.count t (fold_left countNeed phrases counts)
  = JsMap.count t counts
    + Z.of_nat (List.length (filter (String.eqb t) (tokensOf phrases))).
Proof.
  unfold tokensOf.
  induction phrases as [|n r IH]; intros counts; simpl; [lia|].
  rewrite IH, count_countNeed. unfold occurs.
  destruct (isEmpty (trim (toLowerCase n))); simpl; [lia|].
  destruct (t =? trim (toLowerCase n))%string; simpl List.length; lia.
Qed.

Lemma countNeeds_count t allNeeds :
  JsMap.count t (countNeeds allNeeds) = mentions t allNeeds.
Proof.
  unfold countNeeds, mentions, allTokens.
  change (Z.of_nat
            (List.length (filter (String.eqb t) (flat_map tokensOf allNeeds))))
    with (JsMap.count t []
          + Z.of_nat
              (List.length
                 (filter (String.eqb t) (flat_map tokensOf allNeeds)))).
  generalize (@nil (string * Z)).
  induction allNeeds as [|l r IH]; intros counts; simpl; [lia|].
  rewrite IH, countNeed_count, filter_app, length_app. lia.
Qed.

Lemma mentions_positive t allNeeds :
  In t (allTokens allNeeds) <-> 0 < mentions t allNeeds.
Proof.
  unfold mentions. induction (allTokens allNeeds) as [|x r IH]; simpl.
  - split; [tauto | lia].
  - destruct (String.eqb_spec t x) as [->|N]; simpl List.length.
    + split; [lia | now left].
    + rewrite <- IH. split; [intros [E | H]; [congruence | exact H] | tauto].
Qed.

(** The entries of the map of counts: each token once, with the number
    of times it is named. *)
Lemma countNeeds_entries allNeeds t c :
  In (t, c) (countNeeds allNeeds) ->
  In t (allTokens allNeeds) /\ c = mentions t allNeeds.
Proof.
  intros H. split.
  - apply keepFirst_incl. rewrite <- countNeeds_keys.
    apply in_map_iff. now exists (t, c).
  - rewrite <- countNeeds_count. unfold JsMap.count.
    rewrite (get_of_In t c); [reflexivity | | exact H].
    rewrite countNeeds_keys. apply keepFirst_NoDup.
Qed.

Lemma countNeeds_entry allNeeds t :
  In t (allTokens allNeeds) ->
  In (t, mentions t allNeeds) (countNeeds allNeeds).
Proof.
  intros H. apply keepFirst_incl in H. rewrite <- countNeeds_keys in H.
  apply in_map_iff in H. destruct H as ([t' c] & E & H). simpl in E. subst t'.
  destruct (countNeeds_entries _ _ _ H) as [_ ->]. exact H.
Qed.

Lemma NoDup_map_filter {A B} (f : A -> B) p l :
  NoDup (map f l) -> NoDup (map f (filter p l)).
Proof.
  induction l as [|x r IH]; simpl; [tauto|].
  intros N. inversion N as [|? ? Nx Nr]; subst.
  destruct (p x); simpl; [|now apply IH].
  constructor; [|now apply IH].
  intros H. apply Nx. apply in_map_iff in H. destruct H as (y & E & Hy).
  apply filter_In in Hy. apply in_map_iff. exists y. tauto.
Qed.

Lemma NoDup_map_firstn {A B} (f : A -> B) n : forall l,
  NoDup (map f l) -> NoDup (map f (firstn n l)).
Proof.
  induction n as [|n IH]; intros [|x r]; simpl; try constructor.
  - inversion H as [|? ? Nx Nr]; subst. intros H'. apply Nx.
    apply in_map_iff in H'. destruct H' as (y & E & Hy).
    apply firstn_In in Hy. apply in_map_iff. now exists y.
  - inversion H; subst. now apply IH.
Qed.

Lemma StronglySorted_firstn {A} (R : A -> A -> Prop) n : forall l,
  StronglySorted R l -> StronglySorted R (firstn n l).
Proof.
  induction n as [|n IH]; intros [|x r] S; simpl; try constructor.
  - inversion S; subst. now apply IH.
  - inversion S as [|? ? Sr Fx]; subst. rewrite Forall_forall in *.
    intros y Hy. apply Fx. now apply firstn_In in Hy.
Qed.

(** In a sorted list an entry that is not among the first [n] comes
    after each of them. *)
Lemma StronglySorted_beyond {A} (R : A -> A -> Prop) n : forall l x y,
  StronglySorted R l -> In x (firstn n l) -> In y l -> ~ In y (firstn n l) ->
  R x y.
Proof.
  induction n as [|n IH]; intros [|a r] x y S Hx Hy Ny; simpl in *;
    try contradiction.
  inversion S as [|? ? Sr Fa]; subst. rewrite Forall_forall in Fa.
  destruct Hy as [-> | Hy]; [tauto|].
  destruct Hx as [-> | Hx]; [now apply Fa|].
  apply (IH r); tauto.
Qed.

Section ConsensusFacts.
Variable allNeeds : list (list string).
Variable k : Z.

Let counts := countNeeds allNeeds.
Let entries := sort (fun a b : string * Z => snd b - snd a) counts.
Let threshold := (k + 1) / 2.
Let passing := filter (fun e : string * Z => threshold <=? snd e) entries.

Lemma entries_perm : Permutation entries counts.
Proof. apply sort_perm. Qed.

Lemma entries_sorted :
  StronglySorted (fun a b : string * Z => snd b <= snd a) entries.
Proof.
  assert (S : StronglySorted
                (fun a b : string * Z => snd b - snd a <= 0) entries)
    by (apply sort_sorted;
        [intros a b H; clear - H; lia
        | intros a b c H1 H2; clear - H1 H2; lia]).
  induction S as [|e r Sr IH Fe]; constructor; [exact IH|].
  eapply Forall_impl; [|exact Fe]. intros a H. simpl in H. clear - H. lia.
Qed.

Lemma entries_keys_NoDup : NoDup (map fst entries).
Proof.
  apply (Permutation_NoDup
           (Permutation_sym (Permutation_map fst entries_perm))).
  unfold counts. rewrite countNeeds_keys. apply keepFirst_NoDup.
Qed.

Lemma entries_In e :
  In e entries ->
  In (fst e) (allTokens allNeeds) /\ snd e = mentions (fst e) allNeeds.
Proof.
  intros H. apply (Permutation_in _ entries_perm) in H.
  destruct e as [t c]. now apply countNeeds_entries.
Qed.

Lemma entries_token t :
  In t (allTokens allNeeds) -> In (t, mentions t allNeeds) entries.
Proof.
  intros H. apply (Permutation_in _ (Permutation_sym entries_perm)).
  now apply countNeeds_entry.
Qed.

Lemma chosen_cases :
  fst (needsConsensus allNeeds k)
  = match map fst passing with
    | [] => map fst (firstn 3 entries)
    | _ :: _ => map fst passing
    end.
Proof. reflexivity. Qed.

Lemma chosen_sublist :
  exists l, fst (needsConsensus allNeeds k) = map fst l
            /\ NoDup (map fst l)
            /\ StronglySorted (fun a b : string * Z => snd b <= snd a) l
            /\ forall e, In e l -> In e entries.
Proof.
  rewrite chosen_cases.
  destruct (map fst passing) as [|t r] eqn:E.
  - exists (firstn 3 entries). split; [reflexivity|]. split; [|split].
    + apply NoDup_map_firstn, entries_keys_NoDup.
    + apply StronglySorted_firstn, entries_sorted.
    + intros e. apply firstn_In.
  - exists passing. split; [now rewrite E|]. split; [|split].
    + apply NoDup_map_filter, entries_keys_NoDup.
    + apply StronglySorted_filter, entries_sorted.
    + intros e H. now apply filter_In in H.
Qed.

Lemma passing_In t :
  In t (map fst passing)
  <-> In t (allTokens allNeeds) /\ threshold <= mentions t allNeeds.
Proof.
  split.
  - intros H. apply in_map_iff in H. destruct H as ([t' c] & E & H).
    simpl in E. subst t'. apply filter_In in H. destruct H as [H P].
    apply entries_In in H. simpl in *. destruct H as [H ->].
    split; [exact H | now apply Z.leb_le].
  - intros [H P]. apply in_map_iff. exists (t, mentions t allNeeds).
    split; [reflexivity|]. apply filter_In. split;
      [now apply entries_token | now apply Z.leb_le].
Qed.
End ConsensusFacts.

(** X12.  The needs that [needsConsensus] returns are tokens named by
    the candidates, each once, the most named first; there is none exactly
    when no candidate names a need that is not blank. *)
Theorem needsConsensus_returns_distinct_named_tokens :
  forall (allNeeds : list (list string)) (k : Z),
    let chosen := fst (needsConsensus allNeeds k) in
    NoDup chosen
    /\ (forall t, In t chosen -> In t (allTokens allNeeds))
    /\ StronglySorted
         (fun a b => mentions b allNeeds <= mentions a allNeeds) chosen
    /\ (chosen = [] <-> allTokens allNeeds = []).
Proof.
  intros allNeeds k chosen.
  destruct (chosen_sublist allNeeds k) as (l & E & N & S & I).
  fold chosen in E. split; [now rewrite E|]. split; [|split].
  - intros t H. rewrite E in H. apply in_map_iff in H.
    destruct H as (e & <- & H). now apply (entries_In allNeeds), I.
  - rewrite E.
    apply (StronglySorted_map_on
             (fun a b : string * Z => snd b <= snd a) _
             (fun e => In e (sort (fun a b : string * Z => snd b - snd a)
                               (countNeeds allNeeds)))).
    + intros a b Ha Hb H.
      apply (entries_In allNeeds) in Ha, Hb.
      destruct Ha as [_ Ha], Hb as [_ Hb]. now rewrite <- Ha, <- Hb.
    + apply Forall_forall. exact I.
    + exact S.
  - unfold chosen. rewrite chosen_cases. split.
    + intros H.
      destruct (allTokens allNeeds) as [|t r] eqn:T; [reflexivity|].
      exfalso.
      assert (Ht : In t (allTokens allNeeds)) by (rewrite T; now left).
      apply (entries_token allNeeds) in Ht.
      destruct (map fst (filter _ _)); [|discriminate].
      destruct (sort _ _); [destruct Ht | discriminate].
    + intros T.
      assert (Z : sort (fun a b : string * Z => snd b - snd a)
                    (countNeeds allNeeds) = []).
      { destruct (sort _ _) as [|e r] eqn:Se; [reflexivity|]. exfalso.
        assert (He : In e (sort (fun a b : string * Z => snd b - snd a)
                             (countNeeds allNeeds)))
          by (rewrite Se; now left).
        apply (entries_In allNeeds) in He. rewrite T in He. tauto. }
      rewrite Z. reflexivity.
Qed.

(** X13.  When some token is named at least [ceil(k/2)] times, the
    needs returned are exactly the tokens named that often.  When none is,
    the needs returned are at most three, and no token left out is named
    more often than one returned. *)
Theorem needsConsensus_threshold_or_top_three :
  forall (allNeeds : list (list string)) (k : Z),
    let chosen := fst (needsConsensus allNeeds k) in
    let reaches t :=
      In t (allTokens allNeeds) /\ (k + 1) / 2 <= mentions t allNeeds in
    ((exists t, reaches t) -> forall t, In t chosen <-> reaches t)
    /\ ((forall t, ~ reaches t) ->
        (List.length chosen <= 3)%nat
        /\ forall t u,
             In t chosen -> In u (allTokens allNeeds) -> ~ In u chosen ->
             mentions u allNeeds <= mentions t allNeeds).
Proof.
  intros allNeeds k chosen reaches. unfold chosen. rewrite chosen_cases.
  split.
  - intros (t0 & H0) t. apply (passing_In allNeeds k) in H0.
    destruct (map fst (filter _ _)) as [|x r] eqn:E; [destruct H0|].
    rewrite <- E. apply passing_In.
  - intros None.
    assert (E : map fst
                  (filter (fun e : string * Z => (k + 1) / 2 <=? snd e)
                     (sort (fun a b : string * Z => snd b - snd a)
                        (countNeeds allNeeds))) = []).
    { destruct (map fst (filter _ _)) as [|x r] eqn:E; [reflexivity|].
      exfalso. apply (None x). apply passing_In. rewrite E. now left. }
    rewrite E. split.
    + rewrite length_map. apply firstn_le_length.
    + intros t u Ht Hu Nu.
      apply in_map_iff in Ht. destruct Ht as ([t' c] & Et & Ht).
      simpl in Et. subst t'.
      pose proof (entries_token allNeeds u Hu) as Hu'.
      assert (Nu' : ~ In (u, mentions u allNeeds)
                      (firstn 3 (sort (fun a b : string * Z => snd b - snd a)
                                   (countNeeds allNeeds)))).
      { intros H. apply Nu. apply in_map_iff. now exists (u, mentions u allNeeds). }
      pose proof (StronglySorted_beyond _ 3 _ _ _ (entries_sorted allNeeds k)
                    Ht Hu' Nu') as L.
      simpl in L. apply firstn_In, (entries_In allNeeds) in Ht.
      simpl in Ht. destruct Ht as [_ <-]. exact L.
Qed.

(** Witness of X13. *)
Lemma needsConsensus_threshold_or_top_three_witness :
  In "medical" (fst (needsConsensus (needs_ threeCandidates) 3))
  <-> In "medical" (allTokens (needs_ threeCandidates))
      /\ (3 + 1) / 2 <= mentions "medical" (needs_ threeCandidates).
Proof.
  apply (needsConsensus_threshold_or_top_three (needs_ threeCandidates) 3).
  exists "medical". split; [vm_compute; tauto | vm_compute; discriminate].
Defined.

(** ** makeKey and minuteBucket *)

Lemma byCodeUnits_antisym a b :
  byCodeUnits a b <= 0 -> byCodeUnits b a <= 0 -> a = b.
Proof.
  unfold byCodeUnits. rewrite (String.compare_antisym b a).
  destruct (String.compare a b) eqn:E; simpl; try lia.
  intros _ _. now apply String.compare_eq_iff.
Qed.

(** X14.  The bucket key of a report does not depend on the order in
    which its needs are listed, nor on the case and the surrounding white
    space of its needs and of its location. *)
Theorem makeKey_ignores_order_case_and_blanks :
  forall Date_parse (r r' : ExtractedReport) (ns ns' : list string),
    needs r = Some ns ->
    needs r' = Some ns' ->
    Permutation (map (fun n => trim (toLowerCase n)) ns)
      (map (fun n => trim (toLowerCase n)) ns') ->
    norm (location_text r) = norm (location_text r') ->
    time_iso r = time_iso r' ->
    severity r = severity r' ->
    dedupe_key r = dedupe_key r' ->
    makeKey Date_parse r = makeKey Date_parse r'.
Proof.
  intros dp r r' ns ns' N N' P L T S D. unfold makeKey.
  rewrite N, N', L, T, S, D.
  rewrite (sort_perm_eq byCodeUnits byCodeUnits_total byCodeUnits_trans
             byCodeUnits_antisym _ _ P).
  reflexivity.
Qed.

(** Witness of X14. *)
Lemma makeKey_ignores_order_case_and_blanks_witness :
  makeKey noDate
    {| location_text := Some "Pine St"; time_iso := None;
       severity := Some "high"; needs := Some ["Water"; "medical "];
       dedupe_key := None; notes := Some "tree down" |}
  = makeKey noDate
      {| location_text := Some " pine st"; time_iso := None;
         severity := Some "high"; needs := Some ["Medical"; "water"];
         dedupe_key := None; notes := None |}.
Proof.
  apply (makeKey_ignores_order_case_and_blanks noDate _ _
           ["Water"; "medical "] ["Medical"; "water"]);
    try reflexivity.
  apply perm_swap.
Defined.

(** X15.  An explicit dedupe key decides the bucket: two reports whose
    keys agree up to case and surrounding white space share a bucket
    whatever their other fields, and a report with an explicit key never
    shares a bucket with a report without one. *)
Theorem dedupe_key_decides_the_bucket :
  forall Date_parse (r r' : ExtractedReport) (d : string),
    dedupe_key r = Some d ->
    isEmpty d = false ->
    (forall d', dedupe_key r' = Some d' -> isEmpty d' = false ->
                norm (Some d) = norm (Some d') ->
                makeKey Date_parse r = makeKey Date_parse r')
    /\ (dedupe_key r' = None \/ dedupe_key r' = Some "" ->
        makeKey Date_parse r <> makeKey Date_parse r').
Proof.
  intros dp r r' d D E. split.
  - intros d' D' E' N. unfold makeKey. rewrite D, D', E, E'. now rewrite N.
  - intros [D' | D']; unfold makeKey; rewrite D, D', E; simpl; discriminate.
Qed.

(** Witness of X15. *)
Lemma dedupe_key_decides_the_bucket_witness :
  makeKey noDate
    {| location_text := Some "Pine St"; time_iso := None;
       severity := Some "high"; needs := Some ["medical"];
       dedupe_key := Some "Pine-1 "; notes := None |}
  = makeKey noDate
      {| location_text := Some "Oak Ave"; time_iso := None;
         severity := Some "low"; needs := None;
         dedupe_key := Some "pine-1"; notes := None |}.
Proof.
  apply (dedupe_key_decides_the_bucket noDate
           {| location_text := Some "Pine St"; time_iso := None;
              severity := Some "high"; needs := Some ["medical"];
              dedupe_key := Some "Pine-1 "; notes := None |}
           {| location_text := Some "Oak Ave"; time_iso := None;
              severity := Some "low"; needs := None;
              dedupe_key := Some "pine-1"; notes := None |}
           "Pine-1 " eq_refl eq_refl) with (d' := "pine-1"); reflexivity.
Defined.

(** X16.  Two valid times in the same minute fall in the same minute
    bucket, whatever their seconds and milliseconds. *)
Theorem minuteBucket_ignores_seconds :
  forall Date_parse (a b : string) (t t' : Z),
    isEmpty a = false ->
    isEmpty b = false ->
    Date_parse a = Some t ->
    Date_parse b = Some t' ->
    t / 60000 = t' / 60000 ->
    minuteBucket Date_parse (Some a) = minuteBucket Date_parse (Some b).
Proof.
  intros dp a b t t' Ea Eb Ha Hb Q. unfold minuteBucket.
  rewrite Ea, Eb, Ha, Hb.
  assert (D : forall x, x / msPerDay = x / 60000 / 1440).
  { intros x. unfold msPerDay. rewrite Z.div_div by lia. reflexivity. }
  assert (M : forall x, x mod msPerDay / 60000 = (x / 60000) mod 1440).
  { intros x. unfold msPerDay.
    change 86400000 with (60000 * 1440).
    rewrite Z.rem_mul_r by lia.
    rewrite Z.mul_comm, Z.div_add by lia.
    rewrite Z.div_small by (apply Z.mod_pos_bound; lia). reflexivity. }
  assert (H : forall x, x mod msPerDay / 3600000
                        = (x / 60000) mod 1440 / 60).
  { intros x. rewrite <- M. rewrite Z.div_div by lia. reflexivity. }
  rewrite (D t), (D t'), (H t), (H t'), (M t), (M t'), Q.
  reflexivity.
Qed.

(** Witness of X16. *)
Lemma minuteBucket_ignores_seconds_witness :
  minuteBucket (fun s => if (s =? "a")%string then Some 60001 else Some 119999)
    (Some "a")
  = minuteBucket
      (fun s => if (s =? "a")%string then Some 60001 else Some 119999)
      (Some "b").
Proof.
  apply (minuteBucket_ignores_seconds
           (fun s => if (s =? "a")%string then Some 60001 else Some 119999)
           "a" "b" 60001 119999); reflexivity.
Defined.

(* ================================================================== *)
(** * Further properties of the salvage helpers *)
(* ================================================================== *)

Import TextSpec.

(** ** stripCodeFences *)

(** The replacement, without its fuel. *)
Lemma stripCodeFences_step s :
  stripCodeFences s
  = match matchFence s with
    | Some (cap, rest) => cap ++ stripCodeFences rest
    | None =>
        match s with
        | EmptyString => EmptyString
        | String a r => String a (stripCodeFences r)
        end
    end.
Proof.
  unfold stripCodeFences at 1. cbn [replaceFences].
  destruct (matchFence s) as [[cap rest]|] eqn:M.
  - apply matchFence_length in M.
    now rewrite (stripCodeFences_enough_fuel rest (String.length s) M).
  - destruct s as [|a r]; reflexivity.
Qed.

Lemma matchFence_noTick a r :
  Ascii.eqb a "`" = false -> matchFence (String a r) = None.
Proof.
  intros H. unfold matchFence, fence. cbn [startsWith].
  now rewrite Ascii.eqb_sym, H.
Qed.

Lemma stripCodeFences_noTick s : noTick s = true -> stripCodeFences s = s.
Proof.
  induction s as [|a r IH]; intros H; [reflexivity|].
  cbn [noTick every] in H. apply andb_prop in H. destruct H as [Ha Hr].
  apply negb_true_iff in Ha.
  rewrite stripCodeFences_step, (matchFence_noTick a r Ha).
  now rewrite (IH Hr).
Qed.

Lemma stripCodeFences_prefix pre s :
  noTick pre = true -> stripCodeFences (pre ++ s) = pre ++ stripCodeFences s.
Proof.
  induction pre as [|a r IH]; intros H; [reflexivity|].
  cbn [noTick every] in H. apply andb_prop in H. destruct H as [Ha Hr].
  apply negb_true_iff in Ha. cbn [String.append].
  rewrite stripCodeFences_step, (matchFence_noTick a _ Ha).
  now rewrite (IH Hr).
Qed.

Lemma trimStart_allWs ws t :
  allWs ws = true -> trimStart (ws ++ t) = trimStart t.
Proof.
  induction ws as [|a r IH]; intros H; [reflexivity|].
  cbn [allWs every] in H. apply andb_prop in H. destruct H as [Ha Hr].
  cbn [String.append trimStart]. rewrite Ha. now apply IH.
Qed.

Lemma closeFence_end ws post :
  allWs ws = true -> closeFence (ws ++ fence ++ post) = Some post.
Proof.
  intros H. unfold closeFence. rewrite (trimStart_allWs _ _ H).
  reflexivity.
Qed.

Lemma closeFence_solid u rest :
  noTick u = true -> endsSolid u = true -> closeFence (u ++ rest) = None.
Proof.
  intros T S. unfold closeFence.
  enough (E : startsWith fence (trimStart (u ++ rest)) = false)
    by now rewrite E.
  induction u as [|a u IH]; [discriminate|].
  cbn [noTick every] in T. apply andb_prop in T. destruct T as [Ta Tu].
  apply negb_true_iff in Ta.
  cbn [String.append trimStart]. destruct (isWs a) eqn:Wa.
  - apply IH; [exact Tu|]. destruct u as [|b u']; [|exact S].
    simpl in S. rewrite Wa in S. discriminate.
  - unfold fence. cbn [startsWith]. now rewrite Ascii.eqb_sym, Ta.
Qed.

Lemma lazyCapture_body body ws post :
  noTick body = true ->
  body = "" \/ endsSolid body = true ->
  allWs ws = true ->
  lazyCapture (body ++ ws ++ fence ++ post) = Some (body, post).
Proof.
  intros T S W. induction body as [|a b IH].
  - cbn [String.append]. destruct (ws ++ fence ++ post) eqn:E;
      cbn [lazyCapture]; rewrite <- E, (closeFence_end _ _ W); reflexivity.
  - destruct S as [S | S]; [discriminate|].
    cbn [String.append lazyCapture].
    change (String a (b ++ ws ++ fence ++ post))
      with (String a b ++ ws ++ fence ++ post).
    rewrite (closeFence_solid _ _ T S).
    cbn [noTick every] in T. apply andb_prop in T. destruct T as [_ Tb].
    cbn [String.append]. rewrite IH; [reflexivity | exact Tb |].
    destruct b as [|c b']; [now left | right; exact S].
Qed.

Lemma wsThenCapture_allWs ws t r :
  allWs ws = true -> wsThenCapture t = Some r ->
  wsThenCapture (ws ++ t) = Some r.
Proof.
  intros H R. induction ws as [|a w IH]; [exact R|].
  cbn [allWs every] in H. apply andb_prop in H. destruct H as [Ha Hw].
  cbn [String.append wsThenCapture]. rewrite Ha. now rewrite (IH Hw).
Qed.

Lemma endsSolid_trimEnd s : trimEnd s = "" \/ endsSolid (trimEnd s) = true.
Proof.
  induction s as [|c r IH]; [now left|].
  rewrite trimEnd_cons. destruct (trimEnd r) as [|d r'] eqn:E.
  - destruct (isWs c) eqn:W; [now left | right]. simpl. now rewrite W.
  - right. destruct IH as [IH | IH]; [discriminate | exact IH].
Qed.

Lemma trimmed_shape body :
  trim body = body ->
  body = ""
  \/ (exists c r, body = String c r /\ isWs c = false)
     /\ endsSolid body = true.
Proof.
  intros H. destruct body as [|c r] eqn:B; [now left | right].
  rewrite <- B in *. split.
  - destruct (trimStart_shape body) as [E | (c' & r' & E & W)].
    + unfold trim in H. rewrite E in H. simpl in H. congruence.
    + destruct (trimEnd_head c' r' W) as (r'' & E').
      unfold trim in H. rewrite E, E' in H. now exists c', r''.
  - destruct (endsSolid_trimEnd (trimStart body)) as [E | E];
      fold (trim body) in E; rewrite H in E; [congruence | exact E].
Qed.

Lemma wsThenCapture_body body ws post :
  noTick body = true -> trim body = body -> allWs ws = true ->
  wsThenCapture (body ++ ws ++ fence ++ post) = Some (body, post).
Proof.
  intros T B W.
  destruct (trimmed_shape body B) as [-> | [(c & r & -> & Wc) S]].
  - cbn [String.append]. apply wsThenCapture_allWs; [exact W|].
    reflexivity.
  - cbn [String.append wsThenCapture]. rewrite Wc.
    change (String c (r ++ ws ++ fence ++ post))
      with (String c r ++ ws ++ fence ++ post).
    apply lazyCapture_body; [exact T | now right | exact W].
Qed.

Lemma startsWithCI_json tag rest :
  toLowerCase tag = "json" ->
  startsWithCI "json" (tag ++ rest) = true /\ drop 4 (tag ++ rest) = rest.
Proof.
  destruct tag as [|a [|b [|c [|d [|e t]]]]]; try discriminate.
  simpl. intros [= Ha Hb Hc Hd]. rewrite Ha, Hb, Hc, Hd. now split.
Qed.

(** X17.  [stripCodeFences] unwraps a fenced block: for a text made of
    prose, a fence tagged json in any case, a body and a closing fence, with
    white space around the body and no backtick elsewhere, what is left is
    the prose with the body in place of the block.  A text without a
    backtick is left as it is. *)
Theorem stripCodeFences_unwraps_a_fenced_block :
  forall pre tag ws body ws' post : string,
    noTick pre = true ->
    toLowerCase tag = "json" ->
    allWs ws = true ->
    noTick body = true ->
    trim body = body ->
    allWs ws' = true ->
    noTick post = true ->
    stripCodeFences
      (pre ++ fence ++ tag ++ ws ++ body ++ ws' ++ fence ++ post)
    = pre ++ body ++ post
    /\ stripCodeFences (pre ++ body ++ post) = pre ++ body ++ post.
Proof.
  intros pre tag ws body ws' post Tpre Tag W Tb B W' Tpost. split.
  - rewrite (stripCodeFences_prefix _ _ Tpre). f_equal.
    rewrite stripCodeFences_step.
    assert (M : matchFence
                  (fence ++ tag ++ ws ++ body ++ ws' ++ fence ++ post)
                = Some (body, post)).
    { unfold matchFence.
      change (startsWith fence (fence ++ tag ++ ws ++ body ++ ws' ++ fence ++ post))
        with true.
      change (drop 3 (fence ++ tag ++ ws ++ body ++ ws' ++ fence ++ post))
        with (tag ++ ws ++ body ++ ws' ++ fence ++ post).
      cbv iota.
      destruct (startsWithCI_json tag (ws ++ body ++ ws' ++ fence ++ post) Tag)
        as [-> ->].
      rewrite (wsThenCapture_allWs ws _ (body, post) W);
        [reflexivity|].
      now apply wsThenCapture_body. }
    rewrite M. now rewrite (stripCodeFences_noTick _ Tpost).
  - rewrite (stripCodeFences_prefix _ _ Tpre). f_equal.
    apply stripCodeFences_noTick.
    clear - Tb Tpost. induction body as [|a b IH]; [exact Tpost|].
    cbn [noTick every] in Tb. apply andb_prop in Tb. destruct Tb as [Ta Tb].
    cbn [String.append noTick every]. rewrite Ta. now apply IH.
Qed.

(** Witness of X17. *)
Lemma stripCodeFences_unwraps_a_fenced_block_witness :
  stripCodeFences pineStreet
  = lit "Here is the data:~{'reports':[{'location_text':'Pine St','severity':'high','needs':['medical']}]}".
Proof.
  refine (proj1 (stripCodeFences_unwraps_a_fenced_block
                   (lit "Here is the data:~") "json" (lit "~")
                   (lit "{'reports':[{'location_text':'Pine St','severity':'high','needs':['medical']}]}")
                   (lit "~") "" _ _ _ _ _ _ _)); reflexivity.
Defined.

(* ================================================================== *)
(** * Further properties of the ensemble handler *)
(* ================================================================== *)

Import MergeSpec.

(** ** The number of generation calls *)





Lemma turns_le samples fuel : forall i, (turns samples i fuel <= fuel)%nat.
Proof.
  induction fuel as [|fuel IH]; intros i; simpl; [lia|].
  destruct (SFltb _ _); [specialize (IH (i + 1)) |]; lia.
Qed.




Lemma sampleCount_le body : 0 <= sampleCount body <= 6.
Proof.
  unfold sampleCount. pose proof (turns_le (clampSamples body) 6 0). lia.
Qed.






(** ** Buckets *)

Lemma has_keepFirst x l : JsSet.has x (keepFirst l) = JsSet.has x l.
Proof.
  destruct (JsSet.has x l) eqn:E.
  - apply existsb_exists in E. destruct E as (y & Hy & E).
    apply existsb_exists. exists y.
    split; [now apply (proj2 (keepFirst_incl l y)) | exact E].
  - destruct (JsSet.has x (keepFirst l)) eqn:F; [|reflexivity].
    apply existsb_exists in F. destruct F as (y & Hy & F).
    apply (proj1 (keepFirst_incl l y)) in Hy.
    assert (T : JsSet.has x l = true) by (apply existsb_exists; now exists y).
    congruence.
Qed.

Lemma keepFirst_snoc l x : keepFirst (l ++ [x]) = JsSet.add (keepFirst l) x.
Proof.
  rewrite <- !ofList_keepFirst. unfold JsSet.ofList.
  now rewrite fold_left_app.
Qed.

Lemma has_In x l : JsSet.has x l = true <-> In x l.
Proof.
  unfold JsSet.has. rewrite existsb_exists. split.
  - intros (y & Hy & E). apply String.eqb_eq in E. now subst.
  - intros H. exists x. split; [exact H | apply String.eqb_refl].
Qed.

Section TableFacts.
Context {V : Type}.

Lemma get_table (f : string -> V) k keys :
  JsMap.get k (map (fun key => (key, f key)) keys)
  = if JsSet.has k keys then Some (f k) else None.
Proof.
  unfold JsSet.has. induction keys as [|k' r IH]; simpl; [reflexivity|].
  destruct (String.eqb_spec k k') as [->|N]; simpl; [reflexivity | exact IH].
Qed.

Lemma add_cons k k' r :
  (k =? k')%string = false -> JsSet.add (k' :: r) k = k' :: JsSet.add r k.
Proof.
  intros N. unfold JsSet.add, JsSet.has. simpl. rewrite N. simpl.
  now destruct (existsb (String.eqb k) r).
Qed.

Lemma set_table (f f' : string -> V) k v keys :
  NoDup keys ->
  f' k = v ->
  (forall key, key <> k -> f' key = f key) ->
  JsMap.set k v (map (fun key => (key, f key)) keys)
  = map (fun key => (key, f' key)) (JsSet.add keys k).
Proof.
  intros N Hk Ho. induction keys as [|k' r IH]; simpl.
  - now rewrite Hk.
  - inversion N as [|? ? Nk Nr]; subst.
    destruct (String.eqb_spec k k') as [<-|D].
    + unfold JsSet.add, JsSet.has. simpl. rewrite String.eqb_refl. simpl.
      f_equal. apply map_ext_in. intros key Hkey. f_equal. symmetry.
      apply Ho. intros ->. contradiction.
    + rewrite add_cons by now apply String.eqb_neq.
      simpl. rewrite (Ho k') by congruence. f_equal. now apply IH.
Qed.
End TableFacts.

Section BucketFacts.
Variable Date_parse : string -> option Z.

Lemma fold_bucketValue_None vs :
  fold_left (bucketValue Date_parse) vs None = None.
Proof. induction vs as [|v r IH]; simpl; [reflexivity | exact IH]. Qed.

Lemma fold_bucketValue vs : forall buckets,
  fold_left (bucketValue Date_parse) vs (Some buckets)
  = match decodeAll vs with
    | Some reps => Some (fold_left (bucketReport Date_parse) reps buckets)
    | None => None
    end.
Proof.
  induction vs as [|v r IH]; intros buckets; simpl; [reflexivity|].
  destruct (decodeReport v) as [rep|].
  - rewrite IH. now destruct (decodeAll r).
  - apply fold_bucketValue_None.
Qed.

Lemma bucketRuns_concat runs : forall acc,
  fold_left (fun acc run => fold_left (bucketValue Date_parse) run acc)
    runs acc
  = fold_left (bucketValue Date_parse) (List.concat runs) acc.
Proof.
  induction runs as [|run r IH]; intros acc; simpl; [reflexivity|].
  now rewrite IH, fold_left_app.
Qed.

Lemma group_snoc key p rep :
  group Date_parse key (p ++ [rep])
  = (group Date_parse key p
     ++ if (makeKey Date_parse rep =? key)%string then [rep] else [])%list.
Proof.
  unfold group. rewrite filter_app. simpl.
  now destruct (makeKey Date_parse rep =? key)%string.
Qed.

Lemma bucketOf_snoc key p rep :
  bucketOf Date_parse key (p ++ [rep])
  = if (makeKey Date_parse rep =? key)%string
    then pushReport (bucketOf Date_parse key p) rep
    else bucketOf Date_parse key p.
Proof.
  unfold bucketOf. rewrite group_snoc, fold_left_app.
  now destruct (makeKey Date_parse rep =? key)%string.
Qed.

Lemma group_nil key reps :
  JsSet.has key (map (makeKey Date_parse) reps) = false ->
  group Date_parse key reps = [].
Proof.
  unfold group, JsSet.has. induction reps as [|rep r IH]; simpl;
    [reflexivity|].
  intros H. apply orb_false_iff in H. destruct H as [H1 H2].
  rewrite String.eqb_sym, H1. now apply IH.
Qed.

Lemma group_nonempty key reps :
  In key (keysOf Date_parse reps) -> group Date_parse key reps <> [].
Proof.
  intros H. apply keepFirst_incl, in_map_iff in H.
  destruct H as (rep & E & H). intros G.
  assert (I : In rep (group Date_parse key reps)).
  { apply filter_In. split; [exact H|]. now apply String.eqb_eq. }
  rewrite G in I. destruct I.
Qed.

(** The map of buckets holds, for each key in order of first appearance,
    the reports with that key. *)
Lemma fold_bucketReport reps :
  fold_left (bucketReport Date_parse) reps []
  = map (fun key => (key, bucketOf Date_parse key reps))
      (keysOf Date_parse reps).
Proof.
  induction reps as [|rep p IH] using rev_ind; [reflexivity|].
  rewrite fold_left_app. cbn [fold_left]. rewrite IH.
  unfold bucketReport. rewrite get_table.
  set (k := makeKey Date_parse rep).
  assert (B : match
                (if JsSet.has k (keysOf Date_parse p)
                 then Some (bucketOf Date_parse k p) else None)
              with
              | Some b => b
              | None => emptyBucket
              end = bucketOf Date_parse k p).
  { unfold keysOf. rewrite has_keepFirst.
    destruct (JsSet.has k (map (makeKey Date_parse) p)) eqn:E; [reflexivity|].
    unfold bucketOf. now rewrite (group_nil _ _ E). }
  rewrite B. unfold keysOf at 2. rewrite map_app. cbn [map].
  rewrite keepFirst_snoc. fold (keysOf Date_parse p). fold k.
  apply set_table.
  - apply keepFirst_NoDup.
  - rewrite bucketOf_snoc. fold k. now rewrite String.eqb_refl.
  - intros key N. rewrite bucketOf_snoc. fold k.
    destruct (String.eqb_spec k key) as [E|_]; [congruence | reflexivity].
Qed.

Lemma bucketRuns_table runs :
  bucketRuns Date_parse runs
  = match reportsOf runs with
    | Some reps =>
        Some (map (fun key => (key, bucketOf Date_parse key reps))
                (keysOf Date_parse reps))
    | None => None
    end.
Proof.
  unfold bucketRuns, reportsOf.
  rewrite bucketRuns_concat, fold_bucketValue.
  destruct (decodeAll (List.concat runs)) as [reps|]; [|reflexivity].
  now rewrite fold_bucketReport.
Qed.

Lemma bucket_fields l : forall b,
  let b' := fold_left pushReport l b in
  locs b' = (locs b ++ map location_text l)%list
  /\ times b' = (times b ++ map time_iso l)%list
  /\ sevs b'
     = (sevs b ++ map (fun rep => knownSeverity (severity rep)) l)%list
  /\ needs_ b'
     = (needs_ b
        ++ map (fun rep => match needs rep with
                           | Some ns => ns
                           | None => []
                           end) l)%list
  /\ notes_ b' = (notes_ b ++ map notes l)%list
  /\ dedupe_keys b' = (dedupe_keys b ++ map dedupe_key l)%list.
Proof.
  induction l as [|rep r IH]; intros b; cbn [fold_left map].
  - now rewrite !app_nil_r.
  - specialize (IH (pushReport b rep)). cbv zeta in *.
    destruct IH as (H1 & H2 & H3 & H4 & H5 & H6).
    rewrite H1, H2, H3, H4, H5, H6. cbn [pushReport locs times sevs needs_
                                          notes_ dedupe_keys].
    now rewrite <- !app_assoc.
Qed.
End BucketFacts.

Lemma mergeFrom_Forall2 randomUUID k buckets : forall i,
  Forall2 (fun kb m => exists j, m = mergeBucket k (randomUUID j) (snd kb))
    buckets (mergeFrom randomUUID k i buckets).
Proof.
  induction buckets as [|[key b] r IH]; intros i; simpl; constructor.
  - now exists i.
  - apply IH.
Qed.

(** X19.  Reports are merged exactly by key: the handler answers with
    one merged report per distinct key, in the order in which the keys first
    appear in the runs, and each is voted over all the reports with that key
    and no other. *)
Theorem reports_are_merged_exactly_by_key :
  forall Date_parse randomUUID runs,
    bucketRuns Date_parse runs
    = match reportsOf runs with
      | Some reps =>
          Some (map (fun key => (key, bucketOf Date_parse key reps))
                  (keysOf Date_parse reps))
      | None => None
      end
    /\ forall merged,
         mergeRuns Date_parse randomUUID runs = Reports merged ->
         exists reps,
           reportsOf runs = Some reps
           /\ Forall2
                (fun key m =>
                   exists j,
                     m = mergeBucket (denominator runs) (randomUUID j)
                           (bucketOf Date_parse key reps))
                (keysOf Date_parse reps) merged.
Proof.
  intros dp uuid runs. split; [apply bucketRuns_table|].
  intros merged H. unfold mergeRuns in H. rewrite bucketRuns_table in H.
  destruct (reportsOf runs) as [reps|];
    [|now destruct (existsb _ runs)].
  injection H as <-. exists reps. split; [reflexivity|].
  pose proof (mergeFrom_Forall2 uuid (denominator runs)
                (map (fun key => (key, bucketOf dp key reps))
                   (keysOf dp reps)) 0) as F.
  remember (mergeFrom uuid (denominator runs) 0
              (map (fun key => (key, bucketOf dp key reps)) (keysOf dp reps)))
    as merged eqn:E. clear E.
  remember (keysOf dp reps) as keys eqn:K. clear K.
  revert merged F. induction keys as [|key r IH]; intros merged F;
    inversion F; subst; constructor.
  - assumption.
  - now apply IH.
Qed.

(** ** Where the merged values come from *)

Lemma majority_In {T} (stringify : option T -> string) arr :
  arr <> [] -> In (fst (majority stringify arr)) arr.
Proof.
  intros N. destruct (majority_tallied stringify arr) as (_ & _ & I3).
  fold (majority stringify arr) in I3.
  destruct I3 as [[E _] | (p1 & q1 & E & _)]; [contradiction|].
  rewrite E at 2. apply in_or_app. right. now left.
Qed.

Lemma needsConsensus_incl allNeeds k t :
  In t (fst (needsConsensus allNeeds k)) -> In t (allTokens allNeeds).
Proof.
  destruct (chosen_sublist allNeeds k) as (l & E & _ & _ & I).
  rewrite E. intros H. apply in_map_iff in H. destruct H as (e & <- & H).
  now apply (entries_In allNeeds), I.
Qed.

Lemma allTokens_group g :
  allTokens (map (fun rep => match needs rep with
                             | Some ns => ns
                             | None => []
                             end) g)
  = flat_map tokensOfReport g.
Proof.
  unfold allTokens. induction g as [|rep r IH]; simpl; [reflexivity|].
  rewrite IH. unfold tokensOfReport at 2.
  now destruct (needs rep).
Qed.

(** X20.  The merge invents nothing: in every merged report the
    location, the time, the severity, the notes and the dedupe key are those
    of some report with the key of the bucket (not always of the same one),
    and every need is a need token of such a report. *)
Theorem merged_values_come_from_the_candidates :
  forall Date_parse randomUUID runs merged,
    mergeRuns Date_parse randomUUID runs = Reports merged ->
    exists reps,
      reportsOf runs = Some reps
      /\ Forall
           (fun m =>
              exists key,
                let g := group Date_parse key reps in
                g <> []
                /\ In (Merged.location_text m) (map location_text g)
                /\ In (Merged.time_iso m) (map time_iso g)
                /\ In (Merged.severity m)
                     (map (fun rep => knownSeverity (severity rep)) g)
                /\ In (Merged.notes m) (map notes g)
                /\ In (Merged.dedupe_key m) (map dedupe_key g)
                /\ forall t, In t (Merged.needs m) ->
                             In t (flat_map tokensOfReport g))
           merged.
Proof.
  intros dp uuid runs merged H. unfold mergeRuns in H.
  rewrite bucketRuns_table in H.
  destruct (reportsOf runs) as [reps|];
    [|now destruct (existsb _ runs)].
  injection H as <-. exists reps. split; [reflexivity|].
  assert (K : Forall (fun key => In key (keysOf dp reps)) (keysOf dp reps))
    by now apply Forall_forall.
  revert K. generalize (keysOf dp reps) at 2 3 as keys. generalize 0%nat.
  intros i keys. revert i.
  induction keys as [|key r IH]; intros i K; cbn [map mergeFrom];
    constructor.
  - inversion K as [|? ? Hkey _]; subst.
    exists key. cbv zeta.
    pose proof (group_nonempty dp key reps Hkey) as G.
    destruct (bucket_fields (group dp key reps) emptyBucket)
      as (L & T & S & N & O & D).
    fold (bucketOf dp key reps) in L, T, S, N, O, D. simpl in L, T, S, N, O, D.
    assert (M : forall {A B} (f : A -> B) l, l <> [] -> map f l <> [])
      by (intros A B f [|x l] Hl; [contradiction | discriminate]).
    split; [exact G|].
    unfold mergeBucket. cbn [Merged.location_text Merged.time_iso
                             Merged.severity Merged.notes Merged.dedupe_key
                             Merged.needs].
    rewrite L, T, S, N, O, D.
    repeat split; try (apply majority_In; now apply M).
    intros t Ht. apply needsConsensus_incl in Ht.
    now rewrite allTokens_group in Ht.
  - apply IH. now inversion K.
Qed.

(** Witness of X20. *)
Lemma merged_values_come_from_the_candidates_witness :
  exists merged reps,
    mergeRuns noDate uuid (salvagedRuns (attemptsFrom proseThenJson O 2))
    = Reports merged
    /\ reportsOf (salvagedRuns (attemptsFrom proseThenJson O 2)) = Some reps
    /\ Forall
         (fun m =>
            exists key,
              let g := group noDate key reps in
              g <> []
              /\ In (Merged.location_text m) (map location_text g)
              /\ In (Merged.time_iso m) (map time_iso g)
              /\ In (Merged.severity m)
                   (map (fun rep => knownSeverity (severity rep)) g)
              /\ In (Merged.notes m) (map notes g)
              /\ In (Merged.dedupe_key m) (map dedupe_key g)
              /\ forall t, In t (Merged.needs m) ->
                           In t (flat_map tokensOfReport g))
         merged.
Proof.
  destruct (merged_values_come_from_the_candidates noDate uuid
              (salvagedRuns (attemptsFrom proseThenJson O 2))
              (mergeFrom uuid 1 0
                 [(makeKey noDate
                     {| location_text := Some "Pine St"; time_iso := None;
                        severity := Some "high"; needs := Some ["medical"];
                        dedupe_key := None; notes := None |},
                   pushReport emptyBucket
                     {| location_text := Some "Pine St"; time_iso := None;
                        severity := Some "high"; needs := Some ["medical"];
                        dedupe_key := None; notes := None |})])
              eq_refl) as (reps & R & F).
  eexists. exists reps. split; [reflexivity|]. split; [exact R | exact F].
Defined.

(* ================================================================== *)
(** * The single call and the ensemble *)
(* ================================================================== *)

Lemma attemptsFrom_const a n : forall i,
  attemptsFrom (fun _ => a) i n = repeat a n.
Proof.
  induction n as [|n IH]; intros i; simpl; [reflexivity | now rewrite IH].
Qed.

Lemma salvagedRuns_repeat_None a n :
  salvagedRun a = None -> salvagedRuns (repeat a n) = [].
Proof.
  intros H. induction n as [|n IH]; simpl; [reflexivity|]. now rewrite H.
Qed.

Lemma forallb_repeat {A} (p : A -> bool) a n :
  p a = true -> forallb p (repeat a n) = true.
Proof.
  intros H. induction n as [|n IH]; simpl; [reflexivity|]. now rewrite H.
Qed.

(** X21.  A reply without salvageable JSON (blank, or text in which no
    candidate parses) fails the single call with a 500 error, while the
    ensemble, given such a reply to every call, answers 200 with no
    report. *)
Theorem unsalvageable_reply_fails_the_single_call_only :
  forall OLLAMA_BASE Date_parse randomUUID thrown
         (txt : string) (count : option JsNumber.number)
         (model response : option string),
    isEmpty (trim txt) = false ->
    salvagedRun (Replied response) = None ->
    Extract.POST randomUUID thrown
      (Some {| Extract.text := Some txt; Extract.model := model |})
      (Replied response)
    = Extract.Failure 500 "Model did not return valid JSON"
    /\ Ensemble.POST OLLAMA_BASE Date_parse randomUUID
         (Some {| text := Some txt; samples := count |}) true
         (fun _ => Replied response)
       = Reports [].
Proof.
  intros base dp uuid thrown txt count model response T S. split.
  - unfold Extract.POST. cbn [Extract.text]. rewrite T.
    unfold salvagedRun, content in S.
    destruct (isEmpty (trim match response with
                            | Some x => x
                            | None => ""
                            end)) eqn:E.
    + destruct (trim match response with Some x => x | None => "" end);
        [reflexivity | discriminate].
    + now destruct (parseModelJson _).
  - unfold Ensemble.POST. cbn [text]. rewrite T. cbn [negb].
    rewrite generate_replies
      by (rewrite attemptsFrom_const; now apply forallb_repeat).
    rewrite attemptsFrom_const, (salvagedRuns_repeat_None _ _ S).
    reflexivity.
Qed.

(** Witness of X21. *)
Lemma unsalvageable_reply_fails_the_single_call_only_witness :
  Extract.POST uuid "fetch failed"
    (Some {| Extract.text := Some incident; Extract.model := None |})
    (Replied (Some "Sorry, I cannot help with that."))
  = Extract.Failure 500 "Model did not return valid JSON"
  /\ Ensemble.POST base noDate uuid (request 3) true
       (fun _ => Replied (Some "Sorry, I cannot help with that."))
     = Reports [].
Proof.
  apply (unsalvageable_reply_fails_the_single_call_only base noDate uuid
           "fetch failed" incident (Some (JsNumber.ofZ 3)) None
           (Some "Sorry, I cannot help with that.")); reflexivity.
Defined.

(** ** Unanimous runs *)


Lemma decodeAll_app a b :
  decodeAll (a ++ b)
  = match decodeAll a, decodeAll b with
    | Some x, Some y => Some (x ++ y)%list
    | _, _ => None
    end.
Proof.
  induction a as [|v a IH]; simpl.
  - now destruct (decodeAll b).
  - destruct (decodeReport v); [|reflexivity]. rewrite IH.
    destruct (decodeAll a), (decodeAll b); reflexivity.
Qed.





















(* ================================================================== *)
(** * The confidence of the needs *)
(* ================================================================== *)

Import NumberSpec.

(** ** Rounding keeps the sign *)

Lemma iter_pos_invariant {A} (f : A -> A) (P : A -> Prop) :
  (forall x, P x -> P (f x)) ->
  forall n x, P x -> P (iter_pos f n x).
Proof.
  intros H. induction n as [n IH | n IH |]; intros x Hx; simpl.
  - apply IH, IH, H, Hx.
  - apply IH, IH, Hx.
  - apply H, Hx.
Qed.

Lemma shr_1_nonneg r : 0 <= shr_m r -> 0 <= shr_m (shr_1 r).
Proof.
  destruct r as [m r s]. simpl.
  destruct m as [|[p|p|]|[p|p|]]; simpl; lia.
Qed.

Lemma shr_nonneg r e n : 0 <= shr_m r -> 0 <= shr_m (fst (shr r e n)).
Proof.
  intros H. unfold shr. destruct n as [|p|p]; simpl; try exact H.
  now apply iter_pos_invariant; [apply shr_1_nonneg|].
Qed.

Lemma shr_record_of_loc_m m l : shr_m (shr_record_of_loc m l) = m.
Proof. destruct l as [|[]]; reflexivity. Qed.

Lemma shr_fexp_nonneg m e l :
  0 <= m -> 0 <= shr_m (fst (shr_fexp JsNumber.prec JsNumber.emax m e l)).
Proof.
  intros H. unfold shr_fexp. apply shr_nonneg.
  now rewrite shr_record_of_loc_m.
Qed.

Lemma round_nearest_even_nonneg m l : 0 <= m -> 0 <= round_nearest_even m l.
Proof.
  intros H. unfold round_nearest_even.
  destruct l as [|[]]; try destruct (Z.even m); lia.
Qed.

Lemma binary_round_aux_nonneg mx ex lx :
  0 <= mx ->
  nonNegative (binary_round_aux JsNumber.prec JsNumber.emax false mx ex lx)
  = true.
Proof.
  intros H. unfold binary_round_aux.
  pose proof (shr_fexp_nonneg mx ex lx H) as H1.
  destruct (shr_fexp JsNumber.prec JsNumber.emax mx ex lx) as [mrs' e'].
  cbn [fst] in H1.
  pose proof (shr_fexp_nonneg
                (round_nearest_even (shr_m mrs') (loc_of_shr_record mrs'))
                e' loc_Exact (round_nearest_even_nonneg _ _ H1)) as H2.
  destruct (shr_fexp JsNumber.prec JsNumber.emax
              (round_nearest_even (shr_m mrs') (loc_of_shr_record mrs'))
              e' loc_Exact) as [mrs'' e''].
  cbn [fst] in H2.
  destruct (shr_m mrs'') as [|p|p]; [reflexivity | | lia].
  now destruct (e'' <=? JsNumber.emax - JsNumber.prec).
Qed.

(** A quotient of a number that is not negative by a positive one is not
    negative, and it is a number. *)
Lemma div_nonNegative x y :
  finiteNonNegative x = true -> finitePositive y = true ->
  nonNegative (JsNumber.div x y) = true.
Proof.
  destruct x as [[]|[]| |[] mx ex]; try discriminate;
    destruct y as [[]|[]| |[] my ey]; try discriminate; intros _ _.
  - reflexivity.
  - unfold JsNumber.div, SFdiv. cbn [xorb].
    unfold SFdiv_core_binary.
    set (e' := Z.min _ _). set (m' := match _ with Z0 => _ | _ => _ end).
    assert (Hm : 0 <= m').
    { unfold m'. destruct (ex - ey - e') as [|p|p]; try lia.
      apply Z.shiftl_nonneg. lia. }
    pose proof (Z.div_pos m' (Zpos my) Hm ltac:(lia)) as Q.
    unfold Z.div in Q. destruct (Z.div_eucl m' (Zpos my)) as [q r].
    cbn [fst] in Q. now apply binary_round_aux_nonneg.
Qed.

(** ** Small integers are exact *)

Lemma digits2_pos_bounds p :
  2 ^ (Zpos (digits2_pos p) - 1) <= Zpos p < 2 ^ Zpos (digits2_pos p).
Proof.
  induction p as [p IH | p IH |]; cbn [digits2_pos].
  - rewrite Pos2Z.inj_succ.
    replace (Z.succ (Zpos (digits2_pos p)) - 1)
      with (Z.succ (Zpos (digits2_pos p) - 1)) by lia.
    rewrite !Z.pow_succ_r by lia. lia.
  - rewrite Pos2Z.inj_succ.
    replace (Z.succ (Zpos (digits2_pos p)) - 1)
      with (Z.succ (Zpos (digits2_pos p) - 1)) by lia.
    rewrite !Z.pow_succ_r by lia. lia.
  - simpl. lia.
Qed.

Lemma digits2_pos_small p : Zpos p < 2 ^ 53 -> Zpos (digits2_pos p) <= 53.
Proof.
  intros H. destruct (digits2_pos_bounds p) as [L _].
  destruct (Z.le_gt_cases (Zpos (digits2_pos p)) 53) as [K | K]; [exact K|].
  exfalso.
  assert (2 ^ 53 <= 2 ^ (Zpos (digits2_pos p) - 1))
    by (apply Z.pow_le_mono_r; lia).
  lia.
Qed.

Lemma digits2_pos_iter p k :
  digits2_pos (Pos.iter xO p k) = (digits2_pos p + k)%positive.
Proof.
  induction k as [|k IH] using Pos.peano_ind.
  - simpl. lia.
  - rewrite Pos.iter_succ. cbn [digits2_pos]. rewrite IH. lia.
Qed.

Lemma binary_round_aux_canonical m e :
  fexp JsNumber.prec JsNumber.emax (Zpos (digits2_pos m) + e) = e ->
  e <= JsNumber.emax - JsNumber.prec ->
  binary_round_aux JsNumber.prec JsNumber.emax false (Zpos m) e loc_Exact
  = S754_finite false m e.
Proof.
  intros C B. unfold binary_round_aux, shr_fexp. cbn [Zdigits2].
  rewrite C, Z.sub_diag. cbn [shr shr_record_of_loc shr_m loc_of_shr_record
                                round_nearest_even Zdigits2].
  rewrite C, Z.sub_diag. cbn [shr shr_m].
  destruct (Z.leb_spec e (JsNumber.emax - JsNumber.prec)); [reflexivity | lia].
Qed.

(** A positive integer below 2^53 is a positive finite number. *)
Lemma ofZ_finitePositive z :
  0 < z < 2 ^ 53 -> finitePositive (JsNumber.ofZ z) = true.
Proof.
  intros [P B]. destruct z as [|p|p]; try lia.
  unfold JsNumber.ofZ, binary_normalize, binary_round.
  pose proof (digits2_pos_small p B) as D.
  assert (F : fexp JsNumber.prec JsNumber.emax (Zpos (digits2_pos p) + 0)
              = Zpos (digits2_pos p) - 53).
  { unfold fexp, emin, JsNumber.prec, JsNumber.emax. lia. }
  rewrite F. unfold shl_align.
  destruct (Zpos (digits2_pos p) - 53 - 0) as [|k|k] eqn:K; try lia.
  - rewrite binary_round_aux_canonical; [reflexivity | | ].
    + unfold fexp, emin, JsNumber.prec, JsNumber.emax. lia.
    + unfold JsNumber.prec, JsNumber.emax. lia.
  - rewrite binary_round_aux_canonical; [reflexivity | | ].
    + rewrite digits2_pos_iter.
      unfold fexp, emin, JsNumber.prec, JsNumber.emax. lia.
    + unfold JsNumber.prec, JsNumber.emax. lia.
Qed.

Lemma ofZ_finiteNonNegative z :
  0 <= z < 2 ^ 53 -> finiteNonNegative (JsNumber.ofZ z) = true.
Proof.
  intros [P B]. destruct (Z.eq_dec z 0) as [->|N]; [reflexivity|].
  pose proof (ofZ_finitePositive z ltac:(lia)) as F.
  now destruct (JsNumber.ofZ z) as [[]|[]| |[] m e].
Qed.

(** [Math.min(1, x)] of a number that is not negative lies between 0
    and 1. *)
Lemma min_one_share x :
  nonNegative x = true ->
  SFleb (JsNumber.ofZ 0) (JsNumber.Math_min (JsNumber.ofZ 1) x) = true
  /\ SFleb (JsNumber.Math_min (JsNumber.ofZ 1) x) (JsNumber.ofZ 1) = true.
Proof.
  intros H. unfold JsNumber.Math_min.
  destruct (SFcompare (JsNumber.ofZ 1) x) as [[| |]|] eqn:C.
  - change (JsNumber.isNegZero (JsNumber.ofZ 1)) with false. cbv iota.
    apply SFcompare_antisym in C. simpl CompOpp in C.
    split; [|unfold SFleb; now rewrite C].
    now destruct x as [[]|[]| |[] m e].
  - split; reflexivity.
  - apply SFcompare_antisym in C. simpl CompOpp in C.
    split; [|unfold SFleb; now rewrite C].
    now destruct x as [[]|[]| |[] m e].
  - destruct x as [[]|[]| |[] m e]; discriminate.
Qed.

(** ** The sum of the counts *)

Lemma fold_sum_shift {A} (f : A -> Z) l : forall a,
  fold_left (fun acc n => acc + f n) l a
  = a + fold_left (fun acc n => acc + f n) l 0.
Proof.
  induction l as [|x l IH]; intros a; simpl; [lia|].
  rewrite (IH (a + f x)), (IH (f x)). lia.
Qed.

Lemma filter_filter_other t u l :
  u <> t ->
  filter (String.eqb u) (filter (fun x => negb (t =? x)%string) l)
  = filter (String.eqb u) l.
Proof.
  intros N. induction l as [|x l IH]; simpl; [reflexivity|].
  destruct (String.eqb_spec t x) as [<-|D]; simpl.
  - destruct (String.eqb_spec u t) as [E|_]; [contradiction | exact IH].
  - now rewrite IH.
Qed.

(** Distinct tokens are not named more often, together, than there are
    names. *)
Lemma sum_of_counts l : forall tokens,
  NoDup l ->
  0 <= fold_left
         (fun acc n =>
            acc + Z.of_nat (List.length (filter (String.eqb n) tokens)))
         l 0
    <= Z.of_nat (List.length tokens).
Proof.
  induction l as [|t l IH]; intros tokens N; cbn [fold_left]; [lia|].
  inversion N as [|? ? Nt Nl]; subst.
  rewrite fold_sum_shift.
  pose proof (filter_length (String.eqb t) tokens) as P.
  specialize (IH (filter (fun x => negb (t =? x)%string) tokens) Nl).
  assert (E : fold_left
                (fun acc n =>
                   acc + Z.of_nat
                           (List.length
                              (filter (String.eqb n)
                                 (filter (fun x => negb (t =? x)%string)
                                    tokens))))
                l 0
              = fold_left
                  (fun acc n =>
                     acc + Z.of_nat
                             (List.length (filter (String.eqb n) tokens)))
                  l 0).
  { clear - Nt. revert Nt. generalize 0.
    induction l as [|u l IH]; intros a Nt; cbn [fold_left]; [reflexivity|].
    rewrite filter_filter_other by (intros ->; apply Nt; now left).
    apply IH. intros H. apply Nt. now right. }
  rewrite E in IH. lia.
Qed.

(** X23.  The confidence of the needs is a share: for a denominator of
    1 or more it is a number from 0 to 1 (while the counts stay below 2^53,
    where integers are exact).  It is the one confidence that the handler
    caps. *)
Theorem needs_confidence_is_a_share :
  forall (allNeeds : list (list string)) (k : Z),
    1 <= k ->
    k * Z.max 1 (Z.of_nat (List.length (allTokens allNeeds))) < 2 ^ 53 ->
    let conf := snd (needsConsensus allNeeds k) in
    SFleb (JsNumber.ofZ 0) conf = true
    /\ SFleb conf (JsNumber.ofZ 1) = true.
Proof.
  intros allNeeds k K B conf.
  destruct (chosen_sublist allNeeds k) as (l & E & N & _ & I).
  assert (Inc : incl (fst (needsConsensus allNeeds k)) (allTokens allNeeds)).
  { intros t Ht. now apply needsConsensus_incl in Ht. }
  assert (Len : (List.length (fst (needsConsensus allNeeds k))
                 <= List.length (allTokens allNeeds))%nat).
  { apply NoDup_incl_length; [now rewrite E | exact Inc]. }
  assert (Sum : 0 <= fold_left
                       (fun acc n =>
                          acc + JsMap.count n (countNeeds allNeeds))
                       (fst (needsConsensus allNeeds k)) 0
                <= Z.of_nat (List.length (allTokens allNeeds))).
  { assert (Ext : forall c a,
               fold_left
                 (fun acc n => acc + JsMap.count n (countNeeds allNeeds)) c a
               = fold_left
                   (fun acc n =>
                      acc + Z.of_nat
                              (List.length
                                 (filter (String.eqb n)
                                    (allTokens allNeeds)))) c a).
    { induction c as [|t c IH]; intros a; cbn [fold_left]; [reflexivity|].
      now rewrite countNeeds_count, IH. }
    rewrite Ext. apply sum_of_counts. now rewrite E. }
  unfold conf, needsConsensus. cbn [snd].
  destruct (sort (fun a b : string * Z => snd b - snd a)
              (countNeeds allNeeds)) as [|e r] eqn:S;
    [split; reflexivity|].
  rewrite <- S.
  change (match
            map fst
              (filter (fun e0 : string * Z => (k + 1) / 2 <=? snd e0)
                 (sort (fun a b : string * Z => snd b - snd a)
                    (countNeeds allNeeds)))
          with
          | [] =>
              map fst
                (firstn 3
                   (sort (fun a b : string * Z => snd b - snd a)
                      (countNeeds allNeeds)))
          | _ :: _ =>
              map fst
                (filter (fun e0 : string * Z => (k + 1) / 2 <=? snd e0)
                   (sort (fun a b : string * Z => snd b - snd a)
                      (countNeeds allNeeds)))
          end)
    with (fst (needsConsensus allNeeds k)).
  apply min_one_share, div_nonNegative.
  - apply ofZ_finiteNonNegative. nia.
  - apply ofZ_finitePositive. nia.
Qed.

(** Witness of X23. *)
Lemma needs_confidence_is_a_share_witness :
  SFleb (JsNumber.ofZ 0) (snd (needsConsensus (needs_ threeCandidates) 3))
  = true
  /\ SFleb (snd (needsConsensus (needs_ threeCandidates) 3)) (JsNumber.ofZ 1)
     = true.
Proof.
  apply (needs_confidence_is_a_share (needs_ threeCandidates) 3).
  - lia.
  - vm_compute. reflexivity.
Defined.

(** ** When the confidences are shares *)

Lemma POST_Reports OLLAMA_BASE Date_parse randomUUID body ping gen merged :
  POST OLLAMA_BASE Date_parse randomUUID body ping gen = Reports merged ->
  mergeRuns Date_parse randomUUID
    (salvagedRuns (attemptsFrom gen O (Z.to_nat (sampleCount body))))
  = Reports merged.
Proof.
  intros H. unfold POST in H.
  destruct (isEmpty _); [discriminate|].
  destruct (negb ping); [discriminate|].
  destruct (generate gen O (Z.to_nat (sampleCount body)) [])
    as [out|runs] eqn:G.
  - subst out. now apply generate_inl_not_reports in G.
  - pose proof (generate_inr_replies _ _ _ _ _ G) as R.
    rewrite (generate_replies _ _ _ _ R) in G. injection G as <-.
    exact H.
Qed.

Lemma salvagedRuns_bound l :
  (List.length (salvagedRuns l) <= List.length l)%nat.
Proof.
  induction l as [|a r IH]; simpl; [lia|].
  destruct (salvagedRun a); simpl; lia.
Qed.

Lemma attemptsFrom_length gen n : forall i,
  List.length (attemptsFrom gen i n) = n.
Proof. induction n as [|n IH]; intros i; simpl; [reflexivity | now rewrite IH]. Qed.

Lemma decodeAll_concat runs : forall all,
  decodeAll (List.concat runs) = Some all ->
  exists parts,
    Forall2 (fun run reps => decodeAll run = Some reps) runs parts
    /\ all = List.concat parts.
Proof.
  induction runs as [|run r IH]; intros all; simpl.
  - intros [= <-]. exists []. split; [constructor | reflexivity].
  - rewrite decodeAll_app.
    destruct (decodeAll run) as [reps|] eqn:D; [|discriminate].
    destruct (decodeAll (List.concat r)) as [rest|] eqn:R; [|discriminate].
    intros [= <-]. destruct (IH _ eq_refl) as (parts & F & ->).
    exists (reps :: parts). split; [now constructor | reflexivity].
Qed.

Lemma group_at_most_one Date_parse key reps :
  NoDup (map (makeKey Date_parse) reps) ->
  (List.length (group Date_parse key reps) <= 1)%nat.
Proof.
  unfold group. induction reps as [|rep l IH]; simpl; [lia|].
  intros N. inversion N as [|? ? Nr Nl]; subst.
  destruct (String.eqb_spec (makeKey Date_parse rep) key) as [E|_];
    [|now apply IH].
  simpl. assert (G : filter (fun r => (makeKey Date_parse r =? key)%string) l
                     = []).
  { apply group_nil. destruct (JsSet.has key _) eqn:H; [|reflexivity].
    apply has_In in H. congruence. }
  rewrite G. simpl. lia.
Qed.

Lemma group_size Date_parse key runs parts :
  Forall (listsEachOnce Date_parse) runs ->
  Forall2 (fun run reps => decodeAll run = Some reps) runs parts ->
  (List.length (group Date_parse key (List.concat parts))
   <= List.length runs)%nat.
Proof.
  intros L F. induction F as [|run reps runs parts D _ IH]; simpl; [lia|].
  inversion L as [|? ? Lr Ll]; subst.
  unfold group in *. rewrite filter_app, length_app.
  pose proof (group_at_most_one Date_parse key reps (Lr _ D)) as G.
  unfold group in G. specialize (IH Ll). lia.
Qed.

Lemma votes_length {T} (stringify : option T -> string) key arr :
  votes stringify key arr <= Z.of_nat (List.length arr).
Proof.
  unfold votes. pose proof (filter_length_le
                              (fun v => (stringify v =? key)%string) arr).
  lia.
Qed.

(** The count of [majority] lies between 1 and the number of entries. *)
Lemma majority_count {T} (stringify : option T -> string) arr :
  arr <> [] ->
  1 <= snd (majority stringify arr) <= Z.of_nat (List.length arr).
Proof.
  intros N. destruct (majority_tallied stringify arr) as (_ & I2 & I3).
  fold (majority stringify arr) in I2, I3.
  destruct (majority stringify arr) as [v c]. cbn [fst snd] in *.
  destruct I3 as [[E _] | (p1 & q1 & E & V & F)]; [contradiction|].
  split.
  - specialize (F (stringify v)).
    pose proof (votes_nonneg stringify (stringify v) p1). lia.
  - rewrite <- V. etransitivity; [apply votes_length|].
    rewrite E, !length_app. simpl. lia.
Qed.

Lemma share_of_runs c k :
  1 <= c <= k -> k <= 6 ->
  positiveShare
    (JsNumber.toFixed3 (JsNumber.div (JsNumber.ofZ c) (JsNumber.ofZ k))).
Proof.
  intros Hc Hk.
  assert (C : forallb
                (fun k =>
                   forallb
                     (fun c =>
                        negb ((1 <=? c) && (c <=? k))
                        || (SFltb (JsNumber.ofZ 0)
                              (JsNumber.toFixed3
                                 (JsNumber.div (JsNumber.ofZ c)
                                    (JsNumber.ofZ k)))
                            && SFleb
                                 (JsNumber.toFixed3
                                    (JsNumber.div (JsNumber.ofZ c)
                                       (JsNumber.ofZ k)))
                                 (JsNumber.ofZ 1)))
                     (upto 7))
                (upto 7) = true) by (vm_compute; reflexivity).
  rewrite forallb_forall in C.
  assert (Ik : In k (upto 7)) by (apply In_upto; lia).
  specialize (C k Ik). rewrite forallb_forall in C.
  assert (Ic : In c (upto 7)) by (apply In_upto; lia).
  specialize (C c Ic). apply orb_true_iff in C. destruct C as [C | C].
  - apply negb_true_iff, andb_false_iff in C.
    destruct C as [C | C]; [apply Z.leb_gt in C | apply Z.leb_gt in C]; lia.
  - apply andb_prop in C. exact C.
Qed.

(** X24.  The confidences of location, time and severity exceed 1 only
    when a run lists an incident twice: in an answer merged from runs each of
    which gives its reports different keys, every one of the three is above 0
    and at most 1. *)
Theorem confidences_are_shares_when_no_run_repeats_an_incident :
  forall OLLAMA_BASE Date_parse randomUUID body ping gen merged,
    POST OLLAMA_BASE Date_parse randomUUID body ping gen = Reports merged ->
    Forall (listsEachOnce Date_parse)
      (salvagedRuns (attemptsFrom gen O (Z.to_nat (sampleCount body)))) ->
    Forall
      (fun m =>
         positiveShare (Merged.confields_location_text m)
         /\ positiveShare (Merged.confields_time_iso m)
         /\ positiveShare (Merged.confields_severity m))
      merged.
Proof.
  intros base dp uuid body ping gen merged H L.
  apply POST_Reports in H.
  set (runs := salvagedRuns
                 (attemptsFrom gen O (Z.to_nat (sampleCount body)))) in *.
  assert (Six : (List.length runs <= 6)%nat).
  { unfold runs. etransitivity; [apply salvagedRuns_bound|].
    rewrite attemptsFrom_length. pose proof (sampleCount_le body). lia. }
  unfold mergeRuns in H. rewrite bucketRuns_table in H.
  destruct (reportsOf runs) as [reps|] eqn:R;
    [|now destruct (existsb _ _)].
  injection H as <-.
  destruct (decodeAll_concat runs reps R) as (parts & F & ->).
  rewrite denominator_max.
  set (all := List.concat parts).
  assert (K : Forall (fun key => In key (keysOf dp all)) (keysOf dp all))
    by now apply Forall_forall.
  revert K. generalize (keysOf dp all) at 2 3 as keys. generalize O.
  intros i keys. revert i.
  induction keys as [|key r IH]; intros i K; cbn [map mergeFrom];
    constructor.
  - inversion K as [|? ? Hkey _]; subst.
    pose proof (group_nonempty dp key all Hkey) as G.
    pose proof (group_size dp key runs parts L F) as Sz. fold all in Sz.
    destruct (bucket_fields (group dp key all) emptyBucket)
      as (Lo & Ti & Se & _).
    fold (bucketOf dp key all) in Lo, Ti, Se. simpl in Lo, Ti, Se.
    assert (M : forall {A B} (f : A -> B) l, l <> [] -> map f l <> [])
      by (intros A B f [|x l] Hl; [contradiction | discriminate]).
    unfold mergeBucket.
    cbn [Merged.confields_location_text Merged.confields_time_iso
         Merged.confields_severity].
    rewrite Lo, Ti, Se.
    pose proof (majority_count stringifyText
                  (map location_text (group dp key all)) (M _ _ _ _ G)) as C1.
    pose proof (majority_count stringifyText
                  (map time_iso (group dp key all)) (M _ _ _ _ G)) as C2.
    pose proof (majority_count stringifySeverity
                  (map (fun rep => knownSeverity (severity rep))
                     (group dp key all)) (M _ _ _ _ G)) as C3.
    rewrite length_map in C1, C2, C3.
    repeat split; apply share_of_runs; lia.
  - apply IH. now inversion K.
Qed.

(** Witness of X24. *)
Lemma confidences_are_shares_when_no_run_repeats_an_incident_witness :
  exists merged,
    POST base noDate uuid (request 2) true proseThenJson = Reports merged
    /\ Forall
         (fun m =>
            positiveShare (Merged.confields_location_text m)
            /\ positiveShare (Merged.confields_time_iso m)
            /\ positiveShare (Merged.confields_severity m))
         merged.
Proof.
  eexists. split; [reflexivity|].
  apply (confidences_are_shares_when_no_run_repeats_an_incident base noDate
           uuid (request 2) true proseThenJson); [reflexivity|].
  repeat constructor. intros reps [= <-]. repeat constructor. simpl. tauto.
Defined.

(* ================================================================== *)
(** * Properties of src/slices/reportsSlice.ts *)
(* ================================================================== *)

Section SliceFacts.
Import ReportsSlice SliceSpec.

Local Abbreviation step := (fun (m : list (string * Report)) (r : Report) =>
                    JsMap.set (id r) r m).

(** ** The map byId *)

Lemma find_app {A} (p : A -> bool) l1 l2 :
  find p (l1 ++ l2)
  = match find p l1 with
    | Some x => Some x
    | None => find p l2
    end.
Proof.
  induction l1 as [|x r IH]; simpl; [reflexivity|].
  now destruct (p x).
Qed.

Lemma latest_cons i r l :
  latest i (r :: l)
  = match latest i l with
    | Some x => Some x
    | None => if (id r =? i)%string then Some r else None
    end.
Proof. unfold latest. simpl. now rewrite find_app. Qed.

Lemma latest_id i l r : latest i l = Some r -> id r = i.
Proof.
  unfold latest. intros H. apply find_some in H. destruct H as [_ H].
  now apply String.eqb_eq.
Qed.

Lemma latest_In i l r : latest i l = Some r -> In r l.
Proof.
  unfold latest. intros H. apply find_some in H. destruct H as [H _].
  now apply in_rev.
Qed.

Lemma byId_keys l : forall m,
  map fst (fold_left step l m) = fold_left JsSet.add (map id l) (map fst m).
Proof.
  induction l as [|r l IH]; intros m; simpl; [reflexivity|].
  now rewrite IH, set_keys.
Qed.

Lemma byId_get l : forall m i,
  JsMap.get i (fold_left step l m)
  = match latest i l with
    | Some r => Some r
    | None => JsMap.get i m
    end.
Proof.
  induction l as [|r l IH]; intros m i; simpl; [reflexivity|].
  rewrite IH, latest_cons. destruct (latest i l); [reflexivity|].
  destruct (String.eqb_spec (id r) i) as [<-|N].
  - apply get_set_same.
  - apply get_set_other. congruence.
Qed.

Lemma pairs_Forall2 {V} (m : list (string * V)) (P : string -> V -> Prop) :
  (forall kv, In kv m -> P (fst kv) (snd kv)) ->
  Forall2 P (map fst m) (map snd m).
Proof.
  induction m as [|kv r IH]; intros H; simpl; constructor.
  - apply H. now left.
  - apply IH. intros kv' H'. apply H. now right.
Qed.

Lemma Forall2_map_eq {A B} (f : B -> A) l l' :
  Forall2 (fun a b => f b = a) l l' -> map f l' = l.
Proof. induction 1; simpl; congruence. Qed.

Lemma mergeById_fold items incoming :
  mergeById items incoming
  = map snd (fold_left step (items ++ incoming) []).
Proof. unfold mergeById. now rewrite fold_left_app. Qed.

Lemma byId_ids l : map fst (fold_left step l []) = idsOf l.
Proof.
  rewrite byId_keys. unfold idsOf. rewrite <- ofList_keepFirst.
  reflexivity.
Qed.

Lemma byId_latest l :
  Forall2 (fun i r => latest i l = Some r) (idsOf l)
    (map snd (fold_left step l [])).
Proof.
  rewrite <- byId_ids. apply pairs_Forall2. intros [i r] H. simpl.
  apply get_of_In in H; [|rewrite byId_ids; apply keepFirst_NoDup].
  rewrite byId_get in H. destruct (latest i l); [exact H | discriminate].
Qed.

Lemma mergeById_ids items incoming :
  map id (mergeById items incoming) = idsOf (items ++ incoming).
Proof.
  rewrite mergeById_fold. apply Forall2_map_eq.
  eapply Forall2_impl; [|apply byId_latest].
  intros i r H. now apply latest_id in H.
Qed.

Lemma mergeById_NoDup items incoming :
  NoDup (map id (mergeById items incoming)).
Proof. rewrite mergeById_ids. apply keepFirst_NoDup. Qed.

(** X25.  When an extraction or an annotation is fulfilled, the reports of
    the state and the incoming ones are merged by id: every id is listed
    once, in order of first appearance, and stands for the latest report
    with that id, an incoming report replacing a stored one in its place. *)
Theorem merge_by_id_keeps_the_latest_report :
  forall items incoming : list Report,
    let merged := mergeById items incoming in
    map id merged = idsOf (items ++ incoming)
    /\ NoDup (map id merged)
    /\ Forall2 (fun i r => latest i (items ++ incoming) = Some r)
         (idsOf (items ++ incoming)) merged.
Proof.
  intros items incoming merged. split; [apply mergeById_ids|].
  split; [apply mergeById_NoDup|].
  unfold merged. rewrite mergeById_fold. apply byId_latest.
Qed.

(** ** upsertReport and removeReport *)

Lemma byId_fresh l : forall m,
  NoDup (map fst m ++ map id l) ->
  fold_left step l m = (m ++ map (fun r => (id r, r)) l)%list.
Proof.
  induction l as [|r l IH]; intros m N; simpl; [now rewrite app_nil_r|].
  assert (F : JsMap.set (id r) r m = (m ++ [(id r, r)])%list).
  { assert (Nr : ~ In (id r) (map fst m)).
    { intros H. simpl in N. apply NoDup_remove_2 in N. apply N.
      apply in_or_app. now left. }
    clear - Nr. induction m as [|[k v] m IH]; simpl; [reflexivity|].
    destruct (String.eqb_spec (id r) k) as [E|_].
    - exfalso. apply Nr. now left.
    - f_equal. apply IH. intros H. apply Nr. now right. }
  rewrite F, IH.
  - now rewrite <- app_assoc.
  - rewrite map_app. simpl. rewrite <- app_assoc. simpl.
    simpl in N. apply NoDup_remove_1 in N as N1.
    apply NoDup_remove_2 in N.
    apply (Permutation_NoDup
             (l := id r :: (map fst m ++ map id l))).
    + apply Permutation_cons_app. reflexivity.
    + constructor; assumption.
Qed.

Lemma byId_unique l :
  NoDup (map id l) -> fold_left step l [] = map (fun r => (id r, r)) l.
Proof. intros N. now rewrite byId_fresh. Qed.

Lemma set_upsert p l :
  map snd (JsMap.set (id p) p (map (fun r => (id r, r)) l))
  = match findIndex (fun r => (id r =? id p)%string) l with
    | Some idx => assign l idx p
    | None => (l ++ [p])%list
    end.
Proof.
  induction l as [|r l IH]; simpl; [reflexivity|].
  rewrite (String.eqb_sym (id r) (id p)).
  destruct (id p =? id r)%string; simpl.
  - now rewrite map_map, map_id.
  - rewrite IH.
    now destruct (findIndex (fun r0 => (id r0 =? id p)%string) l).
Qed.

Lemma upsert_merge state payload :
  NoDup (map id (items state)) ->
  items (upsertReport state payload) = mergeById (items state) [payload].
Proof.
  intros N. unfold mergeById. cbn [fold_left].
  rewrite (byId_unique _ N), set_upsert. unfold upsertReport.
  now destruct (findIndex _ (items state)).
Qed.

Lemma NoDup_id_inj l r r' :
  NoDup (map id l) -> In r l -> In r' l -> id r = id r' -> r = r'.
Proof.
  induction l as [|x l IH]; simpl; [tauto|].
  intros N. inversion N as [|? ? Nx Nl]; subst.
  intros [<- | H] [<- | H'] E; try reflexivity.
  - exfalso. apply Nx. rewrite E. now apply in_map.
  - exfalso. apply Nx. rewrite <- E. now apply in_map.
  - now apply IH.
Qed.

Lemma NoDup_latest l r :
  NoDup (map id l) -> In r l -> latest (id r) l = Some r.
Proof.
  intros N H. destruct (latest (id r) l) as [r'|] eqn:E.
  - f_equal. apply (NoDup_id_inj l); try assumption.
    + now apply latest_In in E.
    + now apply latest_id in E.
  - unfold latest in E. apply (proj1 (in_rev l r)) in H.
    apply (find_none _ _ E r) in H. now rewrite String.eqb_refl in H.
Qed.

Lemma Forall2_In_l {A B} (P : A -> B -> Prop) l l' a :
  Forall2 P l l' -> In a l -> exists b, In b l' /\ P a b.
Proof.
  induction 1 as [|x y l l' Hxy _ IH]; simpl; [tauto|].
  intros [<- | H].
  - exists y. split; [now left | exact Hxy].
  - destruct (IH H) as (b & Hb & Pb). exists b. split; [now right | exact Pb].
Qed.

Lemma mergeById_In items incoming r :
  In r (items ++ incoming) ->
  exists r', In r' (mergeById items incoming)
             /\ latest (id r) (items ++ incoming) = Some r'.
Proof.
  intros H. rewrite mergeById_fold.
  apply (Forall2_In_l _ _ _ (id r) (byId_latest (items ++ incoming))).
  apply keepFirst_incl. now apply in_map.
Qed.

(** X26.  While the ids of the state are distinct, [upsertReport] does
    what the merge by id does for one incoming report: it replaces the
    report with the id of the payload in its place, or appends the payload. *)
Theorem upsertReport_is_the_merge_of_one_report :
  forall (state : ReportsState) (payload : Report),
    NoDup (map id (items state)) ->
    items (upsertReport state payload) = mergeById (items state) [payload]
    /\ latest (id payload) (items (upsertReport state payload))
       = Some payload
    /\ NoDup (map id (items (upsertReport state payload))).
Proof.
  intros state payload N. rewrite (upsert_merge _ _ N).
  split; [reflexivity|]. split; [|apply mergeById_NoDup].
  destruct (mergeById_In (items state) [payload] payload) as (r' & H & E).
  { apply in_or_app. right. now left. }
  assert (E' : latest (id payload) (items state ++ [payload]) = Some payload).
  { unfold latest. rewrite rev_app_distr. simpl.
    now rewrite String.eqb_refl. }
  rewrite E' in E. injection E as <-.
  apply NoDup_latest; [apply mergeById_NoDup | exact H].
Qed.

Lemma findIndex_None {A} (p : A -> bool) l :
  forallb (fun x => negb (p x)) l = true -> findIndex p l = None.
Proof.
  induction l as [|x l IH]; simpl; [reflexivity|].
  intros H. apply andb_prop in H. destruct H as [Hx Hl].
  apply negb_true_iff in Hx. rewrite Hx. now rewrite IH.
Qed.

Lemma fresh_id i l :
  ~ In i (map id l) ->
  forallb (fun r => negb (id r =? i)%string) l = true.
Proof.
  intros N. apply forallb_forall. intros r H. apply negb_true_iff.
  apply String.eqb_neq. intros E. apply N. rewrite <- E. now apply in_map.
Qed.

(** Witness of X26. *)
Lemma upsertReport_is_the_merge_of_one_report_witness :
  items (upsertReport twoItems (extracted "b" ["water"]))
  = mergeById (items twoItems) [extracted "b" ["water"]]
  /\ latest "b" (items (upsertReport twoItems (extracted "b" ["water"])))
     = Some (extracted "b" ["water"])
  /\ NoDup (map id (items (upsertReport twoItems (extracted "b" ["water"])))).
Proof.
  apply (upsertReport_is_the_merge_of_one_report twoItems
           (extracted "b" ["water"])).
  simpl. repeat constructor; simpl; intuition discriminate.
Defined.

(** X27.  Removing by id undoes the upsert of a report whose id was not
    in the state: the state is again what it was. *)
Theorem removeReport_undoes_a_fresh_upsertReport :
  forall (state : ReportsState) (payload : Report),
    ~ In (id payload) (map id (items state)) ->
    removeReport (upsertReport state payload) (id payload) = state.
Proof.
  intros [l st er] payload N. simpl in N.
  pose proof (fresh_id _ _ N) as F.
  unfold upsertReport. cbn [items].
  rewrite (findIndex_None _ _ F).
  unfold removeReport. cbn [items status error]. f_equal.
  rewrite filter_app. simpl. rewrite String.eqb_refl. simpl.
  rewrite app_nil_r. now apply forallb_filter_id.
Qed.

(** Witness of X27. *)
Lemma removeReport_undoes_a_fresh_upsertReport_witness :
  removeReport (upsertReport twoItems (extracted "c" ["food"])) "c"
  = twoItems.
Proof.
  apply (removeReport_undoes_a_fresh_upsertReport twoItems
           (extracted "c" ["food"])).
  simpl. intuition discriminate.
Defined.

(** ** The ids of the state *)

Lemma reducer_NoDup state action :
  NoDup (map id (items state)) ->
  NoDup (map id (items (reducer state action))).
Proof.
  intros N. destruct action; cbn [reducer]; try exact N.
  - constructor.
  - rewrite (upsert_merge _ _ N). apply mergeById_NoDup.
  - cbn [removeReport items]. now apply NoDup_map_filter.
  - apply mergeById_NoDup.
  - apply mergeById_NoDup.
  - apply mergeById_NoDup.
Qed.

(** X28.  No state that the reducer can reach lists an id twice: from
    the initial state, after any actions with any payloads, the ids of the
    reports are distinct. *)
Theorem reachable_states_list_each_id_once :
  forall actions : list Action, NoDup (map id (items (after actions))).
Proof.
  intros actions. unfold after.
  assert (N : NoDup (map id (items initialState))) by constructor.
  revert N. generalize initialState.
  induction actions as [|a r IH]; intros s N; [exact N|].
  cbn [fold_left]. apply IH. now apply reducer_NoDup.
Qed.

(** ** annotateReports *)

Section ThunkFacts.
Variable Date_parse : string -> option Z.
Variable now : nat -> Z.
Variable localeCompare : string -> string -> Z.
Variable facilities : list Facility.

Lemma annotate_fixed i r r' :
  annotate Date_parse now localeCompare facilities i r = Returns r' ->
  annotate Date_parse now localeCompare facilities i r' = Returns r'.
Proof.
  unfold annotate.
  destruct (suggestFacilities localeCompare (normalizeNeeds (needs r))
              facilities 3) as [sugg|] eqn:S; [|discriminate].
  intros [= <-]. cbn [needs severity time_iso id location_text notes
                      dedupe_key confidence_overall confields].
  now rewrite normalizeNeeds_idem, S.
Qed.

Lemma annotate_id i r r' :
  annotate Date_parse now localeCompare facilities i r = Returns r' ->
  id r' = id r.
Proof.
  unfold annotate. destruct (suggestFacilities _ _ _ _); [|discriminate].
  now intros [= <-].
Qed.

Lemma annotateFrom_fixed l : forall i l',
  annotateFrom Date_parse now localeCompare facilities i l = Returns l' ->
  annotateFrom Date_parse now localeCompare facilities i l' = Returns l'
  /\ map id l' = map id l.
Proof.
  induction l as [|r l IH]; intros i l'; cbn [annotateFrom].
  - intros [= <-]. now split.
  - destruct (annotate _ _ _ _ i r) as [r'|] eqn:A; [|discriminate].
    destruct (annotateFrom _ _ _ _ (S i) l) as [rest|] eqn:R; [|discriminate].
    intros [= <-]. destruct (IH _ _ R) as [F I].
    cbn [annotateFrom map]. rewrite (annotate_fixed _ _ _ A), F.
    split; [reflexivity|]. now rewrite (annotate_id _ _ _ A), I.
Qed.
End ThunkFacts.

Lemma Forall2_functional {A B} (P : A -> B -> Prop) l a b :
  (forall x y z, P x y -> P x z -> y = z) ->
  Forall2 P l a -> Forall2 P l b -> a = b.
Proof.
  intros F H. revert b. induction H as [|x y l a Hxy _ IH]; intros b Hb;
    inversion Hb; subst; [reflexivity|].
  f_equal; [eapply F; eassumption | now apply IH].
Qed.

Lemma keepFirst_twice l : NoDup l -> keepFirst (l ++ l) = l.
Proof.
  intros N. rewrite <- ofList_keepFirst. unfold JsSet.ofList.
  rewrite fold_left_app. fold (JsSet.ofList l).
  rewrite ofList_keepFirst, (keepFirst_fixed _ N).
  assert (H : forall acc, incl l acc -> fold_left JsSet.add l acc = acc).
  { clear N. induction l as [|x l IH]; intros acc I; [reflexivity|].
    cbn [fold_left]. unfold JsSet.add at 2.
    assert (Hx : JsSet.has x acc = true)
      by (apply has_In, I; now left).
    rewrite Hx. apply IH. intros y Hy. apply I. now right. }
  apply H. apply incl_refl.
Qed.

Lemma Forall2_map_self {A B} (f : B -> A) (P : A -> B -> Prop) l :
  (forall b, In b l -> P (f b) b) -> Forall2 P (map f l) l.
Proof.
  induction l as [|b l IH]; intros H; simpl; constructor.
  - apply H. now left.
  - apply IH. intros b' H'. apply H. now right.
Qed.

Lemma mergeById_same_ids items updated :
  NoDup (map id items) ->
  map id updated = map id items ->
  mergeById items updated = updated.
Proof.
  intros N E.
  assert (N' : NoDup (map id updated)) by now rewrite E.
  apply (Forall2_functional
           (fun i r => latest i (items ++ updated) = Some r)
           (map id updated)); [congruence | |].
  - pose proof (byId_latest (items ++ updated)) as F.
    rewrite <- mergeById_fold in F.
    unfold idsOf in F. rewrite map_app, <- E in F.
    now rewrite (keepFirst_twice _ N') in F.
  - apply Forall2_map_self. intros r H.
    unfold latest. rewrite rev_app_distr, find_app.
    fold (latest (id r) updated). now rewrite (NoDup_latest _ _ N' H).
Qed.

(** X29.  Ranking again changes nothing: with the same facilities and
    the same readings of the clock, dispatching [annotateReports] twice
    leaves the state that dispatching it once leaves. *)
Theorem reRank_twice_is_reRank_once :
  forall Date_parse now localeCompare facilities (state : ReportsState),
    NoDup (map id (items state)) ->
    reRank Date_parse now localeCompare facilities
      (reRank Date_parse now localeCompare facilities state)
    = reRank Date_parse now localeCompare facilities state.
Proof.
  intros dp now lc fac [l st er] N. cbn [items] in N.
  unfold reRank at 2. unfold annotateReports. cbn [items].
  destruct (annotateFrom dp now lc fac 0 l) as [l'|] eqn:A.
  - destruct (annotateFrom_fixed dp now lc fac l 0 l' A) as [F I].
    cbn [reducer]. unfold annotated. cbn [items status error].
    rewrite (mergeById_same_ids _ _ N I).
    unfold reRank, annotateReports. cbn [items]. rewrite F, A.
    cbn [reducer]. unfold annotated. cbn [items status error].
    rewrite (mergeById_same_ids _ _ N I).
    rewrite mergeById_same_ids; [reflexivity | now rewrite I | reflexivity].
  - unfold reRank, annotateReports. cbn [items]. now rewrite A.
Qed.

(** Witness of X29. *)
Lemma reRank_twice_is_reRank_once_witness :
  reRank noDate (fun _ => 0) byCodeUnits [generalHospital; eastShelter]
    (reRank noDate (fun _ => 0) byCodeUnits [generalHospital; eastShelter]
       twoItems)
  = reRank noDate (fun _ => 0) byCodeUnits [generalHospital; eastShelter]
      twoItems.
Proof.
  apply (reRank_twice_is_reRank_once noDate (fun _ => 0) byCodeUnits
           [generalHospital; eastShelter] twoItems).
  simpl. repeat constructor; simpl; intuition discriminate.
Defined.

Lemma suggestFacilities_bounded localeCompare needs facilities out :
  suggestFacilities localeCompare needs facilities 3 = Returns out ->
  (List.length out <= 3)%nat /\ incl out facilities.
Proof.
  unfold suggestFacilities. destruct (normalizeNeeds needs) as [|n r].
  - intros [= <-]. split; [simpl; lia | intros f []].
  - destruct (fold_left desire (n :: r) (Returns ([], [])))
      as [[ts caps]|]; [|discriminate].
    intros [= <-]. split.
    + rewrite length_map. pose proof (slice0_length
        (filter (fun s : Facility * Z => 0 <? snd s)
           (sort (byScoreThenName localeCompare)
              (map (fun f => (f, scoreFacility f ts caps)) facilities)))
        3 ltac:(lia)). lia.
    + intros f Hf. apply in_map_iff in Hf. destruct Hf as ([f' s] & E & Hf).
      simpl in E. subst f'. apply slice0_In, filter_In in Hf.
      destruct Hf as [Hf _].
      apply (Permutation_in _ (sort_perm _ _)) in Hf.
      apply in_map_iff in Hf. now destruct Hf as (g & [= -> <-] & Hg).
Qed.

(** X30.  When [annotateReports] completes, every report keeps its id,
    location, time and severity, its needs are normalized, its risk score
    is a whole number from 0 to 100 and it has at most three suggestions, all
    from the directory.  A score that is not a number is never stored: the
    needs that give one make [suggestFacilities] throw. *)
Theorem annotated_reports_are_scored_and_matched :
  forall Date_parse now localeCompare facilities (state : ReportsState)
         (updated : list Report),
    annotateReports Date_parse now localeCompare facilities state
    = Returns updated ->
    Forall2
      (fun r r' =>
         id r' = id r
         /\ location_text r' = location_text r
         /\ time_iso r' = time_iso r
         /\ severity r' = severity r
         /\ needs r' = normalizeNeeds (needs r)
         /\ (exists n, 0 <= n <= 100
                       /\ risk_score r' = Some (JsNumber.ofZ n))
         /\ exists sugg,
              suggestions r' = Some sugg
              /\ (List.length sugg <= 3)%nat
              /\ incl sugg facilities)
      (items state) updated.
Proof.
  intros dp now lc fac [l st er] updated. unfold annotateReports.
  cbn [items]. generalize O at 1. revert updated.
  induction l as [|r l IH]; intros updated i; cbn [annotateFrom].
  - intros [= <-]. constructor.
  - destruct (annotate dp now lc fac i r) as [r'|] eqn:A; [|discriminate].
    destruct (annotateFrom dp now lc fac (S i) l) as [rest|] eqn:R;
      [|discriminate].
    intros [= <-]. constructor; [|now apply (IH _ _ R)].
    unfold annotate in A.
    destruct (suggestFacilities lc (normalizeNeeds (needs r)) fac 3)
      as [sugg|] eqn:S; [|discriminate].
    injection A as <-.
    cbn [id location_text time_iso severity needs risk_score suggestions].
    repeat split; try reflexivity.
    + destruct (computeRiskScore_whole dp (now i) (severity r)
                  (normalizeNeeds (needs r)) (time_iso r)) as (n & Hn & E).
      * destruct (plainNeeds (normalizeNeeds (needs r))) eqn:P;
          [reflexivity|].
        apply suggestFacilities_Throws_iff with (localeCompare := lc)
          (facilities := fac) (limit := 3) in P. congruence.
      * exists n. split; [exact Hn | now rewrite E].
    + exists sugg. split; [reflexivity|].
      now apply suggestFacilities_bounded in S.
Qed.

(** Witness of X30. *)
Lemma annotated_reports_are_scored_and_matched_witness :
  exists updated,
    annotateReports noDate (fun _ => 0) byCodeUnits
      [generalHospital; eastShelter] twoItems = Returns updated
    /\ map needs updated = [["medical"]; []]
    /\ Forall2
         (fun r r' =>
            id r' = id r
            /\ location_text r' = location_text r
            /\ time_iso r' = time_iso r
            /\ severity r' = severity r
            /\ needs r' = normalizeNeeds (needs r)
            /\ (exists n, 0 <= n <= 100
                          /\ risk_score r' = Some (JsNumber.ofZ n))
            /\ exists sugg,
                 suggestions r' = Some sugg
                 /\ (List.length sugg <= 3)%nat
                 /\ incl sugg [generalHospital; eastShelter])
         (items twoItems) updated.
Proof.
  eexists. split; [reflexivity|]. split; [reflexivity|].
  apply (annotated_reports_are_scored_and_matched noDate (fun _ => 0)
           byCodeUnits [generalHospital; eastShelter] twoItems).
  reflexivity.
Defined.
End SliceFacts.

(* ================================================================== *)
(** * The candidates of parseModelJson *)
(* ================================================================== *)

Import SpanSpec.

(** ** The four candidates of parseModelJson *)

Lemma startsWith_self p rest : startsWith p (p ++ rest) = true.
Proof.
  induction p as [|a p IH]; [reflexivity|]. simpl.
  now rewrite Ascii.eqb_refl.
Qed.













(* ================================================================== *)
(** * The ensemble handler: denominator, failures and order *)
(* ================================================================== *)

Import ShareSpec OrderSpec ReplySpec.

(** ** The denominator of the confidences *)

Lemma fold_left_ext_in {A B} (f g : A -> B -> A) l :
  (forall a b, In b l -> f a b = g a b) ->
  forall a, fold_left f l a = fold_left g l a.
Proof.
  induction l as [|x l IH]; intros H a; simpl; [reflexivity|].
  rewrite (H a x) by now left.
  apply IH. intros a' b Hb. apply H. now right.
Qed.

Lemma sort_nil {A} (cmp : A -> A -> Z) l : sort cmp l = [] -> l = [].
Proof.
  intros H. pose proof (sort_perm cmp l) as P. rewrite H in P.
  now apply Permutation_nil in P.
Qed.

(** The confidence of the needs, in the words of the counts. *)
Lemma needsConsensus_share allNeeds k :
  snd (needsConsensus allNeeds k)
  = needsShare (fst (needsConsensus allNeeds k)) allNeeds k.
Proof.
  unfold needsShare. unfold needsConsensus at 1. cbn [snd].
  pose proof (countNeeds_keys allNeeds) as K.
  destruct (sort (fun a b : string * Z => snd b - snd a)
              (countNeeds allNeeds)) as [|e es] eqn:E.
  - apply sort_nil in E. rewrite E in K. simpl in K. symmetry in K.
    apply (proj1 (keepFirst_nil _)) in K. now rewrite K.
  - destruct (allTokens allNeeds) as [|t ts] eqn:T.
    + simpl in K. apply map_eq_nil in K. rewrite K in E. discriminate.
    + rewrite <- E. fold (fst (needsConsensus allNeeds k)).
      unfold named. do 3 f_equal.
      apply fold_left_ext_in. intros a b _. now rewrite countNeeds_count.
Qed.

Lemma majority_votes {T} (stringify : option T -> string) arr :
  votes stringify (stringify (fst (majority stringify arr))) arr
  = snd (majority stringify arr).
Proof.
  destruct (majority_tallied stringify arr) as (_ & I2 & I3).
  fold (majority stringify arr) in I2, I3.
  destruct (majority stringify arr) as [value count]. cbn [fst snd] in *.
  destruct I3 as [[-> [= -> ->]] | (p1 & q1 & E & V & F)]; [reflexivity|].
  apply Z.le_antisymm; [apply I2|].
  pose proof (votes_app stringify (stringify value) (p1 ++ [value]) q1) as A.
  rewrite <- app_assoc in A. cbn [app] in A. rewrite <- E in A.
  pose proof (votes_nonneg stringify (stringify value) q1). lia.
Qed.

(** The fields of the bucket of a key. *)
Lemma bucketOf_fields Date_parse key reps :
  let g := group Date_parse key reps in
  let b := bucketOf Date_parse key reps in
  locs b = map location_text g
  /\ times b = map time_iso g
  /\ sevs b = map (fun rep => knownSeverity (severity rep)) g
  /\ needs_ b = map phrasesOf g
  /\ notes_ b = map notes g
  /\ dedupe_keys b = map dedupe_key g.
Proof.
  cbv zeta. unfold bucketOf.
  destruct (bucket_fields (group Date_parse key reps) emptyBucket)
    as (L & T & S & N & O & D). cbv zeta in *.
  now rewrite L, T, S, N, O, D.
Qed.

(** The confidences that [mergeBucket] gives a bucket, in the words of
    the votes and of the denominator. *)
Lemma mergeBucket_shares Date_parse k id key reps :
  let g := group Date_parse key reps in
  let m := mergeBucket k id (bucketOf Date_parse key reps) in
  Merged.confields_location_text m
  = share (votes stringifyText (stringifyText (Merged.location_text m))
             (map location_text g)) k
  /\ Merged.confields_time_iso m
     = share (votes stringifyText (stringifyText (Merged.time_iso m))
                (map time_iso g)) k
  /\ Merged.confields_severity m
     = share (votes stringifySeverity
                (stringifySeverity (Merged.severity m))
                (map (fun rep => knownSeverity (severity rep)) g)) k
  /\ Merged.confields_needs m
     = JsNumber.toFixed3
         (needsShare (Merged.needs m) (map phrasesOf g) k).
Proof.
  cbv zeta.
  destruct (bucketOf_fields Date_parse key reps) as (L & T & S & N & _ & _).
  cbv zeta in *. unfold mergeBucket, share.
  cbn [Merged.confields_location_text Merged.confields_time_iso
       Merged.confields_severity Merged.confields_needs
       Merged.location_text Merged.time_iso Merged.severity Merged.needs].
  rewrite L, T, S, N, !majority_votes, needsConsensus_share.
  repeat split; reflexivity.
Qed.

Lemma mergeFrom_keys (P : string -> Merged.t -> Prop) randomUUID k
    (f : string -> Bucket) keys :
  (forall key j, In key keys -> P key (mergeBucket k (randomUUID j) (f key))) ->
  forall i,
    Forall2 P keys
      (mergeFrom randomUUID k i (map (fun key => (key, f key)) keys)).
Proof.
  induction keys as [|key r IH]; intros H i; cbn [map mergeFrom];
    constructor.
  - apply H. now left.
  - apply IH. intros key' j Hk. apply H. now right.
Qed.

(** When the handler answers with reports, they are the merge of the
    reports of the salvaged runs. *)
Lemma POST_merged OLLAMA_BASE Date_parse randomUUID body ping gen merged :
  POST OLLAMA_BASE Date_parse randomUUID body ping gen = Reports merged ->
  let runs :=
    salvagedRuns (attemptsFrom gen O (Z.to_nat (sampleCount body))) in
  exists reps,
    reportsOf runs = Some reps
    /\ merged
       = mergeFrom randomUUID (denominator runs) O
           (map (fun key => (key, bucketOf Date_parse key reps))
              (keysOf Date_parse reps)).
Proof.
  intros H. apply POST_Reports in H. cbv zeta. unfold mergeRuns in H.
  rewrite bucketRuns_table in H.
  destruct (reportsOf _) as [reps|]; [|now destruct (existsb _ _)].
  injection H as <-. now exists reps.
Qed.

(** C1, amended.  When the handler answers with merged reports, the
    confidence of every field of every merged report is a count divided by
    the same [k], the number of attempts whose reply was salvaged into a
    parsed run, or 1 when there is none: for the location, the time and the
    severity the count is the number of candidates of the bucket that hold
    the merged value, for the needs it is the number of mentions of the
    merged needs, divided by their number as well and capped at 1.  The
    number of candidates in the bucket is no part of it. *)
Theorem denominator_counts_salvaged_runs :
  forall OLLAMA_BASE Date_parse randomUUID body ping gen merged,
    let attempts := attemptsFrom gen O (Z.to_nat (sampleCount body)) in
    let k := Z.max 1 (countIf salvaged attempts) in
    forallb narrowReply attempts = true ->
    POST OLLAMA_BASE Date_parse randomUUID body ping gen = Reports merged ->
    exists reps,
      reportsOf (salvagedRuns attempts) = Some reps
      /\ Forall2
           (fun key m =>
              let g := group Date_parse key reps in
              Merged.confields_location_text m
              = share (votes stringifyText
                         (stringifyText (Merged.location_text m))
                         (map location_text g)) k
              /\ Merged.confields_time_iso m
                 = share (votes stringifyText
                            (stringifyText (Merged.time_iso m))
                            (map time_iso g)) k
              /\ Merged.confields_severity m
                 = share (votes stringifySeverity
                            (stringifySeverity (Merged.severity m))
                            (map (fun rep => knownSeverity (severity rep)) g))
                     k
              /\ Merged.confields_needs m
                 = JsNumber.toFixed3
                     (needsShare (Merged.needs m) (map phrasesOf g) k))
           (keysOf Date_parse reps) merged.
Proof.
  intros api dp ids body ping gen merged attempts k _ H.
  destruct (POST_merged _ _ _ _ _ _ _ H) as (reps & R & ->).
  fold attempts in R |- *. exists reps. split; [exact R|].
  rewrite denominator_max, salvagedRuns_length. fold k.
  apply mergeFrom_keys. intros key j _.
  apply (mergeBucket_shares dp k (ids j) key reps).
Qed.

(** Witness of C1, amended: prose, then a reply that parses; one run was
    salvaged and the confidences are shares of 1. *)
Lemma denominator_counts_salvaged_runs_witness :
  exists merged reps,
    POST base noDate uuid (request 2) true proseThenJson = Reports merged
    /\ reportsOf (salvagedRuns (attemptsFrom proseThenJson O 2)) = Some reps
    /\ Forall2
         (fun key m =>
            let g := group noDate key reps in
            Merged.confields_location_text m
            = share (votes stringifyText
                       (stringifyText (Merged.location_text m))
                       (map location_text g)) 1
            /\ Merged.confields_time_iso m
               = share (votes stringifyText
                          (stringifyText (Merged.time_iso m))
                          (map time_iso g)) 1
            /\ Merged.confields_severity m
               = share (votes stringifySeverity
                          (stringifySeverity (Merged.severity m))
                          (map (fun rep => knownSeverity (severity rep)) g))
                   1
            /\ Merged.confields_needs m
               = JsNumber.toFixed3
                   (needsShare (Merged.needs m) (map phrasesOf g) 1))
         (keysOf noDate reps) merged.
Proof.
  eexists.
  destruct (denominator_counts_salvaged_runs base noDate uuid (request 2)
              true proseThenJson _ eq_refl eq_refl)
    as (reps & R & F).
  exists reps. split; [reflexivity|]. split; [exact R | exact F].
Defined.

(** ** Replies that are dropped, and what ends the request *)










(** ** The order of the merge *)

Lemma earlier_cons {A} (x : A) r a b : earlier r a b -> earlier (x :: r) a b.
Proof. intros (l1 & l2 & -> & H). now exists (x :: l1), l2. Qed.

Lemma earlier_head {A} (x : A) r b : In b r -> earlier (x :: r) x b.
Proof. intros H. now exists [], r. Qed.

Lemma earlier_inv {A} (x : A) r a b :
  earlier (x :: r) a b -> (x = a /\ In b r) \/ earlier r a b.
Proof.
  intros ([|y l1] & l2 & E & H); injection E as -> ->.
  - now left.
  - right. now exists l1, l2.
Qed.

Lemma earlier_In {A} (l : list A) a b : earlier l a b -> In a l /\ In b l.
Proof.
  intros (l1 & l2 & -> & H). split; apply in_or_app; right;
    [now left | now right].
Qed.

Lemma earlier_asym {A} (l : list A) a b :
  NoDup l -> earlier l a b -> earlier l b a -> False.
Proof.
  induction l as [|x r IH]; intros N H1 H2.
  - destruct H1 as ([|? ?] & ? & E & _); discriminate.
  - inversion N as [|? ? Nx Nr]; subst.
    apply earlier_inv in H1. apply earlier_inv in H2.
    destruct H1 as [[-> B] | H1], H2 as [[E A'] | H2].
    + subst. contradiction.
    + apply earlier_In in H2. tauto.
    + subst. apply earlier_In in H1. tauto.
    + now apply IH.
Qed.

Lemma earlier_map {A B} (f : A -> B) l a b :
  earlier l a b -> earlier (map f l) (f a) (f b).
Proof.
  intros (l1 & l2 & -> & H). exists (map f l1), (map f l2).
  split; [now rewrite map_app | now apply in_map].
Qed.

Lemma StronglySorted_impl {A} (R R' : A -> A -> Prop) l :
  (forall a b, In a l -> In b l -> R a b -> R' a b) ->
  StronglySorted R l -> StronglySorted R' l.
Proof.
  intros H S. induction S as [|x r Sr IH Fx]; constructor.
  - apply IH. intros a b Ha Hb. apply H; now right.
  - rewrite Forall_forall in *. intros y Hy.
    apply H; [now left | now right | now apply Fx].
Qed.

(** The sort is stable: by descending key, and entries with the same key
    in the order in which they stood. *)
Section Stable.
Context {A : Type} (key : A -> Z).
Let cmp := fun a b : A => key b - key a.
Let ordered (l : list A) :=
  fun a b : A => key b < key a \/ (key a = key b /\ earlier l a b).

Lemma insert_stable x r s :
  (forall z, In z s -> In z r) ->
  StronglySorted (ordered r) s ->
  StronglySorted (ordered (x :: r)) (insert cmp x s).
Proof.
  intros I S.
  assert (L : StronglySorted (ordered (x :: r)) s).
  { eapply StronglySorted_impl; [|exact S].
    intros a b _ _ [H | [H E]]; [now left | right].
    split; [exact H | now apply earlier_cons]. }
  clear S. induction L as [|y s' Ls IH Fy]; cbn [insert].
  - repeat constructor.
  - unfold cmp at 1. destruct (Z.leb_spec (key y - key x) 0) as [H | H].
    + constructor; [now constructor|].
      assert (Hy : ordered (x :: r) x y).
      { unfold ordered. destruct (Z.eq_dec (key x) (key y)) as [E | E];
          [right | left; lia].
        split; [exact E|]. apply earlier_head, I. now left. }
      constructor; [exact Hy|].
      rewrite Forall_forall in *. intros z Hz. specialize (Fy z Hz).
      unfold ordered in *.
      assert (Kz : key z <= key y) by (destruct Fy as [? | [? _]]; lia).
      destruct (Z.eq_dec (key x) (key z)) as [E | E]; [right | left; lia].
      split; [exact E|]. apply earlier_head, I. now right.
    + constructor.
      * apply IH. intros z Hz. apply I. now right.
      * rewrite Forall_forall in *. intros z Hz.
        apply (Permutation_in _ (insert_perm cmp x s')) in Hz.
        destruct Hz as [<- | Hz]; [left; lia | now apply Fy].
Qed.

Lemma sort_stable l : StronglySorted (ordered l) (sort cmp l).
Proof.
  induction l as [|x r IH]; cbn [sort fold_right]; [constructor|].
  apply insert_stable; [|exact IH].
  intros z Hz. now apply (Permutation_in _ (sort_perm cmp r)).
Qed.
End Stable.

Lemma firstToMost_majority {T} (stringify : option T -> string) arr :
  arr <> [] -> firstToMost stringify (fst (majority stringify arr)) arr.
Proof.
  intros N. destruct (majority_tallied stringify arr) as (_ & I2 & I3).
  fold (majority stringify arr) in I2, I3.
  destruct (majority stringify arr) as [value count]. cbn [fst snd] in *.
  destruct I3 as [[E _] | (p1 & q1 & E & V & F)]; [contradiction|].
  exists p1, q1. rewrite V. now repeat split.
Qed.

Lemma outranks_asym allNeeds a b :
  outranks allNeeds a b -> outranks allNeeds b a -> a = b.
Proof.
  intros [H | [H E]] [H' | [H' E']]; try lia. exfalso.
  apply (earlier_asym _ a b (keepFirst_NoDup _) E E').
Qed.

(** There is one ranking. *)
Lemma ranking_unique allNeeds l l' :
  ranking allNeeds l -> ranking allNeeds l' -> l = l'.
Proof.
  intros [P S] [P' S'].
  apply (sorted_perm_eq (outranks allNeeds) (outranks_asym allNeeds));
    [exact S | exact S' |].
  eapply Permutation_trans; [exact P | now apply Permutation_sym].
Qed.

(** The needs of [needsConsensus], in the words of the ranking. *)
Lemma needsConsensus_ranking allNeeds k :
  exists rank,
    ranking allNeeds rank
    /\ fst (needsConsensus allNeeds k) = consensusOf allNeeds k rank.
Proof.
  set (entries := sort (fun a b : string * Z => snd b - snd a)
                    (countNeeds allNeeds)).
  exists (map fst entries).
  assert (I : Forall (fun e => snd e = mentions (fst e) allNeeds) entries).
  { apply Forall_forall. intros e He.
    now apply (entries_In allNeeds) in He. }
  split; [split|].
  - rewrite <- countNeeds_keys. apply Permutation_map, sort_perm.
  - apply (StronglySorted_map_on
             (fun a b : string * Z =>
                snd b < snd a
                \/ (snd a = snd b /\ earlier (countNeeds allNeeds) a b))
             (outranks allNeeds)
             (fun e => snd e = mentions (fst e) allNeeds) fst);
      [| exact I | apply (sort_stable snd)].
    intros a b Ha Hb [H | [H E]]; unfold outranks; rewrite <- Ha, <- Hb;
      [now left | right].
    split; [exact H|]. rewrite <- countNeeds_keys. now apply earlier_map.
  - rewrite chosen_cases. fold entries. unfold consensusOf.
    assert (F : map fst
                  (filter (fun e : string * Z => (k + 1) / 2 <=? snd e)
                     entries)
                = filter (fun t => (k + 1) / 2 <=? mentions t allNeeds)
                    (map fst entries)).
    { clear - I. induction entries as [|e es IH]; [reflexivity|].
      inversion I as [|? ? He Hes]; subst. cbn [filter map].
      rewrite <- He. destruct ((k + 1) / 2 <=? snd e); cbn [map];
        now rewrite (IH Hes). }
    rewrite F, firstn_map.
    now destruct (filter _ (map fst entries)).
Qed.

Lemma map_nonempty {A B} (f : A -> B) l : l <> [] -> map f l <> [].
Proof. destruct l; [contradiction | discriminate]. Qed.

(** What [mergeBucket] makes of the bucket of a key, in the words of the
    order of its candidates. *)
Lemma mergeBucket_order Date_parse k id key reps :
  In key (keysOf Date_parse reps) ->
  let g := group Date_parse key reps in
  let m := mergeBucket k id (bucketOf Date_parse key reps) in
  firstToMost stringifyText (Merged.location_text m) (map location_text g)
  /\ firstToMost stringifyText (Merged.time_iso m) (map time_iso g)
  /\ firstToMost stringifySeverity (Merged.severity m)
       (map (fun rep => knownSeverity (severity rep)) g)
  /\ firstToMost stringifyText (Merged.notes m) (map notes g)
  /\ firstToMost stringifyText (Merged.dedupe_key m) (map dedupe_key g)
  /\ exists rank,
       ranking (map phrasesOf g) rank
       /\ (forall rank', ranking (map phrasesOf g) rank' -> rank' = rank)
       /\ Merged.needs m = consensusOf (map phrasesOf g) k rank.
Proof.
  intros Hkey. cbv zeta.
  pose proof (group_nonempty Date_parse key reps Hkey) as G.
  destruct (bucketOf_fields Date_parse key reps) as (L & T & S & N & O & D).
  cbv zeta in *. unfold mergeBucket.
  cbn [Merged.location_text Merged.time_iso Merged.severity Merged.notes
       Merged.dedupe_key Merged.needs].
  rewrite L, T, S, N, O, D.
  repeat (split; [apply firstToMost_majority; now apply map_nonempty|]).
  destruct (needsConsensus_ranking
              (map phrasesOf (group Date_parse key reps)) k)
    as (rank & R & E).
  exists rank. split; [exact R|]. split; [|exact E].
  intros rank' R'. now apply (ranking_unique _ _ _ R' R).
Qed.

(** C4, amended.  For the same runs in the same order, and so the same
    denominator, two executions of the bucketing and voting give the same
    merged reports in the same order up to the field [id], which is drawn
    afresh for every report.  The order is that of the input: one merged
    report per key, in the order in which the keys first appear; each voted
    field is the value whose votes are the first to reach the greatest
    number of votes, in the order of the candidates; the needs follow the
    one ranking of the tokens by number of mentions, then by first
    mention. *)
Theorem merge_is_deterministic_up_to_id :
  forall Date_parse ids1 ids2 runs merged,
    mergeRuns Date_parse ids1 runs = Reports merged ->
    exists merged' reps,
      mergeRuns Date_parse ids2 runs = Reports merged'
      /\ map withoutId merged' = map withoutId merged
      /\ reportsOf runs = Some reps
      /\ Forall2
           (fun key m =>
              let g := group Date_parse key reps in
              firstToMost stringifyText (Merged.location_text m)
                (map location_text g)
              /\ firstToMost stringifyText (Merged.time_iso m)
                   (map time_iso g)
              /\ firstToMost stringifySeverity (Merged.severity m)
                   (map (fun rep => knownSeverity (severity rep)) g)
              /\ firstToMost stringifyText (Merged.notes m) (map notes g)
              /\ firstToMost stringifyText (Merged.dedupe_key m)
                   (map dedupe_key g)
              /\ exists rank,
                   ranking (map phrasesOf g) rank
                   /\ (forall rank',
                         ranking (map phrasesOf g) rank' -> rank' = rank)
                   /\ Merged.needs m
                      = consensusOf (map phrasesOf g) (denominator runs)
                          rank)
           (keysOf Date_parse reps) merged.
Proof.
  intros dp ids1 ids2 runs merged H.
  unfold mergeRuns in *. rewrite bucketRuns_table in *.
  destruct (reportsOf runs) as [reps|]; [|now destruct (existsb _ runs)].
  injection H as <-. eexists. exists reps. split; [reflexivity|].
  split; [apply mergeFrom_withoutId|]. split; [reflexivity|].
  apply mergeFrom_keys. intros key j Hkey.
  now apply mergeBucket_order.
Qed.

(** Witness of C4, amended: the runs of prose and then a reply that
    parses, under two draws of the identifiers. *)
Lemma merge_is_deterministic_up_to_id_witness :
  exists merged merged',
    mergeRuns noDate uuid (salvagedRuns (attemptsFrom proseThenJson O 2))
    = Reports merged
    /\ mergeRuns noDate (fun i => uuid (S i))
         (salvagedRuns (attemptsFrom proseThenJson O 2))
       = Reports merged'
    /\ map withoutId merged' = map withoutId merged
    /\ merged' <> merged.
Proof.
  eexists.
  destruct (merge_is_deterministic_up_to_id noDate uuid (fun i => uuid (S i))
              (salvagedRuns (attemptsFrom proseThenJson O 2)) _ eq_refl)
    as (merged' & reps & E & W & _).
  exists merged'. split; [reflexivity|]. split; [exact E|].
  split; [exact W|].
  intros ->. vm_compute in E. discriminate E.
Defined.
